(** * Calculator: the sandboxed expression evaluator of [calculator.py]

    A shallow embedding of [safe_math_eval] and [calculate_api] and the
    properties of the specification that were checked against them.

    Conventions of the embedding.
    - A Python [str] is modelled as a list of characters whose code points
      are below 256 (Rocq's [ascii], read as Latin-1, so that the code of a
      character is its Unicode code point: 215 is the multiplication sign,
      247 the division sign).  Over these code points [\d] is [0-9] and
      Python's white space is 9-13, 28-32, 133 and 160.
    - The libraries are those of CPython 3.8 to 3.13 ([ast.Num] exists and
      [ast.parse] yields [ast.Constant] nodes).  The interpreter's resource
      limits (recursion depth, nesting of parentheses, the 4300 digit limit
      of int/str conversion) are not modelled. *)

From Stdlib Require Import ZArith List Bool Ascii String Lia.
From Stdlib Require Import SpecFloat DecimalString DecimalPos.
Import ListNotations.

Local Open Scope char_scope.
Local Open Scope list_scope.

(** ** Characters and strings *)

Definition pystr := list ascii.

Definition py (s : string) : pystr := list_ascii_of_string s.

Definition code (c : ascii) : nat := nat_of_ascii c.

Definition times_sign : ascii := ascii_of_nat 215.
Definition division_sign : ascii := ascii_of_nat 247.

(** [\d] on code points below 256. *)
Definition is_digit (c : ascii) : bool :=
  (48 <=? code c)%nat && (code c <=? 57)%nat.

(** [str.isspace] on code points below 256; [\s] of [re] agrees with it. *)
Definition is_space (c : ascii) : bool :=
  let n := code c in
  ((9 <=? n) && (n <=? 13) || (28 <=? n) && (n <=? 32)
   || (n =? 133) || (n =? 160))%nat.

Definition is_alpha (c : ascii) : bool :=
  let n := code c in
  ((65 <=? n) && (n <=? 90) || (97 <=? n) && (n <=? 122))%nat.

Definition mem_char (c : ascii) (cs : string) : bool :=
  existsb (Ascii.eqb c) (py cs).

(** [str.lstrip], [str.rstrip] and [str.strip] without argument. *)
Fixpoint lstrip (s : pystr) : pystr :=
  match s with
  | c :: s' => if is_space c then lstrip s' else s
  | [] => []
  end.

Definition rstrip (s : pystr) : pystr := rev (lstrip (rev s)).

Definition strip (s : pystr) : pystr := rstrip (lstrip s).

(** The three [replace] calls of [safe_math_eval]: the circumflex becomes
    two stars, the multiplication sign a star and the division sign a
    slash.  Each pattern is a single character. *)
Fixpoint replace1 (old : ascii) (new : pystr) (s : pystr) : pystr :=
  match s with
  | c :: s' => (if Ascii.eqb c old then new else [c]) ++ replace1 old new s'
  | [] => []
  end.

Definition replace_aliases (s : pystr) : pystr :=
  replace1 division_sign (py "/")
    (replace1 times_sign (py "*") (replace1 "^" (py "**") s)).

(** ** The percentage rewrite *)

Fixpoint span (p : ascii -> bool) (s : pystr) : pystr * pystr :=
  match s with
  | c :: s' =>
      if p c then let (a, b) := span p s' in (c :: a, b) else ([], s)
  | [] => ([], [])
  end.

(** A match of the pattern of [re.sub] (digits, an optional point, digits,
    a percent sign; group 1 is all but the sign) that starts at the head of
    [s]; the result is group 1.  The pattern is greedy with backtracking,
    yet the text it can match from a given start is unique: a non-empty run
    of digits, then either [%] at once, or a point, a possibly empty run of
    digits and [%].  (Giving digits of the first run back to the second
    ends at the same character.) *)
Definition match_percent (s : pystr) : option pystr :=
  let (d1, r1) := span is_digit s in
  match d1, r1 with
  | [], _ => None
  | _, "%" :: _ => Some d1
  | _, "." :: r2 =>
      let (d2, r3) := span is_digit r2 in
      match r3 with
      | "%" :: _ => Some (d1 ++ "." :: d2)
      | _ => None
      end
  | _, _ => None
  end.

Definition is_numchar (c : ascii) : bool := is_digit c || Ascii.eqb c ".".
Definition is_opchar (c : ascii) : bool := mem_char c "+-*/".

(** The [re.search] of [replace_percent] in [before] (runs of digits and
    points separated by single operators [+ - * /], anchored at the end by
    [$]), on the reversed text: the leftmost start from which the pattern
    reaches the end is the longest suffix made of runs of digits and points
    separated by single operators.  [$] also matches before a final
    newline. *)
Fixpoint base_rev (r : pystr) : pystr :=
  match r with
  | c :: r' =>
      if is_numchar c then c :: base_rev r'
      else if is_opchar c then
        match r' with
        | d :: _ => if is_numchar d then c :: base_rev r' else []
        | [] => []
        end
      else []
  | [] => []
  end.

Definition prev_match (rev_before : pystr) : option pystr :=
  let r := match rev_before with
           | c :: r' =>
               if Ascii.eqb c (ascii_of_nat 10) then
                 match r' with
                 | d :: _ => if is_numchar d then r' else rev_before
                 | [] => rev_before
                 end
               else rev_before
           | [] => []
           end in
  match r with
  | c :: _ => if is_numchar c then Some (rev (base_rev r)) else None
  | [] => None
  end.

(** [replace_percent]: [num] is group 1 and [rev_before] the reversed
    [expr[:match.start()]]. *)
Definition replace_percent (num : pystr) (rev_before : pystr) : pystr :=
  let ends_with_op :=
    match rev_before with
    | c :: _ => mem_char c "+-*/("
    | [] => false
    end in
  if ends_with_op then py "(" ++ num ++ py "/100)"
  else
    match prev_match rev_before with
    | Some base => py "+(" ++ base ++ py "*" ++ num ++ py "/100)"
    | None => py "(" ++ num ++ py "/100)"
    end.

(** The [re.sub] of [safe_math_eval] with [replace_percent]: the matches
    are the leftmost ones, they do not overlap, and the text between them is
    copied.  [skip] counts the characters of the current match still to
    pass. *)
Fixpoint sub_percent (skip : nat) (rev_before s : pystr) : pystr :=
  match s with
  | [] => []
  | c :: s' =>
      match skip with
      | S k => sub_percent k (c :: rev_before) s'
      | O =>
          match match_percent s with
          | Some num =>
              replace_percent num rev_before
                ++ sub_percent (List.length num) (c :: rev_before) s'
          | None => c :: sub_percent 0 (c :: rev_before) s'
          end
      end
  end.

(** The text handed to [ast.parse]. *)
Definition normalize (raw : pystr) : pystr :=
  sub_percent 0 [] (replace_aliases (strip raw)).

Definition show (s : pystr) : string := string_of_list_ascii s.

(** ** Binary floating point (Python's [float], IEEE 754 binary64)

    Floats are the [spec_float]s of the Standard Library at precision 53;
    arithmetic on them is the library's, which rounds to nearest-even. *)

Local Open Scope Z_scope.

Definition float := spec_float.

Definition prec64 : Z := 53.
Definition emax64 : Z := 1024.

(** The float nearest to the rational [n/d] ([0 <= n], [0 < d]), with the
    sign [s]: correctly rounded, ties to even, overflow to infinity. *)
Definition float_of_ratio (s : bool) (n d : Z) : float :=
  if n =? 0 then S754_zero s
  else
    let '(mz, ez, lz) := SFdiv_core_binary prec64 emax64 n 0 d 0 in
    binary_round_aux prec64 emax64 s mz ez lz.

(** The float nearest to [c * 10^k]. *)
Definition float_of_decimal (s : bool) (c k : Z) : float :=
  if 0 <=? k then float_of_ratio s (c * 10 ^ k) 1
  else float_of_ratio s c (10 ^ (- k)).

Definition float_eqb (x y : float) : bool :=
  match x, y with
  | S754_zero a, S754_zero b => Bool.eqb a b
  | S754_infinity a, S754_infinity b => Bool.eqb a b
  | S754_nan, S754_nan => true
  | S754_finite a m e, S754_finite b m' e' =>
      Bool.eqb a b && Pos.eqb m m' && (e =? e')
  | _, _ => false
  end.

(** Decimal digits. *)
Definition digit_val (c : ascii) : Z := Z.of_nat (code c) - 48.

Definition Z_of_digits (ds : pystr) : Z :=
  fold_left (fun acc c => 10 * acc + digit_val c) ds 0.

(** [str(n)] for an [int]. *)
Definition str_int (z : Z) : pystr := py (NilZero.string_of_int (Z.to_int z)).

(** Number of decimal digits of a non-negative integer (1 for 0): the
    length of its digit string. *)
Fixpoint ndigits_aux (fuel : nat) (z : Z) : Z :=
  match fuel with
  | O => 1
  | S f => if z <? 10 then 1 else 1 + ndigits_aux f (z / 10)
  end.

Definition ndigits (z : Z) : Z := ndigits_aux (Z.to_nat (Z.log2 z)) z.

(** The exact value of a finite positive float as a fraction. *)
Definition ratio_of_float (m : positive) (e : Z) : Z * Z :=
  if 0 <=? e then (Zpos m * 2 ^ e, 1) else (Zpos m, 2 ^ (- e)).

(** [floor(log10(n/d))] for [0 < n], [0 < d]. *)
Definition floor_log10 (n d : Z) : Z :=
  let p := ndigits n - ndigits d in
  if 0 <=? p then (if d * 10 ^ p <=? n then p else p - 1)
  else (if d <=? n * 10 ^ (- p) then p else p - 1).

(** [n/d] cut to a multiple of [10^k]: the quotient and whether the
    remainder is below, at or above one half. *)
Definition scale10 (n d k : Z) : Z * comparison :=
  let n' := if 0 <=? k then n else n * 10 ^ (- k) in
  let d' := if 0 <=? k then d * 10 ^ k else d in
  let q := n' / d' in
  (q, (2 * (n' - q * d') ?= d')).

Fixpoint strip_zeros (fuel : nat) (q k : Z) : Z * Z :=
  match fuel with
  | O => (q, k)
  | S f => if (q mod 10 =? 0) && negb (q =? 0)
           then strip_zeros f (q / 10) (k + 1) else (q, k)
  end.

(** The shortest decimal [q * 10^k] that [float_of_decimal] maps back to the
    float [m * 2^e], the nearest one when two of that length do (the
    "shortest repr" of [float.__repr__]); [i] counts the lengths tried, from
    [n] digits on. *)
Fixpoint shortest_digits (i : nat) (n : Z) (m : positive) (e : Z) : Z * Z :=
  let x := S754_finite false m e in
  let '(a, b) := ratio_of_float m e in
  let k := floor_log10 a b - n + 1 in
  let '(q, half) := scale10 a b k in
  let lo_ok := float_eqb (float_of_decimal false q k) x in
  let hi_ok := float_eqb (float_of_decimal false (q + 1) k) x in
  let pick_hi := match half with
                 | Lt => false
                 | Gt => true
                 | Eq => Z.odd q
                 end in
  match i with
  | O => (if pick_hi then q + 1 else q, k)
  | S i' =>
      if lo_ok && hi_ok then (if pick_hi then q + 1 else q, k)
      else if lo_ok then (q, k)
      else if hi_ok then (q + 1, k)
      else shortest_digits i' (n + 1) m e
  end.

Definition repr_digits (m : positive) (e : Z) : Z * Z :=
  let '(q, k) := shortest_digits 16 1 m e in strip_zeros 20 q k.

Definition zeros (n : Z) : pystr := repeat "0"%char (Z.to_nat n).

(** [str(x)] for a [float] ([float.__repr__]): fixed notation when the
    decimal point position [decpt] is in [-3 .. 16], else exponent notation
    with at least two exponent digits. *)
Definition str_float (x : float) : pystr :=
  match x with
  | S754_nan => py "nan"
  | S754_infinity s => if s then py "-inf" else py "inf"
  | S754_zero s => if s then py "-0.0" else py "0.0"
  | S754_finite s m e =>
      let '(q, k) := repr_digits m e in
      let ds := str_int q in
      let nd := Z.of_nat (List.length ds) in
      let decpt := k + nd in
      let body :=
        if (decpt <=? -4) || (16 <? decpt) then
          let ex := decpt - 1 in
          let mant := match ds with
                      | d :: [] => [d]
                      | d :: rest => d :: "."%char :: rest
                      | [] => []
                      end in
          let exs := str_int (Z.abs ex) in
          mant ++ py "e" ++ (if ex <? 0 then py "-" else py "+")
               ++ (if Z.abs ex <? 10 then py "0" else []) ++ exs
        else if decpt <=? 0 then py "0." ++ zeros (- decpt) ++ ds
        else if nd <=? decpt then ds ++ zeros (decpt - nd) ++ py ".0"
        else firstn (Z.to_nat decpt) ds ++ py "." ++ skipn (Z.to_nat decpt) ds
      in (if s then py "-" else []) ++ body
  end.

(** ** Exceptions and the error monad

    The exceptions that [safe_math_eval] can meet.  [safe_math_eval] turns a
    caught exception into the first line of its text; the embedding keeps
    the exception itself, and the text where the source writes it. *)

Inductive pyexc : Type :=
| SyntaxError
| ValueError (msg : pystr)
| TypeError
| OverflowError
| ZeroDivisionError
| Dec_DivisionByZero      (* decimal.DivisionByZero, a ZeroDivisionError *)
| Dec_InvalidOperation    (* decimal.InvalidOperation and its subclasses *)
| Dec_Overflow.           (* decimal.Overflow, an ArithmeticError *)

Inductive res (A : Type) : Type :=
| Ret (a : A)
| Raise (e : pyexc).
Arguments Ret {A} a.
Arguments Raise {A} e.

Definition bind {A B : Type} (m : res A) (k : A -> res B) : res B :=
  match m with
  | Ret a => k a
  | Raise e => Raise e
  end.

Notation "x <- m ;; k" := (bind m (fun x => k))
  (at level 61, m at next level, right associativity).

(** ** Decimal arithmetic (Python's [decimal.Decimal])

    Transcribed from the [decimal] module, in the context that the source
    sets up: [getcontext().prec = 28], rounding half-even, exponents within
    [-999999 .. 999999], and the traps of the default context
    (InvalidOperation, DivisionByZero and Overflow raise; the other signals
    only set flags, which nothing reads). *)

Inductive dec : Type :=
| DFin (s : bool) (c : Z) (e : Z)   (* (-1)^s * c * 10^e, with 0 <= c *)
| DInf (s : bool)
| DNaN.

Definition prec : Z := 28.
Definition Emax : Z := 999999.
Definition Emin : Z := -999999.
Definition Etiny : Z := Emin - prec + 1.
Definition Etop : Z := Emax - prec + 1.

Definition dec_is_zero (d : dec) : bool :=
  match d with DFin _ c _ => c =? 0 | _ => false end.

Definition adjusted (c e : Z) : Z := e + ndigits c - 1.

(** [_round_half_even]: of the [ndigits c] digits of [c] the first [digits]
    are kept; the result is 1 to round up, 0 when only zeros are dropped and
    -1 when non-zero digits are dropped. *)
Definition round_half_even (c digits : Z) : Z :=
  let r := ndigits c - digits in
  let rem := c mod 10 ^ r in
  let half := 5 * 10 ^ (r - 1) in
  if (rem =? half) && ((digits =? 0) || Z.even (c / 10 ^ r)) then -1
  else if half <=? rem then 1
  else if rem =? 0 then 0
  else -1.

(** [self._int[:digits] or '0'] as a number. *)
Definition prefix (c digits : Z) : Z := c / 10 ^ (ndigits c - digits).

(** [Decimal._fix] *)
Definition dec_fix (s : bool) (c e : Z) : res dec :=
  if c =? 0 then Ret (DFin s 0 (Z.min (Z.max e Etiny) Emax))
  else
    let exp_min := ndigits c + e - prec in
    if Etop <? exp_min then Raise Dec_Overflow
    else
      let exp_min := if exp_min <? Etiny then Etiny else exp_min in
      if e <? exp_min then
        let digits := ndigits c + e - exp_min in
        let '(c, digits) := if digits <? 0 then (1, 0) else (c, digits) in
        let changed := round_half_even c digits in
        let coeff := prefix c digits in
        let '(coeff, exp_min) :=
          if 0 <? changed then
            let coeff := coeff + 1 in
            if prec <? ndigits coeff then (coeff / 10, exp_min + 1)
            else (coeff, exp_min)
          else (coeff, exp_min) in
        if Etop <? exp_min then Raise Dec_Overflow
        else Ret (DFin s coeff exp_min)
      else Ret (DFin s c e).

(** [Decimal._rescale] with half-even rounding, on a finite number. *)
Definition dec_rescale (s : bool) (c e : Z) (exp : Z) : dec :=
  if c =? 0 then DFin s 0 exp
  else if exp <=? e then DFin s (c * 10 ^ (e - exp)) exp
  else
    let digits := ndigits c + e - exp in
    let '(c, digits) := if digits <? 0 then (1, 0) else (c, digits) in
    let changed := round_half_even c digits in
    let coeff := prefix c digits in
    DFin s (if changed =? 1 then coeff + 1 else coeff) exp.

Definition dec_neg (x : dec) : res dec :=
  match x with
  | DNaN => Ret DNaN
  | DInf s => Ret (DInf (negb s))
  | DFin s c e => if c =? 0 then dec_fix false c e else dec_fix (negb s) c e
  end.

Definition dec_pos (x : dec) : res dec :=
  match x with
  | DNaN => Ret DNaN
  | DInf s => Ret (DInf s)
  | DFin s c e => if c =? 0 then dec_fix false c e else dec_fix s c e
  end.

Definition dec_abs (x : dec) : res dec :=
  match x with
  | DNaN => Ret DNaN
  | DInf s | DFin s _ _ => if s then dec_neg x else dec_pos x
  end.

(** [_normalize] of the addition: both operands on the smaller exponent,
    after replacing an operand too small to matter by a sticky unit. *)
Definition normalize_ops (c1 e1 c2 e2 : Z) : Z * Z * Z :=
  let tmp_first := negb (e1 <? e2) in        (* [tmp] is op1 *)
  let '(tc, te, oc, oe) :=
    if tmp_first then (c1, e1, c2, e2) else (c2, e2, c1, e1) in
  let exp := te + Z.min (-1) (ndigits tc - prec - 2) in
  let '(oc, oe) := if ndigits oc + oe - 1 <? exp then (1, exp) else (oc, oe) in
  let tc := tc * 10 ^ (te - oe) in
  if tmp_first then (tc, oc, oe) else (oc, tc, oe).

(** [Decimal.__add__] *)
Definition dec_add (x y : dec) : res dec :=
  match x, y with
  | DNaN, _ | _, DNaN => Ret DNaN
  | DInf s1, DInf s2 =>
      if Bool.eqb s1 s2 then Ret x else Raise Dec_InvalidOperation
  | DInf _, _ => Ret x
  | _, DInf _ => Ret y
  | DFin s1 c1 e1, DFin s2 c2 e2 =>
      let exp := Z.min e1 e2 in
      if (c1 =? 0) && (c2 =? 0) then dec_fix (s1 && s2) 0 exp
      else if c1 =? 0 then
        match dec_rescale s2 c2 e2 (Z.max exp (e2 - prec - 1)) with
        | DFin s c e => dec_fix s c e
        | d => Ret d
        end
      else if c2 =? 0 then
        match dec_rescale s1 c1 e1 (Z.max exp (e1 - prec - 1)) with
        | DFin s c e => dec_fix s c e
        | d => Ret d
        end
      else
        let '(a, b, e) := normalize_ops c1 e1 c2 e2 in
        if negb (Bool.eqb s1 s2) then
          if a =? b then dec_fix false 0 exp
          else
            let '(sa, a, b) := if a <? b then (s2, b, a) else (s1, a, b) in
            dec_fix sa (a - b) e
        else dec_fix s1 (a + b) e
  end.

Definition dec_copy_negate (x : dec) : dec :=
  match x with
  | DFin s c e => DFin (negb s) c e
  | DInf s => DInf (negb s)
  | DNaN => DNaN
  end.

(** [Decimal.__sub__] *)
Definition dec_sub (x y : dec) : res dec := dec_add x (dec_copy_negate y).

(** [Decimal.__mul__] *)
Definition dec_mul (x y : dec) : res dec :=
  match x, y with
  | DNaN, _ | _, DNaN => Ret DNaN
  | DInf s1, DInf s2 => Ret (DInf (xorb s1 s2))
  | DInf s1, DFin s2 c2 _ =>
      if c2 =? 0 then Raise Dec_InvalidOperation else Ret (DInf (xorb s1 s2))
  | DFin s1 c1 _, DInf s2 =>
      if c1 =? 0 then Raise Dec_InvalidOperation else Ret (DInf (xorb s1 s2))
  | DFin s1 c1 e1, DFin s2 c2 e2 =>
      dec_fix (xorb s1 s2) (c1 * c2) (e1 + e2)
  end.

(** [Decimal.__truediv__] *)
Definition dec_truediv (x y : dec) : res dec :=
  match x, y with
  | DNaN, _ | _, DNaN => Ret DNaN
  | DInf _, DInf _ => Raise Dec_InvalidOperation
  | DInf s1, DFin s2 _ _ => Ret (DInf (xorb s1 s2))
  | DFin s1 _ _, DInf s2 => Ret (DFin (xorb s1 s2) 0 Etiny)
  | DFin s1 c1 e1, DFin s2 c2 e2 =>
      let sign := xorb s1 s2 in
      if c2 =? 0 then
        if c1 =? 0 then Raise Dec_InvalidOperation   (* 0 / 0 *)
        else Raise Dec_DivisionByZero                (* x / 0 *)
      else if c1 =? 0 then dec_fix sign 0 (e1 - e2)
      else
        let shift := ndigits c2 - ndigits c1 + prec + 1 in
        let exp := e1 - e2 - shift in
        let '(n, d) := if 0 <=? shift then (c1 * 10 ^ shift, c2)
                       else (c1, c2 * 10 ^ (- shift)) in
        let coeff := n / d in
        let remainder := n mod d in
        if negb (remainder =? 0) then
          dec_fix sign (if coeff mod 5 =? 0 then coeff + 1 else coeff) exp
        else
          (* exact: as close to the ideal exponent as possible *)
          let ideal_exp := e1 - e2 in
          let fix reduce (fuel : nat) (coeff exp : Z) : Z * Z :=
            match fuel with
            | O => (coeff, exp)
            | S f => if (exp <? ideal_exp) && (coeff mod 10 =? 0)
                     then reduce f (coeff / 10) (exp + 1) else (coeff, exp)
            end in
          let '(coeff, exp) := reduce (Z.to_nat (ndigits coeff)) coeff exp in
          dec_fix sign coeff exp
  end.

(** [Decimal._divide]: the integer quotient and the remainder of two finite
    numbers, the divisor not zero. *)
Definition dec_divide (s1 : bool) (c1 e1 : Z) (s2 : bool) (c2 e2 : Z)
  : res (dec * dec) :=
  let sign := xorb s1 s2 in
  let ideal_exp := Z.min e1 e2 in
  let expdiff := adjusted c1 e1 - adjusted c2 e2 in
  if (c1 =? 0) || (expdiff <=? -2) then
    Ret (DFin sign 0 0, dec_rescale s1 c1 e1 ideal_exp)
  else
    if expdiff <=? prec then
      let '(a, b) := if e2 <=? e1 then (c1 * 10 ^ (e1 - e2), c2)
                     else (c1, c2 * 10 ^ (e2 - e1)) in
      let q := a / b in
      let r := a mod b in
      if q <? 10 ^ prec
      then Ret (DFin sign q 0, DFin s1 r ideal_exp)
      else Raise Dec_InvalidOperation   (* DivisionImpossible *)
    else Raise Dec_InvalidOperation.

(** [Decimal.__floordiv__] *)
Definition dec_floordiv (x y : dec) : res dec :=
  match x, y with
  | DNaN, _ | _, DNaN => Ret DNaN
  | DInf _, DInf _ => Raise Dec_InvalidOperation
  | DInf s1, DFin s2 _ _ => Ret (DInf (xorb s1 s2))
  | DFin s1 c1 e1, DInf s2 => Ret (DFin (xorb s1 s2) 0 0)
  | DFin s1 c1 e1, DFin s2 c2 e2 =>
      if c2 =? 0 then
        if c1 =? 0 then Raise Dec_InvalidOperation   (* 0 // 0 *)
        else Raise Dec_DivisionByZero                (* x // 0 *)
      else qr <- dec_divide s1 c1 e1 s2 c2 e2 ;; Ret (fst qr)
  end.

(** [Decimal.__mod__] *)
Definition dec_mod (x y : dec) : res dec :=
  match x, y with
  | DNaN, _ | _, DNaN => Ret DNaN
  | DInf _, _ => Raise Dec_InvalidOperation           (* INF % x *)
  | DFin s1 c1 e1, DInf _ => dec_fix s1 c1 e1
  | DFin s1 c1 e1, DFin s2 c2 e2 =>
      if c2 =? 0 then Raise Dec_InvalidOperation       (* x % 0, 0 % 0 *)
      else
        qr <- dec_divide s1 c1 e1 s2 c2 e2 ;;
        match snd qr with
        | DFin s c e => dec_fix s c e
        | d => Ret d
        end
  end.

(** [Decimal._cmp] being 0, which is what [==] tests on non-NaNs. *)
Definition dec_eqb (x y : dec) : bool :=
  match x, y with
  | DNaN, _ | _, DNaN => false
  | DInf s1, DInf s2 => Bool.eqb s1 s2
  | DInf _, _ | _, DInf _ => false
  | DFin s1 c1 e1, DFin s2 c2 e2 =>
      if c1 =? 0 then c2 =? 0
      else if c2 =? 0 then false
      else if negb (Bool.eqb s1 s2) then false
      else if adjusted c1 e1 =? adjusted c2 e2
           then c1 * 10 ^ Z.max 0 (e1 - e2) =? c2 * 10 ^ Z.max 0 (e2 - e1)
           else false
  end.

(** [Decimal.to_integral_value] *)
Definition dec_to_integral_value (x : dec) : dec :=
  match x with
  | DFin s c e => if 0 <=? e then x else dec_rescale s c e 0
  | _ => x
  end.

(** [Decimal.quantize] onto the exponent of a finite [exp]. *)
Definition dec_quantize (x : dec) (exp : Z) : res dec :=
  match x with
  | DNaN => Ret DNaN
  | DInf _ => Raise Dec_InvalidOperation
  | DFin s c e =>
      if negb ((Etiny <=? exp) && (exp <=? Emax)) then Raise Dec_InvalidOperation
      else if c =? 0 then dec_fix s 0 exp
      else if Emax <? adjusted c e then Raise Dec_InvalidOperation
      else if prec <? adjusted c e - exp + 1 then Raise Dec_InvalidOperation
      else
        match dec_rescale s c e exp with
        | DFin s' c' e' =>
            if Emax <? adjusted c' e' then Raise Dec_InvalidOperation
            else if prec <? ndigits c' then Raise Dec_InvalidOperation
            else dec_fix s' c' e'
        | d => Ret d
        end
  end.

(** [Decimal.__int__] *)
Definition dec_int (x : dec) : res Z :=
  match x with
  | DNaN => Raise (ValueError (py "cannot convert NaN to integer"))
  | DInf _ => Raise OverflowError
  | DFin s c e =>
      let a := if 0 <=? e then c * 10 ^ e else c / 10 ^ (- e) in
      Ret (if s then - a else a)
  end.

(** [Decimal.__float__]: the float nearest to the decimal. *)
Definition dec_float (x : dec) : float :=
  match x with
  | DNaN => S754_nan
  | DInf s => S754_infinity s
  | DFin s c e => float_of_decimal s c e
  end.

(** [Decimal.__round__] with one argument. *)
Definition dec_round (x : dec) : res Z :=
  match x with
  | DNaN => Raise (ValueError (py "cannot round a NaN"))
  | DInf _ => Raise OverflowError
  | DFin s c e => dec_int (dec_rescale s c e 0)
  end.

(** [Decimal(n)] for an [int]. *)
Definition dec_of_int (n : Z) : dec := DFin (n <? 0) (Z.abs n) 0.

Definition lower (c : ascii) : ascii :=
  if (65 <=? code c)%nat && (code c <=? 90)%nat
  then ascii_of_nat (code c + 32) else c.

Definition pystr_eqb (a b : pystr) : bool :=
  String.eqb (string_of_list_ascii a) (string_of_list_ascii b).

(** [Decimal(s)] for a [str], on the texts that [str] of an [int], a [float]
    or a [bool] produces (no surrounding blanks, no underscores): an optional
    sign, then digits with an optional fraction and exponent, or an
    infinity, or a NaN; anything else is a ConversionSyntax, which is an
    InvalidOperation. *)
Definition dec_of_str (s : pystr) : res dec :=
  let '(sign, body) :=
    match s with
    | c :: r => if Ascii.eqb c "-" then (true, r)
                else if Ascii.eqb c "+" then (false, r)
                else (false, s)
    | [] => (false, s)
    end in
  let low := map lower body in
  if pystr_eqb low (py "inf") || pystr_eqb low (py "infinity") then Ret (DInf sign)
  else if pystr_eqb low (py "nan") then Ret DNaN
  else
    let '(intpart, r1) := span is_digit body in
    let '(has_point, fracpart, r2) :=
      match r1 with
      | c :: r => if Ascii.eqb c "."
                  then let '(f, r') := span is_digit r in (true, f, r')
                  else (false, [], r1)
      | [] => (false, [], r1)
      end in
    let no_digit := match intpart, fracpart with [], [] => true | _, _ => false end in
    let exponent : option Z :=
      match r2 with
      | [] => Some 0
      | e :: r =>
          if Ascii.eqb (lower e) "e"%char then
            let '(neg, ds) :=
              match r with
              | "-"%char :: ds => (true, ds)
              | "+"%char :: ds => (false, ds)
              | _ => (false, r)
              end in
            match ds with
            | [] => None
            | _ => if forallb is_digit ds
                   then Some (if neg then - Z_of_digits ds else Z_of_digits ds)
                   else None
            end
          else None
      end in
    match exponent with
    | Some ex =>
        if no_digit then Raise Dec_InvalidOperation
        else Ret (DFin sign (Z_of_digits (intpart ++ fracpart))
                       (ex - Z.of_nat (List.length fracpart)))
    | None => Raise Dec_InvalidOperation
    end.

(** ** Operations on floats and ints *)

Definition is_nan (x : float) : bool :=
  match x with S754_nan => true | _ => false end.
Definition is_inf (x : float) : bool :=
  match x with S754_infinity _ => true | _ => false end.
Definition is_finite (x : float) : bool := negb (is_nan x) && negb (is_inf x).
Definition float_is_zero (x : float) : bool :=
  match x with S754_zero _ => true | _ => false end.
Definition float_sign (x : float) : bool :=
  match x with
  | S754_zero s | S754_infinity s | S754_finite s _ _ => s
  | S754_nan => false
  end.

Definition fadd : float -> float -> float := SFadd prec64 emax64.
Definition fsub : float -> float -> float := SFsub prec64 emax64.
Definition fmul : float -> float -> float := SFmul prec64 emax64.
Definition fdiv : float -> float -> float := SFdiv prec64 emax64.
Definition fsqrt : float -> float := SFsqrt prec64 emax64.

(** [float(n)] for an [int]: correctly rounded, or OverflowError. *)
Definition float_of_int (n : Z) : res float :=
  let x := float_of_ratio (n <? 0) (Z.abs n) 1 in
  if is_inf x then Raise OverflowError else Ret x.

(** [math.pi], [math.e] and the factor of [math.radians]. *)
Definition math_pi : float := float_of_decimal false 3141592653589793 (-15).
Definition math_e : float := float_of_decimal false 2718281828459045 (-15).
Definition degToRad : float := fdiv math_pi (float_of_ratio false 180 1).

(** [n/d] rounded half-even to an integer. *)
Definition round_ratio (n d : Z) (k : Z) : Z :=
  let '(q, half) := scale10 n d k in
  match half with
  | Lt => q
  | Gt => q + 1
  | Eq => if Z.even q then q else q + 1
  end.

(** [float.__round__] without digits: the nearest integer, ties to even. *)
Definition float_round (x : float) : res Z :=
  match x with
  | S754_nan => Raise (ValueError (py "cannot convert float NaN to integer"))
  | S754_infinity _ => Raise OverflowError
  | S754_zero _ => Ret 0
  | S754_finite s m e =>
      let '(a, b) := ratio_of_float m e in
      let q := round_ratio a b 0 in
      Ret (if s then - q else q)
  end.

(** [float.__round__] with [ndigits]: the exact value is rounded half-even
    to [ndigits] decimal places and converted back. *)
Definition float_round_ndigits (x : float) (ndigits : Z) : res float :=
  match x with
  | S754_finite s m e =>
      if 323 <? ndigits then Ret x
      else if ndigits <? -308 then Ret (S754_zero s)
      else
        let '(a, b) := ratio_of_float m e in
        let q := round_ratio a b (- ndigits) in
        let r := float_of_decimal s q (- ndigits) in
        if is_inf r then Raise OverflowError else Ret r
  | _ => Ret x
  end.

(** [int.__round__] with [ndigits]. *)
Definition int_round_ndigits (n : Z) (ndigits : Z) : Z :=
  if 0 <=? ndigits then n
  else
    let q := round_ratio (Z.abs n) 1 (- ndigits) * 10 ^ (- ndigits) in
    if n <? 0 then - q else q.

(** [math_1] of [mathmodule.c]: a libm function applied to a float, a NaN
    from a non-NaN or an infinity from a finite argument being a
    ValueError ("math domain error"). *)
Definition math_domain_error : pyexc := ValueError (py "math domain error").

Definition math_1 (func : float -> float) (x : float) : res float :=
  let r := func x in
  if is_nan r && negb (is_nan x) then Raise math_domain_error
  else if is_inf r && is_finite x then Raise math_domain_error
  else Ret r.

(** [m_log] and [m_log10] of [mathmodule.c] around a libm logarithm. *)
Definition m_log (log : float -> float) (x : float) : float :=
  match x with
  | S754_finite false _ _ => log x
  | S754_zero _ => S754_infinity true
  | S754_finite true _ _ => S754_nan
  | S754_nan => x
  | S754_infinity false => x
  | S754_infinity true => S754_nan
  end.

(** [loghelper] on an [int]: the logarithm of the float when the int
    converts, else of the mantissa plus the exponent times the logarithm
    of 2. *)
Definition log_of_int (log : float -> float) (n : Z) : res float :=
  if n <=? 0 then Raise math_domain_error
  else
    match float_of_int n with
    | Ret x => Ret (m_log log x)
    | Raise _ =>
        let e := Z.log2 n + 1 in
        let x := float_of_ratio false n (2 ^ e) in
        let '(x, e) := match x with
                       | S754_finite _ 4503599627370496 (-52) =>
                           (float_of_ratio false 1 2, e + 1)
                       | _ => (x, e)
                       end in
        Ret (fadd (m_log log x)
                  (fmul (m_log log (float_of_ratio false 2 1))
                        (float_of_ratio (e <? 0) (Z.abs e) 1)))
    end.

(** ** Values, the whitelists and the syntax tree *)

(** The functions of [ALLOWED_MATH_NAMES]. *)
Inductive func : Type :=
| Fsqrt | Fsin | Fcos | Ftan | Flog | Fln | Fabs | Fround.

(** What [eval_node] can return. *)
Inductive value : Type :=
| VDec (d : dec)        (* decimal.Decimal *)
| VFloat (x : float)    (* float *)
| VInt (n : Z)          (* int *)
| VFunc (f : func)      (* a function object of the whitelist *)
| VComplex (re im : float)
| VNone
| VStr (s : pystr)      (* str *)
| VBytes (b : pystr)    (* bytes *)
| VEllipsis.

(** [ALLOWED_MATH_NAMES] *)
Definition ALLOWED_MATH_NAMES : list (string * value) :=
  [ ("pi", VFloat math_pi); ("e", VFloat math_e); ("sqrt", VFunc Fsqrt);
    ("sin", VFunc Fsin); ("cos", VFunc Fcos); ("tan", VFunc Ftan);
    ("log", VFunc Flog); ("ln", VFunc Fln); ("abs", VFunc Fabs);
    ("round", VFunc Fround) ]%string.

Fixpoint lookup {A : Type} (k : string) (m : list (string * A)) : option A :=
  match m with
  | (k', v) :: m' => if String.eqb k k' then Some v else lookup k m'
  | [] => None
  end.

(** The operator classes of [ast]. *)
Inductive operator : Type :=
| Add | Sub | Mult | MatMult | Div | Mod | Pow
| LShift | RShift | BitOr | BitXor | BitAnd | FloorDiv.

Inductive unaryop : Type := Invert | Not | UAdd | USub.

(** The keys of [ALLOWED_OPERATORS]; the values are given by [binary_op]
    and [unary_op] below. *)
Definition allowed_operator (op : operator) : bool :=
  match op with
  | Add | Sub | Mult | Div | FloorDiv | Mod | Pow => true
  | _ => false
  end.

Definition allowed_unaryop (op : unaryop) : bool :=
  match op with
  | USub | UAdd => true
  | _ => false
  end.

Definition operator_name (op : operator) : string :=
  match op with
  | Add => "Add" | Sub => "Sub" | Mult => "Mult" | MatMult => "MatMult"
  | Div => "Div" | Mod => "Mod" | Pow => "Pow" | LShift => "LShift"
  | RShift => "RShift" | BitOr => "BitOr" | BitXor => "BitXor"
  | BitAnd => "BitAnd" | FloorDiv => "FloorDiv"
  end%string.

Definition unaryop_name (op : unaryop) : string :=
  match op with
  | Invert => "Invert" | Not => "Not" | UAdd => "UAdd" | USub => "USub"
  end%string.

(** The value of an [ast.Constant]: a number, [True] or [False], [None],
    a string or bytes literal, an imaginary literal (the complex number
    with real part 0) or [...]. *)
Inductive constant : Type :=
| CInt (n : Z)
| CFloat (x : float)
| CBool (b : bool)
| CNone
| CStr (s : pystr)
| CBytes (b : pystr)
| CComplex (im : float)
| CEllipsis.

(** The nodes [eval_node] tells apart, and two of the node classes outside
    its cases: [Starred] (an argument [*e] of a call) and [Tuple].  A
    keyword of a call has a name, or none when it is written [**e]. *)
#[warnings="-register-all"]
Inductive expr : Type :=
| Constant (c : constant)
| Name (id : pystr)
| BinOp (left : expr) (op : operator) (right : expr)
| UnaryOp (op : unaryop) (operand : expr)
| Call (f : expr) (args : list expr) (keywords : list (option pystr * expr))
| Starred (value : expr)
| Tuple (elts : list expr).

(** ** The platform

    Library functions whose results no property below depends on: the
    transcendental functions of the C library, the power of [decimal] and
    the floor division, remainder and power of [float] (a power of floats
    can be a [complex]), the arithmetic of [complex], and the operators
    that [str] and [bytes] define ([+], [*] and the formatting [%]). *)
Record platform : Type := {
  libm_sin : float -> float;
  libm_cos : float -> float;
  libm_tan : float -> float;
  libm_log : float -> float;
  libm_log10 : float -> float;
  dec_pow : dec -> dec -> res dec;
  float_floordiv : float -> float -> float;
  float_mod : float -> float -> float;
  float_pow : float -> float -> res value;
  complex_op : operator -> float * float -> float * float -> res value;
  complex_abs : float * float -> res float;
  text_op : operator -> value -> value -> res value
}.

Section Evaluator.

Variable P : platform.

(** [PyFloat_AsDouble]: how the [math] functions read their argument. *)
Definition to_float (v : value) : res float :=
  match v with
  | VFloat x => Ret x
  | VInt n => float_of_int n
  | VDec d => Ret (dec_float d)
  | _ => Raise TypeError
  end.

(** [math.radians] *)
Definition math_radians (v : value) : res float :=
  x <- to_float v ;; Ret (fmul x degToRad).

(** [math.sin], [math.cos], [math.tan], [math.sqrt] on a float. *)
Definition math_sin (x : float) : res float := math_1 (libm_sin P) x.
Definition math_cos (x : float) : res float := math_1 (libm_cos P) x.
Definition math_tan (x : float) : res float := math_1 (libm_tan P) x.
Definition math_sqrt (v : value) : res float :=
  x <- to_float v ;; math_1 fsqrt x.

(** [loghelper] *)
Definition loghelper (log : float -> float) (v : value) : res float :=
  match v with
  | VInt n => log_of_int log n
  | _ => x <- to_float v ;; math_1 (m_log log) x
  end.

Definition ssize_t_max : Z := 2 ^ 63 - 1.

(** [round(number, ndigits)] *)
Definition py_round (v : value) (ndigits : option value) : res value :=
  match ndigits with
  | None | Some VNone =>
      match v with
      | VDec d => n <- dec_round d ;; Ret (VInt n)
      | VFloat x => n <- float_round x ;; Ret (VInt n)
      | VInt n => Ret (VInt n)
      | _ => Raise TypeError
      end
  | Some (VInt k) =>
      match v with
      | VDec d =>
          if (k <? - ssize_t_max - 1) || (ssize_t_max <? k) then Raise OverflowError
          else q <- dec_quantize d (- k) ;; Ret (VDec q)
      | VFloat x => r <- float_round_ndigits x k ;; Ret (VFloat r)
      | VInt n => Ret (VInt (int_round_ndigits n k))
      | _ => Raise TypeError
      end
  | Some _ => Raise TypeError
  end.

(** [abs(x)] *)
Definition py_abs (v : value) : res value :=
  match v with
  | VDec d => r <- dec_abs d ;; Ret (VDec r)
  | VFloat x => Ret (VFloat (SFabs x))
  | VInt n => Ret (VInt (Z.abs n))
  | VComplex re im => r <- complex_abs P (re, im) ;; Ret (VFloat r)
  | _ => Raise TypeError
  end.

(** The call of a function of the whitelist on the evaluated arguments; a
    wrong number of arguments is a TypeError. *)
Definition call_func (f : func) (args : list value) : res value :=
  match f, args with
  | Fsqrt, [v] => r <- math_sqrt v ;; Ret (VFloat r)
  | Fsin, [v] => x <- math_radians v ;; r <- math_sin x ;; Ret (VFloat r)
  | Fcos, [v] => x <- math_radians v ;; r <- math_cos x ;; Ret (VFloat r)
  | Ftan, [v] => x <- math_radians v ;; r <- math_tan x ;; Ret (VFloat r)
  | Flog, [v] => r <- loghelper (libm_log10 P) v ;; Ret (VFloat r)
  | Fln, [v] => r <- loghelper (libm_log P) v ;; Ret (VFloat r)
  | Fln, [v; b] =>
      num <- loghelper (libm_log P) v ;;
      den <- loghelper (libm_log P) b ;;
      if float_is_zero den then Raise ZeroDivisionError
      else Ret (VFloat (fdiv num den))
  | Fabs, [v] => py_abs v
  | Fround, [v] => py_round v None
  | Fround, [v; n] => py_round v (Some n)
  | _, _ => Raise TypeError
  end.

(** Calling the object bound to a whitelisted name: [pi] and [e] are
    floats, which are not callable. *)
Definition call_value (f : value) (args : list value) : res value :=
  match f with
  | VFunc g => call_func g args
  | _ => Raise TypeError
  end.

(** The operators of [ALLOWED_OPERATORS] on two decimals. *)
Definition dec_binop (op : operator) (x y : dec) : res value :=
  r <- match op with
       | Add => dec_add x y
       | Sub => dec_sub x y
       | Mult => dec_mul x y
       | Div => dec_truediv x y
       | FloorDiv => dec_floordiv x y
       | Mod => dec_mod x y
       | Pow => dec_pow P x y
       | _ => Raise TypeError
       end ;;
  Ret (VDec r).

(** ... on two floats. *)
Definition float_binop (op : operator) (x y : float) : res value :=
  match op with
  | Add => Ret (VFloat (fadd x y))
  | Sub => Ret (VFloat (fsub x y))
  | Mult => Ret (VFloat (fmul x y))
  | Div => if float_is_zero y then Raise ZeroDivisionError
           else Ret (VFloat (fdiv x y))
  | FloorDiv => if float_is_zero y then Raise ZeroDivisionError
                else Ret (VFloat (float_floordiv P x y))
  | Mod => if float_is_zero y then Raise ZeroDivisionError
           else Ret (VFloat (float_mod P x y))
  | Pow => float_pow P x y
  | _ => Raise TypeError
  end.

(** ... on two ints. *)
Definition int_binop (op : operator) (a b : Z) : res value :=
  match op with
  | Add => Ret (VInt (a + b))
  | Sub => Ret (VInt (a - b))
  | Mult => Ret (VInt (a * b))
  | Div =>
      if b =? 0 then Raise ZeroDivisionError
      else
        let x := float_of_ratio (xorb (a <? 0) (b <? 0)) (Z.abs a) (Z.abs b) in
        if is_inf x then Raise OverflowError else Ret (VFloat x)
  | FloorDiv => if b =? 0 then Raise ZeroDivisionError else Ret (VInt (a / b))
  | Mod => if b =? 0 then Raise ZeroDivisionError else Ret (VInt (a mod b))
  | Pow =>
      if 0 <=? b then Ret (VInt (a ^ b))
      else x <- float_of_int a ;; y <- float_of_int b ;; float_pow P x y
  | _ => Raise TypeError
  end.

(** [ALLOWED_OPERATORS[op_type](left, right)]: Python's dispatch on the
    operand types.  A [Decimal] takes an [int] operand but not a [float]
    one, and a [float] does not take a [Decimal]: that pair is a
    TypeError.  With a [str] or [bytes] operand only [+], [*] and [%] are
    defined, by the library. *)
Definition binary_op (op : operator) (left right : value) : res value :=
  match left, right with
  | VStr _, _ | VBytes _, _ | _, VStr _ | _, VBytes _ =>
      match op with
      | Add | Mult | Mod => text_op P op left right
      | _ => Raise TypeError
      end
  | VDec x, VDec y => dec_binop op x y
  | VDec x, VInt n => dec_binop op x (dec_of_int n)
  | VInt n, VDec y => dec_binop op (dec_of_int n) y
  | VFloat x, VFloat y => float_binop op x y
  | VFloat x, VInt n => y <- float_of_int n ;; float_binop op x y
  | VInt n, VFloat y => x <- float_of_int n ;; float_binop op x y
  | VInt a, VInt b => int_binop op a b
  | VComplex re im, VComplex re' im' => complex_op P op (re, im) (re', im')
  | VComplex re im, VFloat y => complex_op P op (re, im) (y, S754_zero false)
  | VFloat x, VComplex re im => complex_op P op (x, S754_zero false) (re, im)
  | VComplex re im, VInt n =>
      y <- float_of_int n ;; complex_op P op (re, im) (y, S754_zero false)
  | VInt n, VComplex re im =>
      x <- float_of_int n ;; complex_op P op (x, S754_zero false) (re, im)
  | _, _ => Raise TypeError
  end.

(** [operator.neg] and [operator.pos] *)
Definition unary_op (op : unaryop) (v : value) : res value :=
  match op, v with
  | USub, VDec d => r <- dec_neg d ;; Ret (VDec r)
  | UAdd, VDec d => r <- dec_pos d ;; Ret (VDec r)
  | USub, VFloat x => Ret (VFloat (SFopp x))
  | UAdd, VFloat x => Ret (VFloat x)
  | USub, VInt n => Ret (VInt (- n))
  | UAdd, VInt n => Ret (VInt n)
  | USub, VComplex re im => Ret (VComplex (SFopp re) (SFopp im))
  | UAdd, VComplex re im => Ret (VComplex re im)
  | _, _ => Raise TypeError
  end.

Definition not_allowed (what : string) (name : pystr) : pyexc :=
  ValueError (py what ++ name).

(** [eval_node] *)
Fixpoint eval_node (node : expr) : res value :=
  match node with
  | Constant c =>
      match c with
      | CInt n => d <- dec_of_str (str_int n) ;; Ret (VDec d)
      | CFloat x => d <- dec_of_str (str_float x) ;; Ret (VDec d)
      | CBool b =>
          d <- dec_of_str (py (if b then "True" else "False")) ;; Ret (VDec d)
      | CNone => Ret VNone
      | CStr s => Ret (VStr s)
      | CBytes b => Ret (VBytes b)
      | CComplex im => Ret (VComplex (S754_zero false) im)
      | CEllipsis => Ret VEllipsis
      end
  | Name id =>
      match lookup (show id) ALLOWED_MATH_NAMES with
      | None => Raise (not_allowed "Function not allowed: " id)
      | Some v => Ret v
      end
  | BinOp l op r =>
      left <- eval_node l ;;
      right <- eval_node r ;;
      if negb (allowed_operator op)
      then Raise (not_allowed "Operator not allowed: " (py (operator_name op)))
      else binary_op op left right
  | UnaryOp op e =>
      operand <- eval_node e ;;
      if negb (allowed_unaryop op)
      then Raise (not_allowed "Unary operator not allowed: " (py (unaryop_name op)))
      else unary_op op operand
  | Call f args keywords =>
      match f with
      | Name id =>
          match lookup (show id) ALLOWED_MATH_NAMES with
          | None => Raise (not_allowed "Function not allowed: " id)
          | Some func =>
              args <- (fix eval_args (l : list expr) : res (list value) :=
                         match l with
                         | [] => Ret []
                         | a :: l' =>
                             v <- eval_node a ;;
                             vs <- eval_args l' ;;
                             Ret (v :: vs)
                         end) args ;;
              match keywords with
              | _ :: _ => Raise (ValueError (py "Keyword arguments not permitted"))
              | [] => call_value func args
              end
          end
      | _ => Raise (not_allowed "Function not allowed: " (py "unknown"))
      end
  | Starred _ =>
      Raise (not_allowed "Unsupported expression element: " (py "Starred"))
  | Tuple _ =>
      Raise (not_allowed "Unsupported expression element: " (py "Tuple"))
  end.

(** The "Format result" part of [safe_math_eval]. *)
Definition format_result (result : value) : res value :=
  match result with
  | VDec d =>
      if dec_eqb d (dec_to_integral_value d)
      then n <- dec_int d ;; Ret (VInt n)
      else q <- dec_quantize d (-10) ;; Ret (VFloat (dec_float q))
  | VFloat x => r <- float_round_ndigits x 10 ;; Ret (VFloat r)
  | _ => Ret result
  end.

End Evaluator.

(** ** The parser ([ast.parse(expr, mode='eval')])

    The grammar of Python expressions is modelled on the arithmetic
    fragment: decimal integer and point-float literals, names, the constants
    [True], [False] and [None], the operators [+ - * / // % **], unary [+]
    and [-], parentheses and calls with at most one argument, which can be
    starred (one star before it) or double-starred (two stars).
    The statement keywords, which no expression contains, are tokens that
    the grammar rejects.  A text with anything else (other characters,
    newlines, the keywords of expressions, exponents and other number forms)
    is outside the model: [Unmodelled], about which nothing is stated. *)

Inductive token : Type :=
| TConst (c : constant)
| TIdent (id : pystr)
| TReserved
| TPlus | TMinus | TStar | TSlash | TDoubleSlash | TPercent | TDoubleStar
| TLPar | TRPar.

Inductive lexed : Type :=
| Tokens (ts : list token)
| LexError
| Unmodelled.

Definition is_ident_start (c : ascii) : bool := is_alpha c || Ascii.eqb c "_".
Definition is_ident_char (c : ascii) : bool := is_ident_start c || is_digit c.

Definition reserved_words : list string :=
  [ "as"; "assert"; "break"; "class"; "continue"; "def"; "del"; "elif";
    "except"; "finally"; "global"; "import"; "nonlocal"; "pass"; "raise";
    "return"; "try"; "while"; "with" ]%string.

Definition expression_keywords : list string :=
  [ "and"; "or"; "not"; "if"; "else"; "for"; "in"; "is"; "lambda"; "await";
    "async"; "yield"; "from" ]%string.

Definition mem_string (w : string) (l : list string) : bool :=
  existsb (String.eqb w) l.

(** The longest integer literal that [int] converts from a string
    ([sys.get_int_max_str_digits()]); a longer one is a SyntaxError. *)
Definition int_max_str_digits : nat := 4300.

(** The literal that starts at a digit, or at a point before a digit. *)
Definition lex_number (s : pystr) : option (option constant * pystr) :=
  let followed_by_name (r : pystr) :=
    match r with
    | c :: _ => is_ident_start c || (128 <=? code c)%nat
    | [] => false
    end in
  let '(intpart, r1) := span is_digit s in
  match r1 with
  | "."%char :: r =>
      let '(frac, r2) := span is_digit r in
      if followed_by_name r2 then None
      else Some (Some (CFloat (float_of_decimal false
                                 (Z_of_digits (intpart ++ frac))
                                 (- Z.of_nat (List.length frac)))), r2)
  | _ =>
      if followed_by_name r1 then None
      else
        match intpart with
        | c :: _ :: _ =>
            if Ascii.eqb c "0" then
              if forallb (Ascii.eqb "0"%char) intpart
              then Some (Some (CInt 0), r1)
              else Some (None, r1)        (* leading zeros *)
            else if (int_max_str_digits <? List.length intpart)%nat
            then Some (None, r1)          (* too many digits *)
            else Some (Some (CInt (Z_of_digits intpart)), r1)
        | _ => Some (Some (CInt (Z_of_digits intpart)), r1)
        end
  end.

Definition lex_word (w : pystr) : option token :=
  let word := show w in
  if mem_string word reserved_words then Some TReserved
  else if mem_string word expression_keywords then None
  else if String.eqb word "True" then Some (TConst (CBool true))
  else if String.eqb word "False" then Some (TConst (CBool false))
  else if String.eqb word "None" then Some (TConst CNone)
  else Some (TIdent w).

Fixpoint tokenize (fuel : nat) (s : pystr) : lexed :=
  let cons (t : token) (r : pystr) (f : nat) :=
    match tokenize f r with
    | Tokens ts => Tokens (t :: ts)
    | other => other
    end in
  match fuel with
  | O => Unmodelled
  | S f =>
      match s with
      | [] => Tokens []
      | c :: r =>
          if Ascii.eqb c " " || (code c =? 9)%nat || (code c =? 12)%nat
          then tokenize f r
          else if is_digit c
                  || (Ascii.eqb c "." && match r with
                                         | d :: _ => is_digit d
                                         | [] => false
                                         end)
          then
            match lex_number s with
            | None => Unmodelled
            | Some (None, _) => LexError
            | Some (Some k, r') => cons (TConst k) r' f
            end
          else if is_ident_start c then
            let '(w, r') := span is_ident_char s in
            match lex_word w with
            | None => Unmodelled
            | Some t => cons t r' f
            end
          else
            match c, r with
            | "*"%char, "*"%char :: r' => cons TDoubleStar r' f
            | "/"%char, "/"%char :: r' => cons TDoubleSlash r' f
            | "*"%char, _ => cons TStar r f
            | "/"%char, _ => cons TSlash r f
            | "+"%char, _ => cons TPlus r f
            | "-"%char, _ => cons TMinus r f
            | "%"%char, _ => cons TPercent r f
            | "("%char, _ => cons TLPar r f
            | ")"%char, _ => cons TRPar r f
            | _, _ => Unmodelled
            end
      end
  end.

(** The recursive-descent reading of the grammar of Python, level by level:
    [sum], [term], [factor], [power], [primary] with its call trailers, and
    [atom].  [None] is a syntax error.  Every call spends one unit of
    [fuel]; [parse] provides enough of it. *)
Definition parsed (A : Type) : Type := option (A * list token).

Fixpoint parse_sum (fuel : nat) (ts : list token) : parsed expr :=
  match fuel with
  | O => None
  | S f =>
      match parse_term f ts with
      | Some (l, rest) => sum_loop f l rest
      | None => None
      end
  end

with sum_loop (fuel : nat) (l : expr) (ts : list token) : parsed expr :=
  match fuel with
  | O => None
  | S f =>
      let continue (op : operator) (ts' : list token) :=
        match parse_term f ts' with
        | Some (r, rest) => sum_loop f (BinOp l op r) rest
        | None => None
        end in
      match ts with
      | TPlus :: ts' => continue Add ts'
      | TMinus :: ts' => continue Sub ts'
      | _ => Some (l, ts)
      end
  end

with parse_term (fuel : nat) (ts : list token) : parsed expr :=
  match fuel with
  | O => None
  | S f =>
      match parse_factor f ts with
      | Some (l, rest) => term_loop f l rest
      | None => None
      end
  end

with term_loop (fuel : nat) (l : expr) (ts : list token) : parsed expr :=
  match fuel with
  | O => None
  | S f =>
      let continue (op : operator) (ts' : list token) :=
        match parse_factor f ts' with
        | Some (r, rest) => term_loop f (BinOp l op r) rest
        | None => None
        end in
      match ts with
      | TStar :: ts' => continue Mult ts'
      | TSlash :: ts' => continue Div ts'
      | TDoubleSlash :: ts' => continue FloorDiv ts'
      | TPercent :: ts' => continue Mod ts'
      | _ => Some (l, ts)
      end
  end

with parse_factor (fuel : nat) (ts : list token) : parsed expr :=
  match fuel with
  | O => None
  | S f =>
      let unary (op : unaryop) (ts' : list token) :=
        match parse_factor f ts' with
        | Some (e, rest) => Some (UnaryOp op e, rest)
        | None => None
        end in
      match ts with
      | TPlus :: ts' => unary UAdd ts'
      | TMinus :: ts' => unary USub ts'
      | _ =>
          (* power: primary ['**' factor] *)
          match parse_primary f ts with
          | Some (b, TDoubleStar :: ts') =>
              match parse_factor f ts' with
              | Some (e, rest) => Some (BinOp b Pow e, rest)
              | None => None
              end
          | other => other
          end
      end
  end

with parse_primary (fuel : nat) (ts : list token) : parsed expr :=
  match fuel with
  | O => None
  | S f =>
      match ts with
      | TConst c :: rest => call_loop f (Constant c) rest
      | TIdent id :: rest => call_loop f (Name id) rest
      | TLPar :: TRPar :: rest => call_loop f (Tuple []) rest
      | TLPar :: ts' =>
          match parse_sum f ts' with
          | Some (e, TRPar :: rest) => call_loop f e rest
          | _ => None
          end
      | _ => None
      end
  end

with call_loop (fuel : nat) (a : expr) (ts : list token) : parsed expr :=
  match fuel with
  | O => None
  | S f =>
      match ts with
      | TLPar :: TRPar :: rest => call_loop f (Call a [] []) rest
      | TLPar :: TStar :: ts' =>
          match parse_sum f ts' with
          | Some (e, TRPar :: rest) => call_loop f (Call a [Starred e] []) rest
          | _ => None
          end
      | TLPar :: TDoubleStar :: ts' =>
          match parse_sum f ts' with
          | Some (e, TRPar :: rest) => call_loop f (Call a [] [(None, e)]) rest
          | _ => None
          end
      | TLPar :: ts' =>
          match parse_sum f ts' with
          | Some (e, TRPar :: rest) => call_loop f (Call a [e] []) rest
          | _ => None
          end
      | _ => Some (a, ts)
      end
  end.

Inductive parse_result : Type :=
| Parsed (body : expr)
| ParseError            (* SyntaxError *)
| OutsideModel.

(** Whether the first token is indented: blanks and tabs advance the
    column and a form feed resets it.  In the mode [eval] an indented
    expression is an IndentationError, which is a SyntaxError. *)
Fixpoint indented (col : bool) (s : pystr) : bool :=
  match s with
  | c :: r =>
      if Ascii.eqb c " " || (code c =? 9)%nat then indented true r
      else if (code c =? 12)%nat then indented false r
      else col
  | [] => col
  end.

Definition parse (s : pystr) : parse_result :=
  match tokenize (S (List.length s)) s with
  | Unmodelled => OutsideModel
  | LexError => ParseError
  | Tokens ts =>
      if indented false s then ParseError
      else
        match parse_sum (8 * List.length ts + 8) ts with
        | Some (e, []) => Parsed e
        | _ => ParseError
        end
  end.

(** ** [safe_math_eval] and [calculate_api] *)

(** [safe_math_eval(expr)]: [Some (Ret v)] is the pair [(v, None)] and
    [Some (Raise e)] the pair [(None, text of e)] that its handlers return;
    [None] is an input outside the modelled grammar. *)
Definition safe_math_eval (P : platform) (expr : string) : option (res value) :=
  match parse (normalize (py expr)) with
  | OutsideModel => None
  | ParseError => Some (Raise SyntaxError)
  | Parsed body =>
      Some (result <- eval_node P body ;; format_result result)
  end.

(** The request as [calculate_api] reads it: the method and the field
    [expression] of the form, if present.  The CSRF check of the decorator
    belongs to the framework. *)
Record request : Type := {
  method : string;
  POST_expression : option string
}.

(** A [JsonResponse]: [{'error': msg}] with a status, or [{'result': v}].
    For a failed evaluation the message is the text of the exception, which
    is not empty for the exceptions of [pyexc].  [ServerError] is the
    answer of the framework (status 500) when the view raises. *)
Inductive response : Type :=
| ErrorResponse (msg : string) (status : Z)
| EvalErrorResponse (e : pyexc) (status : Z)
| ResultResponse (result : value)
| ServerError.

(** Whether [json.dumps], which [JsonResponse] calls, writes the result:
    it raises TypeError on a function, a complex number, bytes and [...],
    and ValueError on an int of more than 4300 digits. *)
Definition json_serialisable (v : value) : bool :=
  match v with
  | VInt n => Z.abs n <? 10 ^ Z.of_nat int_max_str_digits
  | VDec _ | VFloat _ | VNone | VStr _ => true
  | VFunc _ | VComplex _ _ | VBytes _ | VEllipsis => false
  end.

(** The character class of the filter of [calculate_api]. *)
Definition accepted_char (c : ascii) : bool :=
  is_digit c || mem_char c "+-*/().%^" || is_space c
  || Ascii.eqb c times_sign || Ascii.eqb c division_sign || is_alpha c.

(** [calculate_api(request)]; [None] when the evaluation of the expression
    is outside the modelled grammar. *)
Definition calculate_api (P : platform) (req : request) : option response :=
  if negb (String.eqb (method req) "POST")
  then Some (ErrorResponse "Method not allowed" 405)
  else
    let expr := strip (py (match POST_expression req with
                           | Some e => e
                           | None => ""%string
                           end)) in
    match expr with
    | [] => Some (ErrorResponse "Empty expression" 400)
    | _ :: _ =>
        if (200 <? List.length expr)%nat
        then Some (ErrorResponse "Expression too long (max 200 chars)" 400)
        else if negb (forallb accepted_char expr)
        then Some (ErrorResponse "Invalid characters detected" 400)
        else
          match safe_math_eval P (show expr) with
          | None => None
          | Some (Raise e) => Some (EvalErrorResponse e 400)
          | Some (Ret result) =>
              if json_serialisable result then Some (ResultResponse result)
              else Some ServerError
          end
    end.

(** A platform given by a few reference points of the transcendental
    functions (their correctly rounded values) and undefined results
    elsewhere; it serves to instantiate the statements below. *)
Definition float_of_Z (n : Z) : float := float_of_ratio (n <? 0) (Z.abs n) 1.

Definition quarter_turn : float := fmul (float_of_Z 90) degToRad.

Definition table (points : list (float * float)) (x : float) : float :=
  match find (fun p => float_eqb (fst p) x) points with
  | Some p => snd p
  | None => S754_nan
  end.

Definition reference_platform : platform := {|
  libm_sin := table [(S754_zero false, S754_zero false);
                     (quarter_turn, float_of_Z 1)];
  libm_cos := table [(S754_zero false, float_of_Z 1)];
  libm_tan := table [(S754_zero false, S754_zero false)];
  libm_log := table [(float_of_Z 1, S754_zero false)];
  libm_log10 := table [(float_of_Z 1, S754_zero false);
                       (float_of_Z 10, float_of_Z 1);
                       (float_of_Z 100, float_of_Z 2)];
  dec_pow := fun _ _ => Raise Dec_InvalidOperation;
  float_floordiv := fun _ _ => S754_nan;
  float_mod := fun _ _ => S754_nan;
  float_pow := fun _ _ => Raise OverflowError;
  complex_op := fun _ _ _ => Raise OverflowError;
  complex_abs := fun _ => Raise OverflowError;
  text_op := fun _ _ _ => Raise TypeError
|}.

(** The names of the whitelist, as the specification lists them. *)
Definition whitelist : list string :=
  [ "pi"; "e"; "sqrt"; "sin"; "cos"; "tan"; "log"; "ln"; "abs"; "round" ]%string.

(** A percent sign that the rewrite leaves in place is one that does not
    directly follow a numeric literal.  [lit_state] is what the characters
    read so far end with: digits, digits and a point, or neither. *)
Inductive lit_state : Type := Digits | DigitsPoint | NoLiteral.

Definition lit_step (st : lit_state) (c : ascii) : lit_state :=
  if is_digit c then Digits
  else if Ascii.eqb c "."%char then
    match st with
    | Digits => DigitsPoint
    | _ => NoLiteral
    end
  else NoLiteral.

Fixpoint stray_percent (st : lit_state) (s : pystr) : bool :=
  match s with
  | [] => false
  | c :: s' =>
      (Ascii.eqb c "%"%char
       && match st with NoLiteral => true | _ => false end)
      || stray_percent (lit_step st c) s'
  end.

Definition has_percent (s : pystr) : bool := existsb (Ascii.eqb "%"%char) s.

(** The state after the reversed text [rev_before]. *)
Definition lit_state_of (rev_before : pystr) : lit_state :=
  match rev_before with
  | d :: r =>
      if is_digit d then Digits
      else if Ascii.eqb d "."%char then
        match r with
        | d' :: _ => if is_digit d' then DigitsPoint else NoLiteral
        | [] => NoLiteral
        end
      else NoLiteral
  | [] => NoLiteral
  end.

(** No match starts in the literal characters just before the position of
    the scan: the matches of [re.sub] are the leftmost ones. *)
Definition no_match_pending (rb s : pystr) : Prop :=
  forall u rb0, rb = rev u ++ rb0 -> u <> [] ->
                forallb is_numchar u = true -> match_percent (u ++ s) = None.

(** A POST request with the given expression. *)
Definition post (e : string) : request :=
  {| method := "POST"%string; POST_expression := Some e |}.

(** A character that is no part of a literal and no percent sign. *)
Definition plain (c : ascii) : bool :=
  negb (is_digit c) && negb (Ascii.eqb c "."%char) && negb (Ascii.eqb c "%"%char).

(** The three operators that divide. *)
Definition is_division (op : operator) : bool :=
  match op with
  | Div | FloorDiv | Mod => true
  | _ => false
  end.

(** [safe_math_eval] on a tree: evaluation, then formatting. *)
Definition eval_and_format (P : platform) (body : expr) : res value :=
  result <- eval_node P body ;; format_result result.

(** Whether the finite decimal [c * 10^e] is an integer, and that integer
    with the sign [s]. *)
Definition dec_is_integral (c e : Z) : bool :=
  (0 <=? e) || (c mod 10 ^ (- e) =? 0).

Definition dec_integer_value (s : bool) (c e : Z) : Z :=
  let a := if 0 <=? e then c * 10 ^ e else c / 10 ^ (- e) in
  if s then - a else a.



(** The digits of a decimal number of the Standard Library, as [str_int]
    prints them, and the step of [Z_of_digits]. *)
Definition digits_of (d : Decimal.uint) : pystr :=
  py (NilEmpty.string_of_uint d).

Definition digit_step (acc : Z) (c : ascii) : Z := 10 * acc + digit_val c.

(** The three floats within one unit in the last place of 1. *)
Definition near_one (x : float) : bool :=
  float_eqb x (S754_finite false 9007199254740991 (-53))
  || float_eqb x (float_of_Z 1)
  || float_eqb x (S754_finite false 4503599627370497 (-52)).

(** The three characters that [safe_math_eval] replaces before parsing. *)
Definition is_alias (c : ascii) : bool :=
  Ascii.eqb c "^" || Ascii.eqb c times_sign || Ascii.eqb c division_sign.

(** The [re.sub] of [safe_math_eval] when every percentage is replaced by
    its stand-alone form: the text of [replace_percent]'s first branch. *)
Definition standalone (num : pystr) : pystr := py "(" ++ num ++ py "/100)".

Fixpoint sub_standalone (skip : nat) (s : pystr) : pystr :=
  match s with
  | [] => []
  | c :: s' =>
      match skip with
      | S k => sub_standalone k s'
      | O =>
          match match_percent s with
          | Some num => standalone num ++ sub_standalone (List.length num) s'
          | None => c :: sub_standalone 0 s'
          end
      end
  end.

(** A character that is neither a decimal point nor a newline. *)
Definition no_point (c : ascii) : bool :=
  negb (Ascii.eqb c ".") && negb (Ascii.eqb c (ascii_of_nat 10)).

(** The mathematical result of [+], [-] and [*] on integers. *)
Definition exact_op (op : operator) (a b : Z) : Z :=
  match op with
  | Add => a + b
  | Sub => a - b
  | Mult => a * b
  | _ => 0
  end.

(** The list comprehension of [eval_node] on the arguments of a call. *)
Fixpoint eval_list (P : platform) (l : list expr) : res (list value) :=
  match l with
  | [] => Ret []
  | a :: l' =>
      v <- eval_node P a ;;
      vs <- eval_list P l' ;;
      Ret (v :: vs)
  end.

(** A tree built only from what [eval_node] accepts: constants, names of
    the whitelist, the operators of [ALLOWED_OPERATORS], and calls of a
    whitelisted name without keywords. *)
Fixpoint permitted (e : expr) : bool :=
  match e with
  | Constant _ => true
  | Name id => mem_string (show id) whitelist
  | BinOp l op r => permitted l && allowed_operator op && permitted r
  | UnaryOp op e' => allowed_unaryop op && permitted e'
  | Call (Name id) args [] =>
      mem_string (show id) whitelist && forallb permitted args
  | Call _ _ _ => false
  | Starred _ => false
  | Tuple _ => false
  end.

(** Induction on a tree, with the arguments of a call and the elements of
    a tuple as lists of trees. *)
Section ExprInduction.

Variable Pr : expr -> Prop.
Hypothesis HConstant : forall c, Pr (Constant c).
Hypothesis HName : forall id, Pr (Name id).
Hypothesis HBinOp : forall l op r, Pr l -> Pr r -> Pr (BinOp l op r).
Hypothesis HUnaryOp : forall op e, Pr e -> Pr (UnaryOp op e).
Hypothesis HCall : forall f args keywords,
    Pr f -> Forall Pr args -> Pr (Call f args keywords).
Hypothesis HStarred : forall e, Pr e -> Pr (Starred e).
Hypothesis HTuple : forall elts, Forall Pr elts -> Pr (Tuple elts).

Fixpoint expr_induction (e : expr) : Pr e :=
  match e with
  | Constant c => HConstant c
  | Name id => HName id
  | BinOp l op r => HBinOp l op r (expr_induction l) (expr_induction r)
  | UnaryOp op e' => HUnaryOp op e' (expr_induction e')
  | Call f args keywords =>
      HCall f args keywords (expr_induction f)
        ((fix all (l : list expr) : Forall Pr l :=
            match l with
            | [] => Forall_nil Pr
            | a :: l' => Forall_cons a (expr_induction a) (all l')
            end) args)
  | Starred e' => HStarred e' (expr_induction e')
  | Tuple elts =>
      HTuple elts
        ((fix all (l : list expr) : Forall Pr l :=
            match l with
            | [] => Forall_nil Pr
            | a :: l' => Forall_cons a (expr_induction a) (all l')
            end) elts)
  end.

End ExprInduction.

(** ** The script of the page ([get_calculator_html])

    The functions of the script that edit the expression, on the two
    variables they share: [currentExpr] and the text of the display.  A
    JavaScript string is modelled as a [pystr]: the keys of the page are
    ASCII. *)

Module Client.

Record state : Type := {
  currentExpr : pystr;
  display : pystr
}.

(** [let currentExpr = '0'], and the display as the page is served. *)
Definition initial : state := {| currentExpr := py "0"; display := py "0" |}.

(** [updateDisplay(val)] *)
Definition updateDisplay (val : pystr) : state :=
  {| currentExpr := val;
     display := match val with [] => py "0" | _ :: _ => val end |}.

(** [array.includes(s)] on an array of strings. *)
Definition includes (l : list string) (s : pystr) : bool :=
  mem_string (show s) l.

(** [s.slice(-1)] and [s.slice(0, -1)] *)
Definition slice_last (s : pystr) : pystr :=
  match rev s with
  | [] => []
  | c :: _ => [c]
  end.

Definition slice_init (s : pystr) : pystr := removelast s.

(** [append(value)] *)
Definition append (st : state) (value : pystr) : state :=
  let cur :=
    if String.eqb (show (currentExpr st)) "0" && negb (String.eqb (show value) ".")
    then [] else currentExpr st in
  let lastChar := slice_last cur in
  let cur :=
    if includes ["+"; "-"; "*"; "/"; "%"; "("]%string value
       && includes ["+"; "-"; "*"; "/"; "("]%string lastChar
    then slice_init cur else cur in
  updateDisplay (cur ++ value).

(** [clearAll()] *)
Definition clearAll (st : state) : state := updateDisplay (py "0").

(** [backspace()] *)
Definition backspace (st : state) : state :=
  if (1 <? List.length (currentExpr st))%nat
  then updateDisplay (slice_init (currentExpr st))
  else clearAll st.

(** The values that the buttons of the page pass to [append]. *)
Definition button_values : list pystr :=
  map py ["sqrt("; "sin("; "cos("; "tan("; "log("; "ln("; "("; ")"; "/";
          "7"; "8"; "9"; "*"; "4"; "5"; "6"; "-"; "pi";
          "1"; "2"; "3"; "+"; "e"; "0"; "."; "%"]%string.

(** The success branch of [calculate()] on the history: the entry is
    pushed, and the oldest one dropped when there are more than 20. *)
Definition push_history (calculationHistory : list pystr) (historyEntry : pystr)
  : list pystr :=
  let h := calculationHistory ++ [historyEntry] in
  if (20 <? List.length h)%nat then tl h else h.

(** [s.split(re).filter(Boolean)] for the pattern of [toggleSign], one
    of [+ - * / ( )] in a capture group: the separators, each as a part of
    its own, and the non-empty texts between them; [acc] is the text read
    since the last separator. *)
Definition is_separator (c : ascii) : bool := mem_char c "+-*/()".

Definition flush (acc : pystr) : list pystr :=
  match acc with
  | [] => []
  | _ :: _ => [acc]
  end.

Fixpoint split_parts (acc : pystr) (s : pystr) : list pystr :=
  match s with
  | [] => flush acc
  | c :: s' =>
      if is_separator c then flush acc ++ [c] :: split_parts [] s'
      else split_parts (acc ++ [c]) s'
  end.

(** The test of the numeric pattern of [toggleSign] on a whole part:
    digits, an optional point, digits. *)
Definition is_number (s : pystr) : bool :=
  let (ds, r) := span is_digit s in
  match ds with
  | [] => false
  | _ :: _ =>
      match r with
      | [] => true
      | c :: r' => Ascii.eqb c "." && forallb is_digit r'
      end
  end.

(** [s.replace(c, empty)] with a string pattern: the first occurrence. *)
Fixpoint remove_first (c : ascii) (s : pystr) : pystr :=
  match s with
  | [] => []
  | a :: s' => if Ascii.eqb a c then s' else a :: remove_first c s'
  end.

(** [s.startsWith('-') ? s.substring(1) : '-' + s] *)
Definition flip_sign (s : pystr) : pystr :=
  match s with
  | c :: s' => if Ascii.eqb c "-" then s' else "-"%char :: s
  | [] => ["-"%char]
  end.

(** The loop of [toggleSign] from the last part down, on the parts in
    reverse order: the first numeric part has its sign flipped. *)
Fixpoint toggle_last (rparts : list pystr) : option (list pystr) :=
  match rparts with
  | [] => None
  | p :: r =>
      if is_number (remove_first "-" p) then Some (flip_sign p :: r)
      else match toggle_last r with
           | Some r' => Some (p :: r')
           | None => None
           end
  end.

(** [s.replace(re, new)] for a global pattern of two given characters. *)
Fixpoint replace_pair (a b : ascii) (new : pystr) (s : pystr) : pystr :=
  match s with
  | [] => []
  | c :: t =>
      match t with
      | d :: t' =>
          if Ascii.eqb c a && Ascii.eqb d b then new ++ replace_pair a b new t'
          else c :: replace_pair a b new t
      | [] => [c]
      end
  end.

Definition clean_up (s : pystr) : pystr :=
  replace_pair "-" "-" (py "+")
    (replace_pair "+" "-" (py "-")
       (replace_pair "-" "-" (py "+") s)).

(** [toggleSign()]; [numeric] is the test of its last branch,
    [!isNaN(parseFloat(s)) && isFinite(s)]. *)
Definition toggleSign (numeric : pystr -> bool) (st : state) : state :=
  match split_parts [] (currentExpr st) with
  | [] => st
  | parts =>
      match toggle_last (rev parts) with
      | Some r => updateDisplay (clean_up (List.concat (rev r)))
      | None =>
          if numeric (currentExpr st)
          then updateDisplay (flip_sign (currentExpr st))
          else st
      end
  end.

(** What sets the expression on the page: the buttons and keys that call
    [append], [clearAll], [backspace] and [toggleSign], [memRecall()] with
    a memory that is not zero ([text] is the memory as a string), and the
    success branch of [calculate()] ([text] is the result of the server as
    a string). *)
Inductive action : Type :=
| Append (value : pystr)
| ClearAll
| Backspace
| ToggleSign
| MemRecall (text : pystr)
| ShowResult (text : pystr).

Definition perform (numeric : pystr -> bool) (st : state) (a : action)
  : state :=
  match a with
  | Append value => append st value
  | ClearAll => clearAll st
  | Backspace => backspace st
  | ToggleSign => toggleSign numeric st
  | MemRecall text => updateDisplay text
  | ShowResult text => updateDisplay text
  end.

(** The comparison [a <= b] of two strings: by code units, a proper
    prefix being smaller. *)
Fixpoint str_leb (a b : pystr) : bool :=
  match a, b with
  | [], _ => true
  | _ :: _, [] => false
  | x :: a', y :: b' =>
      if (code x <? code y)%nat then true
      else if (code y <? code x)%nat then false
      else str_leb a' b'
  end.

(** What the listener of [keydown] calls for a key. *)
Inductive key_effect : Type :=
| Edit (a : action)
| Calculate
| MemAdd
| NoEffect.

Definition key_is (key : pystr) (name : string) : bool :=
  String.eqb (show key) name.

Definition keydown (key : pystr) : key_effect :=
  if str_leb (py "0") key && str_leb key (py "9") then Edit (Append key)
  else if key_is key "." then Edit (Append (py "."))
  else if includes ["+"; "-"; "*"; "/"]%string key then Edit (Append key)
  else if key_is key "Enter" || key_is key "=" then Calculate
  else if key_is key "Backspace" then Edit Backspace
  else if key_is key "Escape" then Edit ClearAll
  else if key_is key "%" then Edit (Append (py "%"))
  else if key_is key "(" || key_is key ")" then Edit (Append key)
  else if key_is key "m" || key_is key "M" then MemAdd
  else NoEffect.

End Client.

(** An operator after which [append] replaces, and an operator that
    replaces it. *)
Definition replaced_by_append (c : ascii) : bool :=
  Client.includes ["+"; "-"; "*"; "/"; "("]%string [c].

Definition replaces_in_append (c : ascii) : bool :=
  Client.includes ["+"; "-"; "*"; "/"; "%"; "("]%string [c].

(** No operator of [+ - * / (] is directly followed by one of
    [+ - * / % (]. *)
Fixpoint no_double_operator (s : pystr) : bool :=
  match s with
  | [] => true
  | a :: t =>
      match t with
      | [] => true
      | b :: _ => negb (replaced_by_append a && replaces_in_append b)
      end && no_double_operator t
  end.

(** The actions of the buttons of the page that edit the expression. *)
Definition from_buttons (a : Client.action) : Prop :=
  match a with
  | Client.Append value => In value Client.button_values
  | _ => True
  end.

(** Typing: the buttons that call [append], AC and backspace. *)
Definition typing (a : Client.action) : Prop :=
  match a with
  | Client.Append value => In value Client.button_values
  | Client.ClearAll | Client.Backspace => True
  | _ => False
  end.

(** A value that [append] may add without bringing two operators
    together: a single operator, or a text that begins with none and has
    no two of them in a row. *)
Definition key_ok (value : pystr) : bool :=
  match value with
  | [] => false
  | c :: r =>
      no_double_operator value
      && (negb (replaces_in_append c) || match r with [] => true | _ => false end)
  end.

(** The last character of [s] and the first of [t] are not two operators
    that [append] would not leave together. *)
Definition joint_ok (s t : pystr) : bool :=
  match rev s, t with
  | a :: _, b :: _ => negb (replaced_by_append a && replaces_in_append b)
  | _, _ => true
  end.

(** Whether [a] directly followed by [b] occurs in [s], and whether [s]
    ends with [a]. *)
Fixpoint has_pair (a b : ascii) (s : pystr) : bool :=
  match s with
  | [] => false
  | c :: t =>
      match t with
      | d :: _ => Ascii.eqb c a && Ascii.eqb d b
      | [] => false
      end || has_pair a b t
  end.

Fixpoint ends_with (a : ascii) (s : pystr) : bool :=
  match s with
  | [] => false
  | c :: t =>
      match t with
      | [] => Ascii.eqb c a
      | _ :: _ => ends_with a t
      end
  end.

(** The loop of [__truediv__] on an exact quotient: trailing zeros of the
    coefficient are removed while the exponent is below the ideal one. *)
Definition trim_zeros (ideal_exp : Z) : nat -> Z -> Z -> Z * Z :=
  fix reduce (fuel : nat) (coeff exp : Z) : Z * Z :=
    match fuel with
    | O => (coeff, exp)
    | S f => if (exp <? ideal_exp) && (coeff mod 10 =? 0)
             then reduce f (coeff / 10) (exp + 1) else (coeff, exp)
    end.

(** A character of the filter of [calculate_api] that is no white space. *)
Definition typed_char (c : ascii) : bool := accepted_char c && negb (is_space c).

(** What [calculate_api] answers once its checks are passed: the error of
    [safe_math_eval], its result, or a server error when the result cannot
    be written as JSON. *)
Definition evaluated (P : platform) (expr : pystr) : option response :=
  match safe_math_eval P (show expr) with
  | None => None
  | Some (Raise e) => Some (EvalErrorResponse e 400)
  | Some (Ret result) =>
      if json_serialisable result then Some (ResultResponse result)
      else Some ServerError
  end.

(** The error of the decimal module for a zero divisor, by the operator
    and whether the dividend is zero too. *)
Definition zero_divisor_error (op : operator) (zero : bool) : pyexc :=
  if zero then Dec_InvalidOperation
  else match op with
       | Mod => Dec_InvalidOperation
       | _ => Dec_DivisionByZero
       end.

(** A decimal or an int; a str or bytes. *)
Definition is_number (v : value) : bool :=
  match v with
  | VDec _ | VInt _ => true
  | _ => false
  end.

Definition is_text (v : value) : bool :=
  match v with
  | VStr _ | VBytes _ => true
  | _ => false
  end.


(** * Properties *)

Local Open Scope string_scope.

(** ** Worked inputs *)

Example normalize_plus_percent :
  show (normalize (py "100+10%")) = "100+(10/100)".
Proof. reflexivity. Qed.

Example normalize_blank_percent : show (normalize (py " 10% ")) = "(10/100)".
Proof. reflexivity. Qed.

Example normalize_after_point :
  show (normalize (py "1.2.3%")) = "1.+(1.*2.3/100)".
Proof. reflexivity. Qed.

Example normalize_modulo : show (normalize (py "10 % 3^2")) = "10 % 3**2".
Proof. reflexivity. Qed.

Example parse_precedence :
  parse (py "-2**2+1*3") =
  Parsed (BinOp (UnaryOp USub (BinOp (Constant (CInt 2)) Pow (Constant (CInt 2))))
                Add (BinOp (Constant (CInt 1)) Mult (Constant (CInt 3)))).
Proof. reflexivity. Qed.

Example str_float_tenth : show (str_float (float_of_decimal false 1 (-1))) = "0.1".
Proof. vm_compute. reflexivity. Qed.

Example str_float_large : show (str_float (float_of_decimal false 1 16)) = "1e+16".
Proof. vm_compute. reflexivity. Qed.

Example third : dec_truediv (DFin false 1 0) (DFin false 3 0)
                = Ret (DFin false 3333333333333333333333333333 (-28)).
Proof. vm_compute. reflexivity. Qed.

(** ** C1: percentages *)

(** C1 (the code departs from the claim).  "10%" is rewritten to "(10/100)"
    and evaluates to 0.1.  In "100+10%" the text before the percentage ends
    with the operator "+", so [replace_percent] takes its stand-alone branch:
    the text becomes "100+(10/100)" and the result is 100.1, not the 110
    that the claim and the comments of the source announce. *)
Theorem C1_percent_after_plus_is_standalone (P : platform) :
  show (normalize (py "10%")) = "(10/100)"
  /\ safe_math_eval P "10%" = Some (Ret (VFloat (float_of_decimal false 1 (-1))))
  /\ show (normalize (py "100+10%")) = "100+(10/100)"
  /\ safe_math_eval P "100+10%"
     = Some (Ret (VFloat (float_of_decimal false 1001 (-1))))
  /\ safe_math_eval P "100+10%" <> Some (Ret (VInt 110)).
Proof.
  repeat split; try (vm_compute; reflexivity).
  vm_compute. discriminate.
Qed.

(** ** C9: decimals do not mix with floats *)

(** C9.  A binary operation between a decimal and a float, in either order
    and for every operator, raises a TypeError; literals are decimals while
    the constants and the results of the functions are floats, so "2*pi"
    and "sqrt(2)+1" return an error and no number. *)
Theorem C9_decimal_float_mix_fails (P : platform) :
  (forall op d x, binary_op P op (VDec d) (VFloat x) = Raise TypeError)
  /\ (forall op d x, binary_op P op (VFloat x) (VDec d) = Raise TypeError)
  /\ eval_node P (Constant (CInt 2)) = Ret (VDec (DFin false 2 0))
  /\ eval_node P (Name (py "pi")) = Ret (VFloat math_pi)
  /\ eval_node P (Call (Name (py "sqrt")) [Constant (CInt 2)] [])
     = Ret (VFloat (float_of_decimal false 14142135623730951 (-16)))
  /\ safe_math_eval P "2*pi" = Some (Raise TypeError)
  /\ safe_math_eval P "sqrt(2)+1" = Some (Raise TypeError).
Proof.
  repeat split; try reflexivity; vm_compute; reflexivity.
Qed.

(** ** C10: a bare function name *)

(** C10.  A whitelisted function name that is not called evaluates without
    error to the function object itself, which [safe_math_eval] returns as
    its result: not a number and not a failure. *)
Theorem C10_bare_function_name (P : platform) :
  safe_math_eval P "sqrt" = Some (Ret (VFunc Fsqrt))
  /\ safe_math_eval P "sin" = Some (Ret (VFunc Fsin))
  /\ safe_math_eval P "cos" = Some (Ret (VFunc Fcos))
  /\ safe_math_eval P "tan" = Some (Ret (VFunc Ftan))
  /\ safe_math_eval P "log" = Some (Ret (VFunc Flog))
  /\ safe_math_eval P "ln" = Some (Ret (VFunc Fln))
  /\ safe_math_eval P "abs" = Some (Ret (VFunc Fabs))
  /\ safe_math_eval P "round" = Some (Ret (VFunc Fround))
  /\ (forall f, format_result (VFunc f) = Ret (VFunc f)).
Proof.
  repeat split; vm_compute; reflexivity.
Qed.

(** ** C3: names outside the whitelist *)

Lemma eval_BinOp (P : platform) (l r : expr) (op : operator) :
  eval_node P (BinOp l op r)
  = (left <- eval_node P l ;;
     right <- eval_node P r ;;
     if negb (allowed_operator op)
     then Raise (not_allowed "Operator not allowed: " (py (operator_name op)))
     else binary_op P op left right).
Proof. reflexivity. Qed.



Lemma eval_Call (P : platform) (id : pystr) (args : list expr)
    (keywords : list (option pystr * expr)) :
  eval_node P (Call (Name id) args keywords)
  = match lookup (show id) ALLOWED_MATH_NAMES with
    | None => Raise (not_allowed "Function not allowed: " id)
    | Some func =>
        vs <- eval_list P args ;;
        match keywords with
        | _ :: _ => Raise (ValueError (py "Keyword arguments not permitted"))
        | [] => call_value P func vs
        end
    end.
Proof.
  cbn [eval_node]. destruct (lookup (show id) ALLOWED_MATH_NAMES); [| reflexivity].
  f_equal. induction args as [| a args IH]; [reflexivity |].
  cbn [eval_list]. now rewrite <- IH.
Qed.





(** ** C8: trigonometry in degrees *)

Lemma float_eqb_eq (x y : float) : float_eqb x y = true -> x = y.
Proof.
  destruct x as [a | a | | a m e], y as [b | b | | b m' e']; cbn [float_eqb];
    try discriminate; try reflexivity.
  - intro H. apply Bool.eqb_prop in H. now subst.
  - intro H. apply Bool.eqb_prop in H. now subst.
  - intro H. apply andb_prop in H as [H He]. apply andb_prop in H as [Hs Hm].
    apply Bool.eqb_prop in Hs. apply Pos.eqb_eq in Hm. apply Z.eqb_eq in He.
    now subst.
Qed.

(** C8.  [sin], [cos] and [tan] convert their argument to a float, multiply
    it by pi/180 and apply the sine, cosine or tangent of the C library to
    the product.  For "sin(90)" the library is applied to the float nearest
    to pi/2, 1.5707963267948966, and not to 90; when its sine there is
    within one unit in the last place of 1 (the correctly rounded value is
    1), the result is 1. *)
Theorem C8_trigonometry_in_degrees (P : platform) :
  near_one (libm_sin P quarter_turn) = true ->
  (forall v x, to_float v = Ret x ->
     call_func P Fsin [v]
       = (r <- math_1 (libm_sin P) (fmul x degToRad) ;; Ret (VFloat r))
     /\ call_func P Fcos [v]
       = (r <- math_1 (libm_cos P) (fmul x degToRad) ;; Ret (VFloat r))
     /\ call_func P Ftan [v]
       = (r <- math_1 (libm_tan P) (fmul x degToRad) ;; Ret (VFloat r)))
  /\ show (str_float quarter_turn) = "1.5707963267948966"
  /\ quarter_turn <> float_of_Z 90
  /\ eval_node P (Call (Name (py "sin")) [Constant (CInt 90)] [])
     = (r <- math_1 (libm_sin P) quarter_turn ;; Ret (VFloat r))
  /\ safe_math_eval P "sin(90)" = Some (Ret (VFloat (float_of_Z 1))).
Proof.
  intro Hsin.
  assert (Heval : eval_node P (Call (Name (py "sin")) [Constant (CInt 90)] [])
                  = (r <- math_1 (libm_sin P) quarter_turn ;; Ret (VFloat r))).
  { change (eval_node P (Call (Name (py "sin")) [Constant (CInt 90)] []))
      with (x <- math_radians (VDec (DFin false 90 0)) ;;
            r <- math_sin P x ;; Ret (VFloat r)).
    replace (math_radians (VDec (DFin false 90 0))) with (Ret quarter_turn)
      by (vm_compute; reflexivity).
    reflexivity. }
  split; [| split; [| split; [| split]]].
  - intros v x Hv. unfold call_func, math_radians, math_sin, math_cos, math_tan.
    rewrite Hv. repeat split; reflexivity.
  - vm_compute. reflexivity.
  - vm_compute. discriminate.
  - exact Heval.
  - unfold safe_math_eval.
    replace (parse (normalize (py "sin(90)")))
      with (Parsed (Call (Name (py "sin")) [Constant (CInt 90)] []))
      by (vm_compute; reflexivity).
    rewrite Heval. unfold math_1, near_one in *.
    apply orb_prop in Hsin as [Hsin | Hsin];
      [apply orb_prop in Hsin as [Hsin | Hsin] |];
      apply float_eqb_eq in Hsin; rewrite Hsin; vm_compute; reflexivity.
Qed.

Lemma C8_trigonometry_witness :
  show (str_float quarter_turn) = "1.5707963267948966"
  /\ safe_math_eval reference_platform "sin(90)"
     = Some (Ret (VFloat (float_of_Z 1))).
Proof.
  pose proof (C8_trigonometry_in_degrees reference_platform)
    as (_ & Hq & _ & _ & Hsin).
  - vm_compute. reflexivity.
  - split; assumption.
Defined.

(** ** C5: the length bound *)

(** C5, as stated, fails: the length is taken after the surrounding white
    space is stripped.  The raw input "1" followed by 200 blanks has 201
    characters and is evaluated to 1. *)
Lemma C5_long_raw_input_accepted :
  String.length ("1" ++ string_of_list_ascii (repeat " "%char 200)) = 201%nat
  /\ (fun P => calculate_api P
                 (post ("1" ++ string_of_list_ascii (repeat " "%char 200))))
     = (fun _ => Some (ResultResponse (VInt 1))).
Proof.
  split; vm_compute; reflexivity.
Qed.

(** C5, amended.  Every request whose expression, once stripped of its
    surrounding white space, is longer than 200 characters is answered with
    an error that does not depend on its content, and no evaluation takes
    place: "Expression too long (max 200 chars)" for a POST request, "Method
    not allowed" otherwise. *)
Theorem C5_length_bound_after_strip (P : platform) (req : request) :
  (200 < List.length (strip (py (match POST_expression req with
                                 | Some e => e
                                 | None => ""
                                 end))))%nat ->
  calculate_api P req
  = Some (if String.eqb (method req) "POST"
          then ErrorResponse "Expression too long (max 200 chars)" 400
          else ErrorResponse "Method not allowed" 405).
Proof.
  intro Hlen. unfold calculate_api.
  destruct (String.eqb (method req) "POST"); [| reflexivity].
  cbn [negb].
  destruct (strip _) as [| c expr] eqn:E.
  - simpl in Hlen. lia.
  - apply Nat.ltb_lt in Hlen. now rewrite Hlen.
Qed.

Lemma C5_length_bound_witness :
  calculate_api reference_platform
    (post (string_of_list_ascii (repeat "1"%char 201)))
  = Some (ErrorResponse "Expression too long (max 200 chars)" 400).
Proof.
  apply (C5_length_bound_after_strip reference_platform
           (post (string_of_list_ascii (repeat "1"%char 201)))).
  vm_compute. lia.
Defined.

(** ** C6: percent signs in the normalized text *)

Local Open Scope list_scope.

Lemma span_spec (p : ascii -> bool) (s a b : pystr) :
  span p s = (a, b) ->
  s = a ++ b /\ forallb p a = true
  /\ match b with c :: _ => p c = false | [] => True end.
Proof.
  revert a b. induction s as [| c s IH]; simpl; intros a b H.
  - inversion H; subst. auto.
  - destruct (p c) eqn:Hc.
    + destruct (span p s) as [a' b'] eqn:E. inversion H; subst.
      destruct (IH a' b eq_refl) as (-> & Ha & Hb).
      simpl. rewrite Hc. auto.
    + inversion H; subst. simpl. auto.
Qed.

Lemma digit_not_percent (c : ascii) : is_digit c = true -> Ascii.eqb c "%" = false.
Proof.
  intro H. destruct (Ascii.eqb_spec c "%"%char) as [-> | _]; [discriminate | reflexivity].
Qed.

Lemma digit_not_point (c : ascii) : is_digit c = true -> Ascii.eqb c "." = false.
Proof.
  intro H. destruct (Ascii.eqb_spec c "."%char) as [-> | _]; [discriminate | reflexivity].
Qed.

Lemma lit_step_digit (st : lit_state) (c : ascii) :
  is_digit c = true -> lit_step st c = Digits.
Proof. intro H. unfold lit_step. now rewrite H. Qed.

(** Reading digits raises no stray percent and ends in [Digits]. *)
Lemma stray_percent_digits (d t : pystr) (st : lit_state) :
  forallb is_digit d = true ->
  stray_percent st (d ++ t)
  = stray_percent (match d with [] => st | _ => Digits end) t.
Proof.
  revert st. induction d as [| c d IH]; intros st H; [reflexivity |].
  simpl in H. apply andb_prop in H as [Hc Hd].
  cbn [app stray_percent]. rewrite (digit_not_percent c Hc), (lit_step_digit st c Hc).
  cbn [andb orb]. rewrite (IH Digits Hd). now destruct d.
Qed.

Lemma has_percent_app (a b : pystr) :
  has_percent (a ++ b) = has_percent a || has_percent b.
Proof. apply existsb_app. Qed.

Lemma has_percent_numchars (a : pystr) :
  forallb (fun c => is_numchar c || is_opchar c) a = true -> has_percent a = false.
Proof.
  induction a as [| c a IH]; [reflexivity |].
  cbn [forallb]. intro H. apply andb_prop in H as [Hc Ha].
  unfold has_percent in *. cbn [existsb]. rewrite (IH Ha), orb_false_r.
  destruct (Ascii.eqb_spec "%"%char c) as [<- | _]; [| reflexivity].
  vm_compute in Hc. discriminate.
Qed.

Lemma forallb_weaken (p q : ascii -> bool) (a : pystr) :
  (forall c, p c = true -> q c = true) -> forallb p a = true -> forallb q a = true.
Proof.
  intros Hpq. induction a as [| c a IH]; simpl; [reflexivity |].
  intro H. apply andb_prop in H as [Hc Ha]. now rewrite (Hpq c Hc), (IH Ha).
Qed.

(** What a match looks like, and what it means for the percent sign that
    ends it. *)
Lemma match_percent_spec (s num : pystr) :
  match_percent s = Some num ->
  exists rest,
    s = num ++ "%"%char :: rest
    /\ forallb is_numchar num = true
    /\ (forall st, stray_percent st s = stray_percent NoLiteral rest).
Proof.
  unfold match_percent.
  destruct (span is_digit s) as [d1 r1] eqn:E1.
  apply span_spec in E1 as (-> & Hd1 & _).
  destruct d1 as [| c d1]; [discriminate |].
  assert (Hnum1 : forallb is_numchar (c :: d1) = true).
  { apply (forallb_weaken is_digit); [| exact Hd1].
    intros x Hx. unfold is_numchar. now rewrite Hx. }
  destruct r1 as [| x r1]; [discriminate |].
  destruct (Ascii.eqb_spec x "%"%char) as [-> | Hx1].
  - intro H. inversion H; subst num. exists r1. repeat split; [assumption |].
    intro st. rewrite (stray_percent_digits (c :: d1)) by assumption.
    reflexivity.
  - destruct (Ascii.eqb_spec x "."%char) as [-> | Hx2].
    + destruct (span is_digit r1) as [d2 r3] eqn:E2.
      apply span_spec in E2 as (-> & Hd2 & _).
      destruct r3 as [| y r3]; [discriminate |].
      destruct (Ascii.eqb_spec y "%"%char) as [-> | Hy].
      * intro H. inversion H; subst num. exists r3. split; [| split].
        -- change (c :: d1 ++ "."%char :: d2 ++ "%"%char :: r3
                   = c :: (d1 ++ "."%char :: d2) ++ "%"%char :: r3).
           f_equal. rewrite <- app_assoc. reflexivity.
        -- change (forallb is_numchar ((c :: d1) ++ "."%char :: d2) = true).
           rewrite forallb_app, Hnum1. cbn [forallb andb].
           change (is_numchar "."%char) with true. cbn [andb].
           apply (forallb_weaken is_digit); [| exact Hd2].
           intros z Hz. unfold is_numchar. now rewrite Hz.
        -- intro st. rewrite (stray_percent_digits (c :: d1)) by assumption.
           cbn [stray_percent]. cbn.
           rewrite (stray_percent_digits d2) by assumption.
           now destruct d2.
      * intro H. exfalso.
        destruct y as [[] [] [] [] [] [] [] []]; try discriminate H;
          now apply Hy.
    + intro H. exfalso.
      destruct x as [[] [] [] [] [] [] [] []]; try discriminate H;
        first [now apply Hx1 | now apply Hx2].
Qed.

Lemma sub_percent_skip (l t rb : pystr) :
  sub_percent (List.length l) rb (l ++ t) = sub_percent 0 (rev l ++ rb) t.
Proof.
  revert rb. induction l as [| c l IH]; intro rb.
  - destruct t; reflexivity.
  - cbn [List.length app sub_percent rev]. rewrite IH, <- app_assoc. reflexivity.
Qed.

Lemma base_rev_chars (r : pystr) :
  forallb (fun c => is_numchar c || is_opchar c) (base_rev r) = true.
Proof.
  induction r as [| c r IH]; [reflexivity |].
  cbn [base_rev]. destruct (is_numchar c) eqn:Hn.
  - cbn [forallb]. now rewrite Hn, IH.
  - destruct (is_opchar c) eqn:Ho; [| reflexivity].
    destruct r as [| d r]; [reflexivity |].
    destruct (is_numchar d); [| reflexivity].
    cbn [forallb]. now rewrite Hn, Ho, IH.
Qed.

Lemma has_percent_rev (a : pystr) : has_percent (rev a) = has_percent a.
Proof.
  induction a as [| c a IH]; [reflexivity |].
  cbn [rev]. rewrite has_percent_app, IH.
  unfold has_percent. cbn [existsb]. rewrite orb_false_r. apply orb_comm.
Qed.

Lemma replace_percent_no_percent (num rb : pystr) :
  has_percent num = false -> has_percent (replace_percent num rb) = false.
Proof.
  intro Hnum. unfold replace_percent.
  destruct (match rb with c :: _ => mem_char c "+-*/(" | [] => false end).
  - rewrite !has_percent_app, Hnum. reflexivity.
  - destruct (prev_match rb) as [base |] eqn:E.
    + assert (Hb : has_percent base = false).
      { unfold prev_match in E.
        destruct (match rb with
                  | c :: r' =>
                      if Ascii.eqb c (ascii_of_nat 10)
                      then match r' with
                           | d :: _ => if is_numchar d then r' else rb
                           | [] => rb
                           end
                      else rb
                  | [] => []
                  end) as [| c r]; [discriminate |].
        destruct (is_numchar c); [| discriminate].
        injection E as <-. rewrite has_percent_rev.
        apply has_percent_numchars. exact (base_rev_chars (c :: r)). }
      rewrite !has_percent_app, Hb, Hnum. reflexivity.
    + rewrite !has_percent_app, Hnum. reflexivity.
Qed.

Lemma lit_state_of_cons (c : ascii) (rb : pystr) :
  lit_state_of (c :: rb) = lit_step (lit_state_of rb) c.
Proof.
  unfold lit_step. cbn [lit_state_of].
  destruct (is_digit c); [reflexivity |].
  destruct (Ascii.eqb c "."); [| reflexivity].
  destruct rb as [| d r]; [reflexivity |].
  cbn [lit_state_of]. destruct (is_digit d); [reflexivity |].
  destruct (Ascii.eqb d "."); [| reflexivity].
  destruct r as [| d' r']; [reflexivity |]. now destruct (is_digit d').
Qed.

Lemma pending_percent_is_stray (rb s : pystr) :
  no_match_pending rb ("%"%char :: s) -> lit_state_of rb = NoLiteral.
Proof.
  intro Inv. destruct rb as [| d r]; [reflexivity |].
  cbn [lit_state_of]. destruct (is_digit d) eqn:Hd.
  - exfalso. specialize (Inv [d] r eq_refl).
    assert (H : match_percent ([d] ++ "%"%char :: s) = Some [d]).
    { unfold match_percent. cbn [app span]. rewrite Hd.
      change (is_digit "%"%char) with false. reflexivity. }
    rewrite Inv in H; [discriminate | discriminate |].
    cbn [forallb]. unfold is_numchar. now rewrite Hd.
  - destruct (Ascii.eqb_spec d "."%char) as [-> | _]; [| reflexivity].
    destruct r as [| d' r']; [reflexivity |].
    destruct (is_digit d') eqn:Hd'; [| reflexivity].
    exfalso. specialize (Inv [d'; "."%char] r' eq_refl).
    assert (H : match_percent ([d'; "."%char] ++ "%"%char :: s)
                = Some [d'; "."%char]).
    { unfold match_percent. cbn [app span]. rewrite Hd'.
      change (is_digit "."%char) with false. cbn iota beta.
      change (is_digit "%"%char) with false. reflexivity. }
    rewrite Inv in H; [discriminate | discriminate |].
    cbn [forallb]. unfold is_numchar. rewrite Hd'. reflexivity.
Qed.

Lemma numchar_not_percent (u : pystr) :
  forallb is_numchar u = true -> has_percent u = false.
Proof.
  intro H. apply has_percent_numchars.
  apply (forallb_weaken is_numchar); [| exact H].
  intros c Hc. now rewrite Hc.
Qed.

Lemma span_stop (p : ascii -> bool) (a b : pystr) :
  forallb p a = true ->
  match b with c :: _ => p c = false | [] => True end ->
  span p (a ++ b) = (a, b).
Proof.
  intros Ha Hb. induction a as [| c a IH].
  - destruct b as [| c b]; [reflexivity |]. cbn [app span]. now rewrite Hb.
  - cbn [forallb] in Ha. apply andb_prop in Ha as [Hc Ha].
    cbn [app span]. now rewrite Hc, (IH Ha).
Qed.

Lemma match_percent_digits (d t : pystr) :
  d <> [] -> forallb is_digit d = true ->
  match_percent (d ++ "%"%char :: t) = Some d.
Proof.
  intros Hne Hd. unfold match_percent.
  rewrite (span_stop is_digit d ("%"%char :: t) Hd eq_refl).
  destruct d; [now elim Hne | reflexivity].
Qed.

Lemma pending_after_match (num rest rb : pystr) :
  no_match_pending (rev (num ++ ["%"%char]) ++ rb) rest.
Proof.
  intros u rb0 Hu Hne Hnc. exfalso.
  destruct u as [| x u _] using rev_ind; [now apply Hne |].
  rewrite !rev_unit in Hu. cbn [app] in Hu. injection Hu as <- _.
  rewrite forallb_app in Hnc. apply andb_prop in Hnc as [_ Hx].
  vm_compute in Hx. discriminate.
Qed.

Lemma pending_step (c : ascii) (s rb : pystr) :
  no_match_pending rb (c :: s) -> match_percent (c :: s) = None ->
  no_match_pending (c :: rb) s.
Proof.
  intros Inv M u rb0 Hu Hne Hnc.
  destruct u as [| x u _] using rev_ind; [now elim Hne |].
  rewrite rev_unit in Hu. cbn [app] in Hu. injection Hu as <- ->.
  rewrite <- app_assoc. cbn [app].
  rewrite forallb_app in Hnc. apply andb_prop in Hnc as [Hu _].
  destruct u as [| y u]; [exact M |].
  apply (Inv (y :: u) rb0 eq_refl); [discriminate | exact Hu].
Qed.

(** The rewrite leaves a percent sign exactly where the text has a stray
    one.  [rb] is the reversed text already passed. *)
Lemma sub_percent_stray (n : nat) :
  forall s rb, (List.length s <= n)%nat -> no_match_pending rb s ->
    has_percent (sub_percent 0 rb s) = stray_percent (lit_state_of rb) s.
Proof.
  induction n as [| n IH]; intros s rb Hlen Inv.
  - destruct s; [reflexivity | simpl in Hlen; lia].
  - destruct s as [| c s']; [reflexivity |].
    cbn [sub_percent]. destruct (match_percent (c :: s')) as [num |] eqn:M.
    + destruct (match_percent_spec _ _ M) as (rest & Heq & Hnum & Hstray).
      rewrite Hstray.
      destruct num as [| c0 num'].
      { exfalso. cbn [app] in Heq. injection Heq as -> ->.
        unfold match_percent in M. cbn [span] in M.
        change (is_digit "%"%char) with false in M. discriminate. }
      cbn [app] in Heq. injection Heq as -> ->.
      rewrite has_percent_app, replace_percent_no_percent
        by (now apply numchar_not_percent).
      cbn [orb].
      replace (List.length (c0 :: num')) with (List.length (num' ++ ["%"%char]))
        by (rewrite length_app; simpl; lia).
      replace (num' ++ "%"%char :: rest) with ((num' ++ ["%"%char]) ++ rest)
        by (now rewrite <- app_assoc).
      rewrite sub_percent_skip, rev_unit.
      rewrite IH.
      * reflexivity.
      * simpl in Hlen. rewrite !length_app in Hlen. simpl in Hlen. lia.
      * intros u rb0 Hu Hne Hnc. exfalso.
        destruct u as [| x u _] using rev_ind; [now apply Hne |].
        rewrite rev_unit in Hu. cbn [app] in Hu. injection Hu as <- _.
        rewrite forallb_app in Hnc. apply andb_prop in Hnc as [_ Hx].
        vm_compute in Hx. discriminate.
    + assert (Inv' : no_match_pending (c :: rb) s').
      { intros u rb0 Hu Hne Hnc.
        destruct u as [| x u _] using rev_ind; [now elim Hne |].
        rewrite rev_unit in Hu. cbn [app] in Hu. injection Hu as <- ->.
        rewrite <- app_assoc. cbn [app].
        rewrite forallb_app in Hnc. apply andb_prop in Hnc as [Hu _].
        destruct u as [| y u]; [exact M |].
        apply (Inv (y :: u) rb0 eq_refl); [discriminate | exact Hu]. }
      unfold has_percent. cbn [existsb stray_percent].
      fold (has_percent (sub_percent 0 (c :: rb) s')).
      rewrite IH; [| simpl in Hlen; lia | exact Inv'].
      rewrite lit_state_of_cons.
      destruct (Ascii.eqb_spec "%"%char c) as [<- | Hc].
      * rewrite (pending_percent_is_stray rb s' Inv). reflexivity.
      * destruct (Ascii.eqb_spec c "%"%char) as [-> | _]; [now elim Hc |].
        reflexivity.
Qed.

Lemma stray_percent_plain (c : ascii) (t : pystr) (st : lit_state) :
  plain c = true -> stray_percent st (c :: t) = stray_percent NoLiteral t.
Proof.
  unfold plain. intro H.
  apply andb_prop in H as [H Hp]. apply andb_prop in H as [Hd Hdot].
  apply negb_true_iff in Hp, Hd, Hdot.
  cbn [stray_percent]. unfold lit_step. now rewrite Hp, Hd, Hdot.
Qed.

Lemma stray_percent_plains (new t : pystr) (st : lit_state) :
  new <> [] -> forallb plain new = true ->
  stray_percent st (new ++ t) = stray_percent NoLiteral t.
Proof.
  revert st. induction new as [| c new IH]; intros st Hne H; [now elim Hne |].
  cbn [forallb] in H. apply andb_prop in H as [Hc Hnew].
  cbn [app]. rewrite stray_percent_plain by assumption.
  destruct new as [| c' new']; [reflexivity |].
  apply IH; [discriminate | assumption].
Qed.

Lemma stray_percent_replace1 (old : ascii) (new s : pystr) (st : lit_state) :
  plain old = true -> new <> [] -> forallb plain new = true ->
  stray_percent st (replace1 old new s) = stray_percent st s.
Proof.
  intros Hold Hne Hnew. revert st.
  induction s as [| c s IH]; intro st; [reflexivity |].
  cbn [replace1]. destruct (Ascii.eqb_spec c old) as [-> | _].
  - rewrite stray_percent_plains, stray_percent_plain by assumption. apply IH.
  - cbn [app stray_percent]. now rewrite IH.
Qed.

Lemma space_is_plain (c : ascii) : is_space c = true -> plain c = true.
Proof.
  intro H. unfold plain.
  destruct (Ascii.eqb_spec c "."%char) as [-> | _]; [discriminate |].
  destruct (Ascii.eqb_spec c "%"%char) as [-> | _]; [discriminate |].
  destruct (is_digit c) eqn:Hd; [| reflexivity].
  exfalso. unfold is_digit, is_space in *.
  apply andb_prop in Hd as [H1 H2].
  apply Nat.leb_le in H1, H2.
  repeat (apply orb_prop in H as [H | H]);
    try (apply andb_prop in H as [H3 H4]; apply Nat.leb_le in H3, H4; lia);
    apply Nat.eqb_eq in H; lia.
Qed.

Lemma lstrip_spec (s : pystr) :
  exists ws, s = ws ++ lstrip s /\ forallb is_space ws = true.
Proof.
  induction s as [| c s (ws & Hs & Hws)]; [now exists [] |].
  cbn [lstrip]. destruct (is_space c) eqn:Hc.
  - exists (c :: ws). cbn [app forallb]. rewrite Hc, Hws. now rewrite <- Hs.
  - now exists [].
Qed.

Lemma stray_percent_lstrip (s : pystr) :
  stray_percent NoLiteral (lstrip s) = stray_percent NoLiteral s.
Proof.
  induction s as [| c s IH]; [reflexivity |].
  cbn [lstrip]. destruct (is_space c) eqn:Hc; [| reflexivity].
  now rewrite stray_percent_plain by (now apply space_is_plain).
Qed.

Lemma stray_percent_no_percent (ws : pystr) (st : lit_state) :
  has_percent ws = false -> stray_percent st ws = false.
Proof.
  revert st. induction ws as [| c ws IH]; intros st H; [reflexivity |].
  unfold has_percent in H. cbn [existsb] in H.
  apply orb_false_elim in H as [Hc Hws].
  cbn [stray_percent]. rewrite (IH _ Hws), orb_false_r.
  destruct (Ascii.eqb_spec c "%"%char) as [-> | _]; [discriminate | reflexivity].
Qed.

Lemma stray_percent_app_no_percent (a ws : pystr) (st : lit_state) :
  has_percent ws = false -> stray_percent st (a ++ ws) = stray_percent st a.
Proof.
  intro H. revert st. induction a as [| c a IH]; intro st.
  - now apply stray_percent_no_percent.
  - cbn [app stray_percent]. now rewrite IH.
Qed.

Lemma spaces_no_percent (ws : pystr) :
  forallb is_space ws = true -> has_percent ws = false.
Proof.
  induction ws as [| c ws IH]; [reflexivity |].
  cbn [forallb]. intro H. apply andb_prop in H as [Hc Hws].
  unfold has_percent in *. cbn [existsb]. rewrite (IH Hws), orb_false_r.
  destruct (Ascii.eqb_spec "%"%char c) as [<- | _]; [discriminate | reflexivity].
Qed.

Lemma stray_percent_rstrip (s : pystr) (st : lit_state) :
  stray_percent st (rstrip s) = stray_percent st s.
Proof.
  unfold rstrip. destruct (lstrip_spec (rev s)) as (ws & Hs & Hws).
  assert (E : s = rev (lstrip (rev s)) ++ rev ws).
  { rewrite <- rev_app_distr, <- Hs. symmetry. apply rev_involutive. }
  rewrite E at 2. symmetry. apply stray_percent_app_no_percent.
  rewrite has_percent_rev. now apply spaces_no_percent.
Qed.

(** C6, as stated, fails: a percent sign that does not directly follow a
    number is no percentage for the rewrite; it stays in the text and is
    parsed as the modulo operator.  "10 % 3" is normalized to itself, and
    evaluates to 1. *)
Lemma C6_modulo_percent_survives :
  show (normalize (py "10 % 3")) = "10 % 3"%string
  /\ has_percent (normalize (py "10 % 3")) = true
  /\ (fun P => safe_math_eval P "10 % 3") = (fun _ => Some (Ret (VInt 1))).
Proof.
  repeat split; vm_compute; reflexivity.
Qed.

Lemma match_percent_again (s num : pystr) :
  match_percent s = Some num ->
  forall r, match_percent (num ++ "%"%char :: r) = Some num.
Proof.
  unfold match_percent at 1.
  destruct (span is_digit s) as [d1 r1] eqn:E1.
  apply span_spec in E1 as (-> & Hd1 & _).
  destruct d1 as [| c d1]; [discriminate |].
  destruct r1 as [| x r1]; [discriminate |].
  destruct (Ascii.eqb_spec x "%"%char) as [-> | Hx1].
  - intros [= <-] r. apply match_percent_digits; [discriminate | exact Hd1].
  - destruct (Ascii.eqb_spec x "."%char) as [-> | Hx2].
    + destruct (span is_digit r1) as [d2 r3] eqn:E2.
      apply span_spec in E2 as (-> & Hd2 & _).
      destruct r3 as [| y r3]; [discriminate |].
      destruct (Ascii.eqb_spec y "%"%char) as [-> | Hy].
      * intros [= <-] r. unfold match_percent.
        replace ((c :: d1 ++ "."%char :: d2) ++ "%"%char :: r)
          with ((c :: d1) ++ "."%char :: d2 ++ "%"%char :: r)
          by (cbn [app]; now rewrite <- app_assoc).
        rewrite (span_stop is_digit (c :: d1) ("."%char :: d2 ++ "%"%char :: r)
                   Hd1 eq_refl).
        now rewrite (span_stop is_digit d2 ("%"%char :: r) Hd2 eq_refl).
      * intro H. exfalso.
        destruct y as [[] [] [] [] [] [] [] []]; try discriminate H;
          now apply Hy.
    + intro H. exfalso.
      destruct x as [[] [] [] [] [] [] [] []]; try discriminate H;
        first [now apply Hx1 | now apply Hx2].
Qed.

Lemma match_percent_prefix (s t : pystr) :
  match_percent (s ++ t) = None -> match_percent s = None.
Proof.
  intro H. destruct (match_percent s) as [num |] eqn:M; [| reflexivity].
  destruct (match_percent_spec _ _ M) as (rest & -> & _ & _).
  rewrite <- app_assoc in H. cbn [app] in H.
  now rewrite (match_percent_again _ _ M) in H.
Qed.

Lemma split_at_percent (num rest a b : pystr) :
  forallb is_numchar num = true ->
  num ++ "%"%char :: rest = a ++ "%"%char :: b ->
  (num = a /\ rest = b)
  \/ exists a', a = num ++ "%"%char :: a' /\ rest = a' ++ "%"%char :: b.
Proof.
  revert a. induction num as [| c num IH]; intros a Hnum E.
  - destruct a as [| x a]; cbn [app] in E.
    + injection E as ->. now left.
    + injection E as <- ->. right. now exists a.
  - cbn [forallb] in Hnum. apply andb_prop in Hnum as [Hc Hnum].
    destruct a as [| x a]; cbn [app] in E.
    + injection E as -> _. vm_compute in Hc. discriminate.
    + injection E as <- E. destruct (IH a Hnum E) as [[-> ->] | (a' & -> & ->)].
      * now left.
      * right. now exists a'.
Qed.

Lemma sub_percent_match (num r rb : pystr) :
  match_percent (num ++ "%"%char :: r) = Some num ->
  sub_percent 0 rb (num ++ "%"%char :: r)
  = replace_percent num rb ++ sub_percent 0 (rev (num ++ ["%"%char]) ++ rb) r.
Proof.
  intro M. destruct num as [| c num].
  - exfalso. unfold match_percent in M. cbn [app span] in M.
    change (is_digit "%"%char) with false in M. discriminate.
  - change ((c :: num) ++ "%"%char :: r) with (c :: num ++ "%"%char :: r) in *.
    cbn [sub_percent]. rewrite M. f_equal.
    replace (List.length (c :: num)) with (List.length (num ++ ["%"%char]))
      by (rewrite length_app; simpl; lia).
    replace (num ++ "%"%char :: r) with ((num ++ ["%"%char]) ++ r)
      by (now rewrite <- app_assoc).
    rewrite sub_percent_skip. f_equal.
    cbn [app rev]. now rewrite <- app_assoc.
Qed.

Lemma sub_percent_copy (c : ascii) (s rb : pystr) :
  match_percent (c :: s) = None ->
  sub_percent 0 rb (c :: s) = c :: sub_percent 0 (c :: rb) s.
Proof. intro M. cbn [sub_percent]. now rewrite M. Qed.

Lemma lit_state_of_rev (a rb : pystr) :
  lit_state_of (rev a ++ rb) = fold_left lit_step a (lit_state_of rb).
Proof.
  revert rb. induction a as [| c a IH]; intro rb; [reflexivity |].
  cbn [rev fold_left]. rewrite <- app_assoc. cbn [app].
  now rewrite IH, lit_state_of_cons.
Qed.

Lemma stray_percent_last (num : pystr) (st : lit_state) :
  has_percent num = false ->
  stray_percent st (num ++ ["%"%char])
  = match fold_left lit_step num st with
    | NoLiteral => true
    | _ => false
    end.
Proof.
  revert st. induction num as [| c num IH]; intros st H.
  - cbn. now destruct st.
  - unfold has_percent in H. cbn [existsb] in H.
    apply orb_false_elim in H as [Hc Hnum].
    cbn [app stray_percent fold_left]. rewrite (IH _ Hnum).
    destruct (Ascii.eqb_spec c "%"%char) as [-> | _]; [discriminate |].
    reflexivity.
Qed.

(** The percent sign that ends a match directly follows a literal. *)
Lemma match_percent_state (num r rb : pystr) :
  match_percent (num ++ "%"%char :: r) = Some num ->
  lit_state_of (rev num ++ rb) <> NoLiteral.
Proof.
  intro M. pose proof (match_percent_again _ _ M []) as M'.
  destruct (match_percent_spec _ _ M') as (rest & E & Hnum & Hstray).
  destruct (split_at_percent num rest num [] Hnum (eq_sym E))
    as [[_ ->] | (a' & E' & _)].
  - specialize (Hstray (lit_state_of rb)).
    rewrite stray_percent_last in Hstray by (now apply numchar_not_percent).
    rewrite lit_state_of_rev. cbn [stray_percent] in Hstray.
    destruct (fold_left lit_step num (lit_state_of rb)); congruence.
  - exfalso. apply (f_equal (@List.length ascii)) in E'.
    rewrite length_app in E'. cbn [List.length] in E'. lia.
Qed.

(** What [re.sub] does at one percent sign of the text [a ++ % :: b]: a
    stray one is copied between the rewrite of [a] and that of [b]; one
    that follows a literal is replaced, with the literal [num]. *)
Lemma sub_percent_at (n : nat) :
  forall a b rb, (List.length a <= n)%nat ->
    no_match_pending rb (a ++ "%"%char :: b) ->
    (lit_state_of (rev a ++ rb) = NoLiteral ->
     sub_percent 0 rb (a ++ "%"%char :: b)
     = sub_percent 0 rb a ++ "%"%char :: sub_percent 0 ("%"%char :: rev a ++ rb) b)
    /\ (lit_state_of (rev a ++ rb) <> NoLiteral ->
        exists a0 num,
          a = a0 ++ num
          /\ match_percent (num ++ "%"%char :: b) = Some num
          /\ sub_percent 0 rb (a ++ "%"%char :: b)
             = sub_percent 0 rb a0 ++ replace_percent num (rev a0 ++ rb)
               ++ sub_percent 0 ("%"%char :: rev a ++ rb) b).
Proof.
  induction n as [| n IH]; intros a b rb Hlen Inv.
  - destruct a as [| c a]; [| simpl in Hlen; lia].
    cbn [app rev]. split.
    + intros _. now rewrite sub_percent_copy by reflexivity.
    + intro H. elim H. exact (pending_percent_is_stray rb b Inv).
  - destruct a as [| c a].
    { cbn [app rev]. split.
      - intros _. now rewrite sub_percent_copy by reflexivity.
      - intro H. elim H. exact (pending_percent_is_stray rb b Inv). }
    destruct (match_percent ((c :: a) ++ "%"%char :: b)) as [num |] eqn:M.
    + destruct (match_percent_spec _ _ M) as (rest & E & Hnum & _).
      destruct (split_at_percent num rest (c :: a) b Hnum (eq_sym E))
        as [[-> ->] | (a' & Ea & ->)].
      * (* the match ends at this percent sign *)
        split.
        -- intro H. now elim (match_percent_state _ _ rb M).
        -- intros _. exists [], (c :: a).
           split; [reflexivity |]. split; [exact M |].
           rewrite (sub_percent_match _ _ rb M). cbn [app rev sub_percent].
           do 2 f_equal. rewrite rev_unit. cbn [app]. reflexivity.
      * (* the match ends before it *)
        rewrite Ea in *. clear Ea.
        assert (M' : match_percent (num ++ "%"%char :: a' ++ "%"%char :: b)
                     = Some num).
        { rewrite <- M. f_equal. rewrite <- app_assoc. reflexivity. }
        assert (Hl : (List.length a' <= n)%nat).
        { simpl in Hlen. rewrite length_app in Hlen. simpl in Hlen. lia. }
        assert (Erev : rev (num ++ "%"%char :: a') ++ rb
                       = rev a' ++ rev (num ++ ["%"%char]) ++ rb).
        { replace (num ++ "%"%char :: a') with ((num ++ ["%"%char]) ++ a')
            by (now rewrite <- app_assoc).
          now rewrite rev_app_distr, <- app_assoc. }
        destruct (IH a' b (rev (num ++ ["%"%char]) ++ rb) Hl
                    (pending_after_match num _ rb)) as [IH1 IH2].
        rewrite <- app_assoc. cbn [app].
        rewrite (sub_percent_match _ _ rb M'), Erev.
        split.
        -- intro H. rewrite (IH1 H).
           rewrite (sub_percent_match num a' rb (match_percent_again _ _ M' a')).
           now rewrite <- app_assoc.
        -- intro H. destruct (IH2 H) as (a0 & num' & -> & Hm & Eout).
           exists (num ++ "%"%char :: a0), num'.
           split; [now rewrite <- app_assoc |]. split; [exact Hm |].
           rewrite Eout.
           rewrite (sub_percent_match num a0 rb (match_percent_again _ _ M' a0)).
           replace (rev (num ++ "%"%char :: a0) ++ rb)
             with (rev a0 ++ rev (num ++ ["%"%char]) ++ rb).
           ++ now rewrite <- !app_assoc.
           ++ replace (num ++ "%"%char :: a0) with ((num ++ ["%"%char]) ++ a0)
                by (now rewrite <- app_assoc).
              now rewrite (rev_app_distr (num ++ ["%"%char]) a0), <- app_assoc.
    + (* no match starts here: the character is copied *)
      assert (Hl : (List.length a <= n)%nat) by (simpl in Hlen; lia).
      assert (Erev : rev (c :: a) ++ rb = rev a ++ c :: rb)
        by (cbn [rev]; now rewrite <- app_assoc).
      destruct (IH a b (c :: rb) Hl (pending_step c _ rb Inv M)) as [IH1 IH2].
      change ((c :: a) ++ "%"%char :: b) with (c :: a ++ "%"%char :: b) in *.
      rewrite (sub_percent_copy c _ rb M), Erev.
      split.
      * intro H. rewrite (IH1 H).
        rewrite (sub_percent_copy c a rb)
          by (exact (match_percent_prefix (c :: a) ("%"%char :: b) M)).
        reflexivity.
      * intro H. destruct (IH2 H) as (a0 & num' & -> & Hm & Eout).
        exists (c :: a0), num'.
        split; [reflexivity |]. split; [exact Hm |].
        rewrite Eout.
        rewrite (sub_percent_copy c a0 rb).
        -- cbn [app rev]. now rewrite <- !app_assoc.
        -- apply (match_percent_prefix (c :: a0) (num' ++ "%"%char :: b)).
           rewrite <- M. cbn [app]. now rewrite <- app_assoc.
Qed.

(** C6, amended.  For every input, each percent sign of the text (after
    the surrounding white space is stripped and the aliases are replaced)
    is treated in one of two ways.  One that does not directly follow a
    numeric literal (digits, or digits and a point) is kept where it is:
    the normalized expression is the rewrite of the text before it, the
    percent sign, and the rewrite of the text after it.  One that directly
    follows a literal is rewritten: the literal and the sign are replaced
    by a text without a percent sign.  So the normalized expression
    contains a percent sign exactly when the input has one that does not
    directly follow a literal; such a sign is the modulo operator of
    Python, "10 % 3" evaluates to 1. *)
Theorem C6_percent_rewritten_or_kept (P : platform) (raw : pystr) :
  (forall a b, replace_aliases (strip raw) = a ++ "%"%char :: b ->
     (lit_state_of (rev a) = NoLiteral ->
      normalize raw
      = sub_percent 0 [] a ++ "%"%char :: sub_percent 0 ("%"%char :: rev a) b)
     /\ (lit_state_of (rev a) <> NoLiteral ->
         exists a0 num,
           a = a0 ++ num
           /\ match_percent (num ++ "%"%char :: b) = Some num
           /\ has_percent (replace_percent num (rev a0)) = false
           /\ normalize raw
              = sub_percent 0 [] a0 ++ replace_percent num (rev a0)
                ++ sub_percent 0 ("%"%char :: rev a) b))
  /\ has_percent (normalize raw) = stray_percent NoLiteral raw
  /\ safe_math_eval P "10 % 3" = Some (Ret (VInt 1)).
Proof.
  assert (Hinit : forall s, no_match_pending [] s).
  { intros s u rb0 Hu Hne _. exfalso. apply Hne.
    destruct u as [| x u _] using rev_ind; [reflexivity |].
    rewrite rev_unit in Hu. discriminate. }
  split; [| split; [| reflexivity]].
  - intros a b E. unfold normalize. rewrite E.
    destruct (sub_percent_at (List.length a) a b [] (le_n _) (Hinit _))
      as [H1 H2].
    rewrite !app_nil_r in *. split; [exact H1 |].
    intro H. destruct (H2 H) as (a0 & num & -> & Hm & Eout).
    exists a0, num. split; [reflexivity |]. split; [exact Hm |].
    split; [| now rewrite app_nil_r in Eout].
    destruct (match_percent_spec _ _ Hm) as (_ & _ & Hnum & _).
    apply replace_percent_no_percent. now apply numchar_not_percent.
  - unfold normalize.
    rewrite (sub_percent_stray (List.length (replace_aliases (strip raw)))).
    + cbn [lit_state_of]. unfold replace_aliases.
      rewrite !stray_percent_replace1
        by (try discriminate; vm_compute; reflexivity).
      unfold strip. now rewrite stray_percent_rstrip, stray_percent_lstrip.
    + lia.
    + apply Hinit.
Qed.

Lemma C6_percent_witness :
  normalize (py "7 % 2") = py "7 " ++ "%"%char :: py " 2".
Proof.
  apply (proj1 (proj1 (C6_percent_rewritten_or_kept reference_platform
                         (py "7 % 2")) (py "7 ") (py " 2") eq_refl)).
  reflexivity.
Defined.

(** ** C4: division by zero *)

Local Open Scope Z_scope.

(** C4, as stated, fails.  A number directly followed by "%0" is taken by
    the percentage rewrite and the result is a syntax error; where the
    modulo is reached, and for 0/0, the decimal module raises
    InvalidOperation, not DivisionByZero. *)
Lemma C4_not_always_DivisionByZero :
  show (normalize (py "5%0")) = "(5/100)0"%string
  /\ (fun P => safe_math_eval P "5%0") = (fun _ => Some (Raise SyntaxError))
  /\ (fun P => safe_math_eval P "(5)%0")
     = (fun _ => Some (Raise Dec_InvalidOperation))
  /\ (fun P => safe_math_eval P "0/0")
     = (fun _ => Some (Raise Dec_InvalidOperation)).
Proof.
  repeat split; vm_compute; reflexivity.
Qed.

Lemma eval_zero (P : platform) :
  eval_node P (Constant (CInt 0)) = Ret (VDec (DFin false 0 0)).
Proof. reflexivity. Qed.

Lemma zero_divisor_decimal (P : platform) (op : operator) (s : bool) (c e : Z) :
  is_division op = true ->
  dec_binop P op (DFin s c e) (DFin false 0 0)
  = Raise (zero_divisor_error op (c =? 0)).
Proof.
  intro Hop. unfold dec_binop, zero_divisor_error.
  destruct op; try discriminate Hop;
    unfold dec_truediv, dec_floordiv, dec_mod;
    change (0 =? 0) with true; cbn iota;
    destruct (c =? 0); reflexivity.
Qed.

Lemma zero_divisor_infinity (P : platform) (op : operator) (s : bool) :
  is_division op = true ->
  dec_binop P op (DInf s) (DFin false 0 0)
  = match op with
    | Mod => Raise Dec_InvalidOperation
    | _ => Ret (VDec (DInf s))
    end.
Proof.
  intro Hop. unfold dec_binop.
  destruct op; try discriminate Hop;
    unfold dec_truediv, dec_floordiv, dec_mod; cbn [bind];
    now rewrite ?xorb_false_r.
Qed.

(** C4, amended.  For every expression X and each of the operators /, //
    and %, the tree of X divided by the literal 0, evaluated and formatted
    as [safe_math_eval] does, gives, by what X evaluates to:
    the error of X when X raises;
    for a finite non-zero decimal or a non-zero int, DivisionByZero under
    / and // and InvalidOperation under %;
    for a zero decimal or the int 0, InvalidOperation;
    for an infinite decimal (the value of the literal 1e999), under / and
    // the node evaluates to that infinity without an error and the
    formatting raises OverflowError, and % raises InvalidOperation;
    for a decimal NaN (which no literal denotes) the float nan;
    for a float, a function, None, a complex number or the ellipsis, a
    TypeError;
    for a str or bytes, a TypeError under / and //, and under % whatever
    the string formatting of the library gives.
    So when X is a number that is no NaN the answer is always an error and
    never an infinity or a NaN, but DivisionByZero only in one case. *)
Theorem C4_zero_divisor_is_an_error (P : platform) (X : expr) (op : operator) :
  is_division op = true ->
  (forall e, eval_node P X = Raise e ->
     eval_and_format P (BinOp X op (Constant (CInt 0))) = Raise e)
  /\ (forall s c e, eval_node P X = Ret (VDec (DFin s c e)) ->
        eval_and_format P (BinOp X op (Constant (CInt 0)))
        = Raise (zero_divisor_error op (c =? 0)))
  /\ (forall n, eval_node P X = Ret (VInt n) ->
        eval_and_format P (BinOp X op (Constant (CInt 0)))
        = Raise (zero_divisor_error op (n =? 0)))
  /\ (forall s, eval_node P X = Ret (VDec (DInf s)) ->
        eval_node P (BinOp X op (Constant (CInt 0)))
        = match op with
          | Mod => Raise Dec_InvalidOperation
          | _ => Ret (VDec (DInf s))
          end
        /\ eval_and_format P (BinOp X op (Constant (CInt 0)))
           = match op with
             | Mod => Raise Dec_InvalidOperation
             | _ => Raise OverflowError
             end)
  /\ (eval_node P X = Ret (VDec DNaN) ->
        eval_and_format P (BinOp X op (Constant (CInt 0)))
        = Ret (VFloat S754_nan))
  /\ (forall v, eval_node P X = Ret v -> is_number v = false ->
        eval_and_format P (BinOp X op (Constant (CInt 0)))
        = if is_text v
          then match op with
               | Mod => r <- text_op P Mod v (VDec (DFin false 0 0)) ;;
                        format_result r
               | _ => Raise TypeError
               end
          else Raise TypeError).
Proof.
  intro Hop. unfold eval_and_format.
  assert (Hallowed : negb (allowed_operator op) = false)
    by (destruct op; try discriminate Hop; reflexivity).
  rewrite eval_BinOp, eval_zero, Hallowed.
  repeat split.
  - intros e ->. reflexivity.
  - intros s c e ->. cbn [bind binary_op].
    now rewrite zero_divisor_decimal.
  - intros n ->. cbn [bind binary_op]. unfold dec_of_int.
    rewrite zero_divisor_decimal by assumption.
    destruct (Z.eqb_spec n 0) as [-> | Hn]; [reflexivity |].
    destruct (Z.eqb_spec (Z.abs n) 0); [lia | reflexivity].
  - rewrite H. cbn [bind binary_op]. now apply zero_divisor_infinity.
  - rewrite H. cbn [bind binary_op]. rewrite zero_divisor_infinity by assumption.
    destruct op; try discriminate Hop; try reflexivity;
      cbn [bind]; unfold format_result, dec_to_integral_value, dec_eqb;
      now rewrite Bool.eqb_reflx.
  - intros ->. cbn [bind binary_op]. unfold dec_binop.
    destruct op; try discriminate Hop; reflexivity.
  - intros v -> Hv. cbn [bind].
    destruct v; try discriminate Hv;
      destruct op; try discriminate Hop; reflexivity.
Qed.

Lemma C4_zero_divisor_witness :
  eval_and_format reference_platform
    (BinOp (Constant (CInt 7)) Div (Constant (CInt 0)))
  = Raise Dec_DivisionByZero
  /\ eval_and_format reference_platform
       (BinOp (Constant (CInt 7)) Mod (Constant (CInt 0)))
     = Raise Dec_InvalidOperation
  /\ eval_and_format reference_platform
       (BinOp (Constant (CFloat (S754_infinity false))) Div (Constant (CInt 0)))
     = Raise OverflowError.
Proof.
  split; [| split].
  - apply (proj1 (proj2 (C4_zero_divisor_is_an_error reference_platform
                           (Constant (CInt 7)) Div eq_refl)) false 7 0).
    reflexivity.
  - apply (proj1 (proj2 (C4_zero_divisor_is_an_error reference_platform
                           (Constant (CInt 7)) Mod eq_refl)) false 7 0).
    reflexivity.
  - apply (proj2 (proj1 (proj2 (proj2 (proj2
             (C4_zero_divisor_is_an_error reference_platform
                (Constant (CFloat (S754_infinity false))) Div eq_refl))))
             false eq_refl)).
Defined.

(** ** C7: the formatting of the result *)

Lemma ndigits_aux_spec (f : nat) :
  forall z, 0 < z -> z < 2 ^ (Z.of_nat f + 1) ->
    10 ^ (ndigits_aux f z - 1) <= z < 10 ^ ndigits_aux f z
    /\ 1 <= ndigits_aux f z.
Proof.
  induction f as [| f IH]; intros z Hz Hlt.
  - cbn [ndigits_aux]. change (2 ^ (Z.of_nat 0 + 1)) with 2 in Hlt.
    change (10 ^ (1 - 1)) with 1. change (10 ^ 1) with 10. lia.
  - cbn [ndigits_aux]. destruct (Z.ltb_spec z 10) as [Hsmall | Hbig].
    + change (10 ^ (1 - 1)) with 1. change (10 ^ 1) with 10. lia.
    + assert (Hq : 0 < z / 10) by (apply Z.div_str_pos; lia).
      assert (Hq2 : z / 10 < 2 ^ (Z.of_nat f + 1)).
      { apply Z.div_lt_upper_bound; [lia |].
        replace (Z.of_nat (S f) + 1) with (Z.succ (Z.of_nat f + 1)) in Hlt by lia.
        rewrite Z.pow_succ_r in Hlt by lia. lia. }
      destruct (IH (z / 10) Hq Hq2) as [[Hlo Hhi] Hone].
      set (n := ndigits_aux f (z / 10)) in *.
      replace (1 + n - 1) with (Z.succ (n - 1)) by lia.
      replace (1 + n) with (Z.succ n) by lia.
      rewrite !Z.pow_succ_r by lia.
      pose proof (Z.div_mod z 10 ltac:(lia)) as Hdm.
      pose proof (Z.mod_pos_bound z 10 ltac:(lia)) as Hm.
      lia.
Qed.

Lemma ndigits_spec (z : Z) :
  0 < z -> 10 ^ (ndigits z - 1) <= z < 10 ^ ndigits z /\ 1 <= ndigits z.
Proof.
  intro Hz. unfold ndigits. apply ndigits_aux_spec; [assumption |].
  rewrite Z2Nat.id by apply Z.log2_nonneg.
  apply Z.log2_spec. assumption.
Qed.

Lemma ndigits_unique (z n : Z) :
  0 < z -> 10 ^ (n - 1) <= z < 10 ^ n -> ndigits z = n.
Proof.
  intros Hz [Hlo Hhi]. destruct (ndigits_spec z Hz) as [[Hl Hh] Hone].
  assert (Hn : 1 <= n).
  { destruct (Z.le_gt_cases 1 n) as [H | H]; [assumption |].
    destruct (Z.eq_dec n 0) as [-> | Hn0]; [change (10 ^ 0) with 1 in Hhi; lia |].
    rewrite (Z.pow_neg_r 10 n) in Hhi by lia. lia. }
  destruct (Z.lt_trichotomy (ndigits z) n) as [H | [H | H]]; [| assumption |].
  - assert (10 ^ ndigits z <= 10 ^ (n - 1)) by (apply Z.pow_le_mono_r; lia). lia.
  - assert (10 ^ n <= 10 ^ (ndigits z - 1)) by (apply Z.pow_le_mono_r; lia). lia.
Qed.

Lemma ndigits_mul_pow10 (k m : Z) :
  0 < k -> 0 <= m -> ndigits (k * 10 ^ m) = ndigits k + m.
Proof.
  intros Hk Hm. destruct (ndigits_spec k Hk) as [[Hl Hh] Hone].
  assert (Hp : 0 < 10 ^ m) by (apply Z.pow_pos_nonneg; lia).
  apply ndigits_unique; [nia |].
  replace (ndigits k + m - 1) with ((ndigits k - 1) + m) by lia.
  rewrite !Z.pow_add_r by lia. nia.
Qed.

(** An integral decimal equals its [to_integral_value]... *)
Lemma integral_eqb (s : bool) (c e : Z) :
  0 <= c -> dec_is_integral c e = true ->
  dec_eqb (DFin s c e) (dec_to_integral_value (DFin s c e)) = true.
Proof.
  intros Hc Hint. unfold dec_is_integral in Hint. cbn [dec_to_integral_value].
  destruct (Z.leb_spec 0 e) as [He | He].
  - cbn [dec_eqb]. destruct (c =? 0); [reflexivity |].
    now rewrite Bool.eqb_reflx, !Z.eqb_refl.
  - cbn [orb] in Hint. apply Z.eqb_eq in Hint.
    unfold dec_rescale. destruct (Z.eqb_spec c 0) as [-> | Hc0]; [reflexivity |].
    destruct (Z.leb_spec 0 e) as [He' | _]; [lia |].
    set (m := - e) in *.
    assert (Hm : 0 < m) by (unfold m; lia).
    assert (Hp : 0 < 10 ^ m) by (apply Z.pow_pos_nonneg; lia).
    set (k := c / 10 ^ m).
    assert (Hck : c = k * 10 ^ m).
    { unfold k. pose proof (Z.div_mod c (10 ^ m) ltac:(lia)). lia. }
    assert (Hk : 0 < k) by nia.
    assert (Hnd : ndigits c = ndigits k + m)
      by (rewrite Hck; now apply ndigits_mul_pow10; lia).
    destruct (ndigits_spec k Hk) as [_ Hone].
    replace (ndigits c + e - 0) with (ndigits k) by (unfold m in Hnd; lia).
    destruct (Z.ltb_spec (ndigits k) 0) as [Hneg | _]; [lia |].
    unfold round_half_even, prefix.
    replace (ndigits c - ndigits k) with m by lia.
    rewrite Hint. fold k.
    assert (Hhalf : 0 < 5 * 10 ^ (m - 1)).
    { assert (0 < 10 ^ (m - 1)) by (apply Z.pow_pos_nonneg; lia). lia. }
    destruct (Z.eqb_spec 0 (5 * 10 ^ (m - 1))) as [E | _]; [lia |].
    cbn [andb]. destruct (Z.leb_spec (5 * 10 ^ (m - 1)) 0) as [E | _]; [lia |].
    cbn. cbn [dec_eqb].
    destruct (Z.eqb_spec c 0) as [E | _]; [lia |].
    destruct (Z.eqb_spec k 0) as [E | _]; [lia |].
    rewrite Bool.eqb_reflx. unfold adjusted.
    replace (e + ndigits c - 1 =? 0 + ndigits k - 1) with true
      by (symmetry; apply Z.eqb_eq; rewrite Hnd; unfold m; ring).
    cbn [negb]. apply Z.eqb_eq.
    rewrite Z.max_l by lia. rewrite Z.max_r by lia.
    change (- e) with m. change (10 ^ 0) with 1. lia.
Qed.

Lemma dec_rescale_shape (s : bool) (c e exp : Z) :
  exists c', dec_rescale s c e exp = DFin s c' exp.
Proof.
  unfold dec_rescale. destruct (c =? 0); [eexists; reflexivity |].
  destruct (exp <=? e); [eexists; reflexivity |].
  destruct (ndigits c + e - exp <? 0); eexists; reflexivity.
Qed.

(** ... and a decimal that is not integral does not. *)
Lemma not_integral_eqb (s : bool) (c e : Z) :
  0 <= c -> dec_is_integral c e = false ->
  dec_eqb (DFin s c e) (dec_to_integral_value (DFin s c e)) = false.
Proof.
  intros Hc Hint. unfold dec_is_integral in Hint.
  apply orb_false_elim in Hint as [He Hmod].
  cbn [dec_to_integral_value]. rewrite He.
  apply Z.leb_gt in He. apply Z.eqb_neq in Hmod.
  destruct (dec_rescale_shape s c e 0) as [k ->].
  cbn [dec_eqb].
  destruct (Z.eqb_spec c 0) as [-> | Hc0].
  { exfalso. apply Hmod. apply Z.mod_0_l.
    assert (0 < 10 ^ (- e)) by (apply Z.pow_pos_nonneg; lia). lia. }
  destruct (k =? 0); [reflexivity |].
  replace (c * 10 ^ Z.max 0 (e - 0) =? k * 10 ^ Z.max 0 (0 - e)) with false;
    [now destruct (negb (Bool.eqb s s)), (adjusted c e =? adjusted k 0) |].
  symmetry. apply Z.eqb_neq. intro E.
  rewrite Z.max_l in E by lia. rewrite Z.max_r in E by lia.
  change (10 ^ 0) with 1 in E. apply Hmod.
  replace (0 - e) with (- e) in E by lia.
  rewrite Z.mul_1_r in E. rewrite E. apply Z.mod_mul.
  assert (0 < 10 ^ (- e)) by (apply Z.pow_pos_nonneg; lia). lia.
Qed.

(** A successful quantize onto ten places has exponent -10. *)
Lemma quantize_exponent (s : bool) (c e : Z) (q : dec) :
  dec_quantize (DFin s c e) (-10) = Ret q -> exists c', q = DFin s c' (-10).
Proof.
  unfold dec_quantize.
  change (negb ((Etiny <=? -10) && (-10 <=? Emax))) with false. cbn iota.
  destruct (c =? 0).
  { intro H. vm_compute in H. injection H as <-. eexists; reflexivity. }
  destruct (Emax <? adjusted c e); [discriminate |].
  destruct (prec <? adjusted c e - -10 + 1); [discriminate |].
  destruct (dec_rescale_shape s c e (-10)) as [c' ->].
  destruct (Emax <? adjusted c' (-10)); [discriminate |].
  destruct (Z.ltb_spec prec (ndigits c')) as [| Hnd]; [discriminate |].
  unfold dec_fix. destruct (c' =? 0).
  { intro H. vm_compute in H. injection H as <-. eexists; reflexivity. }
  unfold Etop, Etiny, Emax, Emin, prec in *. cbv zeta.
  destruct (Z.ltb_spec (999999 - 28 + 1) (ndigits c' + -10 - 28)) as [| _]; [lia |].
  destruct (Z.ltb_spec (ndigits c' + -10 - 28) (-999999 - 28 + 1)) as [H1 | H1].
  - destruct (Z.ltb_spec (-10) (-999999 - 28 + 1)) as [| _]; [lia |].
    intro H. injection H as <-. eexists; reflexivity.
  - destruct (Z.ltb_spec (-10) (ndigits c' + -10 - 28)) as [| _]; [lia |].
    intro H. injection H as <-. eexists; reflexivity.
Qed.

(** C7, as stated, fails for a result that is a float: it is rounded to ten
    places and returned as a float, integral or not.  "sqrt(4)" returns the
    float 2.0 and not the integer 2. *)
Lemma C7_integral_float_stays_float :
  (fun P => safe_math_eval P "sqrt(4)")
  = (fun _ => Some (Ret (VFloat (float_of_Z 2))))
  /\ VFloat (float_of_Z 2) <> VInt 2.
Proof.
  split; [vm_compute; reflexivity | discriminate].
Qed.

(** C7, amended.  A result that is a decimal is returned as an integer when
    it is exactly integral, and otherwise quantized to ten fractional digits
    (an InvalidOperation when that needs more than 28 digits) and returned
    as the nearest float; "2+2" gives the integer 4.  A result that is a
    float is rounded to ten fractional digits and returned as a float,
    whether integral or not; "sqrt(2)" gives 1.4142135624. *)
Theorem C7_result_formatting (P : platform) (s : bool) (c e : Z) (x : float) :
  0 <= c ->
  (dec_is_integral c e = true ->
     format_result (VDec (DFin s c e)) = Ret (VInt (dec_integer_value s c e)))
  /\ (dec_is_integral c e = false ->
     format_result (VDec (DFin s c e))
       = (q <- dec_quantize (DFin s c e) (-10) ;; Ret (VFloat (dec_float q)))
     /\ forall q, dec_quantize (DFin s c e) (-10) = Ret q ->
                  exists c', q = DFin s c' (-10))
  /\ format_result (VFloat x)
     = (r <- float_round_ndigits x 10 ;; Ret (VFloat r))
  /\ safe_math_eval P "2+2" = Some (Ret (VInt 4))
  /\ safe_math_eval P "sqrt(2)"
     = Some (Ret (VFloat (float_of_decimal false 14142135624 (-10)))).
Proof.
  intro Hc. repeat split.
  - intro Hint. unfold format_result.
    now rewrite (integral_eqb s c e Hc Hint).
  - unfold format_result. now rewrite (not_integral_eqb s c e Hc H).
  - intros q Hq. exact (quantize_exponent s c e q Hq).
Qed.

Lemma C7_result_formatting_witness :
  format_result (VDec (DFin false 40 (-1))) = Ret (VInt 4)
  /\ safe_math_eval reference_platform "2+2" = Some (Ret (VInt 4)).
Proof.
  pose proof (C7_result_formatting reference_platform false 40 (-1)
                (float_of_Z 2) ltac:(lia)) as (Hint & _ & _ & Hex & _).
  split; [exact (Hint eq_refl) | exact Hex].
Defined.

(** ** C2: the value of a literal *)

Lemma digits_of_digits (d : Decimal.uint) : forallb is_digit (digits_of d) = true.
Proof.
  unfold digits_of. induction d; cbn [NilEmpty.string_of_uint py list_ascii_of_string forallb];
    try reflexivity; unfold py in IHd; now rewrite IHd.
Qed.

Lemma fold_digits_acc (d : Decimal.uint) (acc : positive) :
  fold_left digit_step (digits_of d) (Zpos acc) = Zpos (Pos.of_uint_acc d acc).
Proof.
  unfold digits_of. revert acc.
  induction d; intro acc;
    cbn [NilEmpty.string_of_uint py list_ascii_of_string fold_left Pos.of_uint_acc];
    try reflexivity;
    unfold py in IHd;
    match goal with
    | |- fold_left _ _ (digit_step ?a ?c) = Zpos (Pos.of_uint_acc _ ?b) =>
        replace (digit_step a c) with (Zpos b)
          by (unfold digit_step;
              let v := eval vm_compute in (digit_val c) in
              change (digit_val c) with v; lia)
    end;
    rewrite IHd; reflexivity.
Qed.

Lemma fold_digits (d : Decimal.uint) :
  Z_of_digits (digits_of d) = Z.of_uint d.
Proof.
  unfold Z_of_digits, Z.of_uint.
  change (fun acc c => 10 * acc + digit_val c) with digit_step.
  induction d;
    try (unfold digits_of;
         cbn [NilEmpty.string_of_uint py list_ascii_of_string fold_left Pos.of_uint];
         match goal with
         | |- fold_left _ _ (digit_step 0 ?c) = _ =>
             let v := eval vm_compute in (digit_step 0 c) in
             change (digit_step 0 c) with v
         end;
         first [ exact IHd | apply fold_digits_acc ]).
  reflexivity.
Qed.

Lemma str_int_nonneg (n : Z) :
  0 <= n ->
  exists d, d <> Decimal.Nil /\ str_int n = digits_of d /\ Z.of_uint d = n.
Proof.
  intro Hn. destruct n as [| p | p]; [| | lia].
  - exists (Decimal.D0 Decimal.Nil). repeat split. discriminate.
  - exists (Pos.to_uint p). split; [apply DecimalPos.Unsigned.to_uint_nonnil |].
    split.
    + unfold str_int, digits_of. cbn [Z.to_int NilZero.string_of_int].
      pose proof (DecimalPos.Unsigned.to_uint_nonnil p) as Hnil.
      unfold NilZero.string_of_uint. now destruct (Pos.to_uint p).
    + unfold Z.of_uint. now rewrite DecimalPos.Unsigned.of_to.
Qed.

Lemma span_all (p : ascii -> bool) (a : pystr) :
  forallb p a = true -> span p a = (a, []).
Proof.
  induction a as [| c a IH]; [reflexivity |].
  cbn [forallb span]. intro H. apply andb_prop in H as [Hc Ha].
  now rewrite Hc, (IH Ha).
Qed.

Lemma digit_neq (c x : ascii) :
  is_digit c = true -> is_digit x = false -> Ascii.eqb c x = false.
Proof.
  intros Hc Hx. destruct (Ascii.eqb_spec c x) as [-> | _]; [congruence | reflexivity].
Qed.

Lemma lower_digit (c : ascii) : is_digit c = true -> lower c = c.
Proof.
  unfold is_digit, lower. intro H. apply andb_prop in H as [_ H].
  apply Nat.leb_le in H.
  destruct (Nat.leb_spec 65 (code c)) as [H' | _]; [lia | reflexivity].
Qed.

Lemma pystr_eqb_head (a b : ascii) (s : pystr) (t : string) :
  Ascii.eqb a b = false -> pystr_eqb (a :: s) (py (String b t)) = false.
Proof.
  intro H. unfold pystr_eqb, py.
  cbn [list_ascii_of_string string_of_list_ascii String.eqb]. now rewrite H.
Qed.

(** [Decimal] of a text of digits is the number they write. *)
Lemma dec_of_str_digits (ds : pystr) :
  ds <> [] -> forallb is_digit ds = true ->
  dec_of_str ds = Ret (DFin false (Z_of_digits ds) 0).
Proof.
  intros Hne Hds. destruct ds as [| c r]; [now elim Hne |].
  pose proof Hds as Hall. cbn [forallb] in Hds. apply andb_prop in Hds as [Hc _].
  unfold dec_of_str.
  rewrite (digit_neq c "-" Hc eq_refl), (digit_neq c "+" Hc eq_refl).
  cbn [map]. rewrite (lower_digit c Hc).
  rewrite !pystr_eqb_head by (apply digit_neq; [assumption | reflexivity]).
  cbn [orb]. rewrite (span_all is_digit (c :: r) Hall).
  cbn iota beta. rewrite app_nil_r. reflexivity.
Qed.

(** An [int] constant evaluates to the decimal of the same value. *)
Lemma eval_int_constant (P : platform) (n : Z) :
  0 <= n -> eval_node P (Constant (CInt n)) = Ret (VDec (DFin false n 0)).
Proof.
  intro Hn. destruct (str_int_nonneg n Hn) as (d & Hnil & Hstr & Hval).
  cbn [eval_node]. rewrite Hstr, dec_of_str_digits.
  - cbn [bind]. now rewrite fold_digits, Hval.
  - unfold digits_of. destruct d; try discriminate. now elim Hnil.
  - apply digits_of_digits.
Qed.











(** * Further properties of the evaluator *)

(** ** White space around the expression *)

Lemma lstrip_idempotent (s : pystr) : lstrip (lstrip s) = lstrip s.
Proof.
  induction s as [| c s IH]; [reflexivity |].
  cbn [lstrip]. destruct (is_space c) eqn:Hc; [exact IH |].
  cbn [lstrip]. now rewrite Hc.
Qed.

Lemma lstrip_head (s : pystr) :
  match lstrip s with c :: _ => is_space c = false | [] => True end.
Proof.
  induction s as [| c s IH]; [exact I |].
  cbn [lstrip]. destruct (is_space c) eqn:Hc; [exact IH | exact Hc].
Qed.

Lemma lstrip_fixed (s : pystr) :
  match s with c :: _ => is_space c = false | [] => True end -> lstrip s = s.
Proof.
  destruct s as [| c s]; [reflexivity |]. cbn [lstrip]. now intros ->.
Qed.

Lemma rstrip_idempotent (s : pystr) : rstrip (rstrip s) = rstrip s.
Proof.
  unfold rstrip. now rewrite rev_involutive, lstrip_idempotent.
Qed.

(** Stripping the right end keeps a first character that is no blank. *)
Lemma rstrip_head (s : pystr) :
  match s with c :: _ => is_space c = false | [] => True end ->
  match rstrip s with c :: _ => is_space c = false | [] => True end.
Proof.
  intro H. unfold rstrip.
  destruct (lstrip_spec (rev s)) as (ws & Hs & Hws).
  assert (E : s = rev (lstrip (rev s)) ++ rev ws).
  { rewrite <- rev_app_distr, <- Hs. symmetry. apply rev_involutive. }
  destruct (rev (lstrip (rev s))) as [| c t] eqn:Et; [exact I |].
  rewrite E in H. exact H.
Qed.

Lemma strip_idempotent (s : pystr) : strip (strip s) = strip s.
Proof.
  unfold strip.
  rewrite (lstrip_fixed (rstrip (lstrip s)))
    by (apply rstrip_head, lstrip_head).
  apply rstrip_idempotent.
Qed.

Lemma py_show (s : pystr) : py (show s) = s.
Proof. apply list_ascii_of_string_of_list_ascii. Qed.

(** X1.  White space around the expression never changes the answer:
    [safe_math_eval] and [calculate_api] give the same result on an
    expression and on the expression stripped of its leading and trailing
    white space ([str.strip] is applied by both, and applying it twice is
    applying it once). *)
Theorem surrounding_space_is_ignored (P : platform) (e : string) (m : string) :
  safe_math_eval P (show (strip (py e))) = safe_math_eval P e
  /\ calculate_api P {| method := m; POST_expression := Some (show (strip (py e))) |}
     = calculate_api P {| method := m; POST_expression := Some e |}.
Proof.
  split.
  - unfold safe_math_eval, normalize. now rewrite py_show, strip_idempotent.
  - unfold calculate_api. cbn [method POST_expression].
    now rewrite py_show, strip_idempotent.
Qed.

(** ** The characters of the normalized text *)

(** The base of a contextual percentage is read off the text before it,
    or off that text without its final newline. *)
Lemma prev_match_source (rb base : pystr) :
  prev_match rb = Some base ->
  exists r, (r = rb \/ r = tl rb) /\ base = rev (base_rev r).
Proof.
  unfold prev_match. destruct rb as [| c r']; [discriminate |].
  destruct (Ascii.eqb c (ascii_of_nat 10)).
  - destruct r' as [| d r''].
    + destruct (is_numchar c); [| discriminate].
      intro E. injection E as <-. exists [c]. split; [now left | reflexivity].
    + destruct (is_numchar d) eqn:Hd.
      * rewrite Hd. intro E. injection E as <-. exists (d :: r'').
        split; [now right | reflexivity].
      * destruct (is_numchar c); [| discriminate].
        intro E. injection E as <-. exists (c :: d :: r'').
        split; [now left | reflexivity].
  - destruct (is_numchar c); [| discriminate].
    intro E. injection E as <-. exists (c :: r').
    split; [now left | reflexivity].
Qed.

Section Closure.

(** [Q] is a class of characters that contains the characters that the
    percentage rewrite writes. *)
Variable Q : ascii -> bool.
Hypothesis Q_written : forallb Q (py "+(*/100)") = true.

Lemma forallb_rev (s : pystr) : forallb Q (rev s) = forallb Q s.
Proof.
  induction s as [| c s IH]; [reflexivity |].
  cbn [rev forallb]. rewrite forallb_app, IH. cbn [forallb].
  rewrite andb_true_r. apply andb_comm.
Qed.

Lemma base_rev_closed (r : pystr) :
  forallb Q r = true -> forallb Q (base_rev r) = true.
Proof.
  induction r as [| c r IH]; [reflexivity |].
  cbn [forallb base_rev]. intro H. apply andb_prop in H as [Hc Hr].
  destruct (is_numchar c).
  - cbn [forallb]. now rewrite Hc, IH.
  - destruct (is_opchar c); [| reflexivity].
    destruct r as [| d r']; [reflexivity |].
    destruct (is_numchar d); [| reflexivity].
    cbn [forallb]. now rewrite Hc, IH.
Qed.

Lemma replace_percent_closed (num rb : pystr) :
  forallb Q num = true -> forallb Q rb = true ->
  forallb Q (replace_percent num rb) = true.
Proof.
  intros Hnum Hrb.
  assert (Hw : forall w, In w ["("; "/100)"; "+("; "*"]%string ->
                         forallb Q (py w) = true).
  { intros w Hw. vm_compute in Q_written.
    repeat (destruct Hw as [<- | Hw]; [vm_compute; revert Q_written;
      repeat (destruct (Q _); try discriminate); reflexivity |]).
    destruct Hw. }
  unfold replace_percent.
  destruct (match rb with c :: _ => mem_char c "+-*/(" | [] => false end).
  - rewrite !forallb_app, Hnum, !Hw by (simpl; tauto). reflexivity.
  - destruct (prev_match rb) as [base |] eqn:E.
    + assert (Hb : forallb Q base = true).
      { destruct (prev_match_source rb base E) as (r & [-> | ->] & ->);
          rewrite forallb_rev; apply base_rev_closed; [assumption |].
        destruct rb; [reflexivity |].
        cbn [forallb] in Hrb. now apply andb_prop in Hrb as [_ Hrb]. }
      rewrite !forallb_app, Hnum, Hb, !Hw by (simpl; tauto). reflexivity.
    + rewrite !forallb_app, Hnum, !Hw by (simpl; tauto). reflexivity.
Qed.

Lemma match_percent_closed (s num : pystr) :
  match_percent s = Some num -> forallb Q s = true -> forallb Q num = true.
Proof.
  intros M Hs. destruct (match_percent_spec s num M) as (rest & -> & _ & _).
  rewrite forallb_app in Hs. now apply andb_prop in Hs as [Hnum _].
Qed.

Lemma sub_percent_closed (s : pystr) :
  forall skip rb, forallb Q s = true -> forallb Q rb = true ->
                  forallb Q (sub_percent skip rb s) = true.
Proof.
  induction s as [| c s IH]; intros skip rb Hs Hrb; [reflexivity |].
  pose proof Hs as Hcs. cbn [forallb] in Hs. apply andb_prop in Hs as [Hc Hs].
  assert (Hrb' : forallb Q (c :: rb) = true) by (cbn [forallb]; now rewrite Hc).
  cbn [sub_percent]. destruct skip as [| k]; [| now apply IH].
  destruct (match_percent (c :: s)) as [num |] eqn:M.
  - rewrite forallb_app, replace_percent_closed, IH; try assumption;
      [reflexivity | exact (match_percent_closed _ _ M Hcs)].
  - cbn [forallb]. now rewrite Hc, IH.
Qed.

End Closure.

Lemma replace1_closed (Q : ascii -> bool) (old : ascii) (new s : pystr) :
  forallb Q new = true ->
  forallb (fun c => Q c || Ascii.eqb c old) s = true ->
  forallb Q (replace1 old new s) = true.
Proof.
  intro Hnew. induction s as [| c s IH]; [reflexivity |].
  cbn [forallb replace1]. intro H. apply andb_prop in H as [Hc Hs].
  rewrite forallb_app, (IH Hs), andb_true_r.
  destruct (Ascii.eqb c old); [exact Hnew |].
  cbn [forallb]. rewrite orb_false_r in Hc. now rewrite Hc.
Qed.

Lemma lstrip_closed (Q : ascii -> bool) (s : pystr) :
  forallb Q s = true -> forallb Q (lstrip s) = true.
Proof.
  induction s as [| c s IH]; [reflexivity |].
  intro H. cbn [lstrip]. destruct (is_space c); [| exact H].
  cbn [forallb] in H. apply andb_prop in H as [_ H]. now apply IH.
Qed.

Lemma strip_closed (Q : ascii -> bool) (s : pystr) :
  forallb Q s = true -> forallb Q (strip s) = true.
Proof.
  intro H. unfold strip, rstrip.
  rewrite forallb_rev. apply lstrip_closed.
  rewrite forallb_rev. now apply lstrip_closed.
Qed.

Lemma aliases_replaced (s : pystr) :
  forallb (fun c => negb (is_alias c)) (replace_aliases s) = true.
Proof.
  unfold replace_aliases.
  apply replace1_closed; [reflexivity |].
  apply (forallb_weaken
           (fun c => negb (Ascii.eqb c "^") && negb (Ascii.eqb c times_sign))).
  { intros c Hc. unfold is_alias. apply andb_prop in Hc as [H1 H2].
    apply negb_true_iff in H1, H2. rewrite H1, H2. cbn [orb].
    now destruct (Ascii.eqb c division_sign). }
  apply replace1_closed; [reflexivity |].
  apply (forallb_weaken (fun c => negb (Ascii.eqb c "^"))).
  { intros c Hc. rewrite Hc. cbn [andb].
    now destruct (Ascii.eqb c times_sign). }
  apply replace1_closed; [reflexivity |].
  apply forallb_forall. intros c _. now destruct (Ascii.eqb c "^").
Qed.

Lemma replace_aliases_closed (Q : ascii -> bool) (s : pystr) :
  forallb Q (py "*/") = true -> forallb Q s = true ->
  forallb Q (replace_aliases s) = true.
Proof.
  intros Hq Hs. vm_compute in Hq.
  destruct (Q "*"%char) eqn:Hstar; [| discriminate].
  destruct (Q "/"%char) eqn:Hslash; [| discriminate].
  assert (Hor : forall old t, forallb Q t = true ->
                  forallb (fun c => Q c || Ascii.eqb c old) t = true).
  { intros old t Ht. apply (forallb_weaken Q); [| exact Ht].
    intros c Hc. now rewrite Hc. }
  unfold replace_aliases.
  apply replace1_closed; [cbn; now rewrite Hslash | apply Hor].
  apply replace1_closed; [cbn; now rewrite Hstar | apply Hor].
  apply replace1_closed; [cbn; now rewrite Hstar | apply Hor]. exact Hs.
Qed.

(** X2.  The text that [safe_math_eval] hands to the parser never contains a
    circumflex, a multiplication sign or a division sign, and when the
    input consists of the characters that [calculate_api] accepts, so does
    that text: the percentage rewrite only writes digits, points, operators
    and parentheses that it copies or that belong to the accepted set. *)
Theorem normalized_text_alphabet (raw : pystr) :
  forallb (fun c => negb (is_alias c)) (normalize raw) = true
  /\ (forallb accepted_char raw = true ->
      forallb accepted_char (normalize raw) = true).
Proof.
  unfold normalize. split.
  - apply sub_percent_closed; [reflexivity | apply aliases_replaced | reflexivity].
  - intro H. apply sub_percent_closed; [reflexivity | | reflexivity].
    apply replace_aliases_closed; [reflexivity |]. now apply strip_closed.
Qed.

Lemma normalized_text_alphabet_witness :
  forallb accepted_char (normalize (py "2^3 + 50%")) = true.
Proof.
  apply (normalized_text_alphabet (py "2^3 + 50%")). vm_compute. reflexivity.
Defined.

(** ** Percentages of whole numbers *)

Lemma sub_standalone_skip (l t : pystr) :
  sub_standalone (List.length l) (l ++ t) = sub_standalone 0 t.
Proof.
  induction l as [| c l IH]; [destruct t; reflexivity | exact IH].
Qed.

(** Where the text before a percentage has no point and no newline and
    does not end with a digit, the replacement is the stand-alone one. *)
Lemma replace_percent_standalone (num rb : pystr) :
  forallb no_point rb = true ->
  match rb with d :: _ => is_digit d = false | [] => True end ->
  replace_percent num rb = standalone num.
Proof.
  intros Hrb Hd. unfold replace_percent, standalone.
  destruct rb as [| c r]; [reflexivity |].
  destruct (mem_char c "+-*/("); [reflexivity |].
  cbn [forallb] in Hrb. apply andb_prop in Hrb as [Hc _].
  unfold no_point in Hc. apply andb_prop in Hc as [Hpoint Hnl].
  apply negb_true_iff in Hpoint, Hnl.
  unfold prev_match. rewrite Hnl. unfold is_numchar. now rewrite Hd, Hpoint.
Qed.

Lemma sub_percent_standalone (n : nat) :
  forall s rb, (List.length s <= n)%nat -> no_match_pending rb s ->
    forallb no_point s = true -> forallb no_point rb = true ->
    sub_percent 0 rb s = sub_standalone 0 s.
Proof.
  induction n as [| n IH]; intros s rb Hlen Inv Hs Hrb.
  - destruct s; [reflexivity | simpl in Hlen; lia].
  - destruct s as [| c s']; [reflexivity |].
    cbn [sub_percent sub_standalone].
    destruct (match_percent (c :: s')) as [num |] eqn:M.
    + destruct (match_percent_spec _ _ M) as (rest & Heq & Hnum & _).
      assert (Hnp : forallb no_point (num ++ ["%"%char]) = true
                    /\ forallb no_point rest = true).
      { rewrite Heq in Hs.
        replace (num ++ "%"%char :: rest) with ((num ++ ["%"%char]) ++ rest) in Hs
          by (now rewrite <- app_assoc).
        rewrite forallb_app in Hs. now apply andb_prop in Hs. }
      destruct Hnp as [Hnp Hrest].
      assert (Hdig : forallb is_digit num = true).
      { rewrite forallb_app in Hnp. apply andb_prop in Hnp as [Hnp _].
        clear - Hnum Hnp. induction num as [| x num IHn]; [reflexivity |].
        cbn [forallb] in *. apply andb_prop in Hnum as [Hx Hnum].
        apply andb_prop in Hnp as [Hp Hnp]. rewrite (IHn Hnum Hnp), andb_true_r.
        unfold is_numchar in Hx. unfold no_point in Hp.
        apply andb_prop in Hp as [Hp _]. apply negb_true_iff in Hp.
        rewrite Hp, orb_false_r in Hx. exact Hx. }
      destruct num as [| c0 num'].
      { exfalso. cbn [app] in Heq. injection Heq as -> ->.
        unfold match_percent in M. cbn [span] in M.
        change (is_digit "%"%char) with false in M. discriminate. }
      rewrite replace_percent_standalone; [| assumption |].
      2:{ destruct rb as [| d r]; [exact I |].
          destruct (is_digit d) eqn:Hd; [| reflexivity]. exfalso.
          specialize (Inv [d] r eq_refl ltac:(discriminate)).
          rewrite Heq in Inv.
          change ([d] ++ (c0 :: num') ++ "%"%char :: rest)
            with ((d :: c0 :: num') ++ "%"%char :: rest) in Inv.
          rewrite match_percent_digits in Inv.
          - discriminate Inv; cbn [forallb]; unfold is_numchar; now rewrite Hd.
          - discriminate.
          - cbn [forallb] in *. now rewrite Hd. }
      f_equal.
      cbn [app] in Heq. injection Heq as -> ->.
      replace (List.length (c0 :: num')) with (List.length (num' ++ ["%"%char]))
        by (rewrite length_app; simpl; lia).
      replace (num' ++ "%"%char :: rest) with ((num' ++ ["%"%char]) ++ rest)
        by (now rewrite <- app_assoc).
      rewrite sub_percent_skip, sub_standalone_skip.
      change (rev (num' ++ ["%"%char]) ++ c0 :: rb)
        with (rev (num' ++ ["%"%char]) ++ [c0] ++ rb).
      rewrite app_assoc.
      change (rev (num' ++ ["%"%char]) ++ [c0])
        with (rev (c0 :: num' ++ ["%"%char])).
      apply IH.
      * simpl in Hlen. rewrite !length_app in Hlen. simpl in Hlen. lia.
      * apply (pending_after_match (c0 :: num') rest rb).
      * exact Hrest.
      * rewrite forallb_app, forallb_rev. cbn [app] in Hnp. now rewrite Hnp.
    + cbn [forallb] in Hs. apply andb_prop in Hs as [Hc Hs].
      f_equal. apply IH.
      * simpl in Hlen. lia.
      * now apply pending_step.
      * exact Hs.
      * cbn [forallb]. now rewrite Hc.
Qed.

(** X3.  In an expression without a decimal point and without a line
    break no percentage is ever rewritten with a base: whatever precedes
    it, an operator, a letter, a parenthesis or nothing, every "N%" becomes
    "(N/100)".  The contextual branch of [replace_percent] needs the text
    before the match to end with a digit or a point, and a match of [re.sub]
    never starts after a digit.  A line break is excluded because the
    pattern of the base also matches before a final line break: the two
    lines "5" and "10%" are rewritten with the base 5. *)
Theorem whole_number_percentages_are_standalone (raw : pystr) :
  forallb no_point raw = true ->
  normalize raw = sub_standalone 0 (replace_aliases (strip raw))
  /\ normalize (py "5" ++ [ascii_of_nat 10] ++ py "10%")
     = py "5" ++ [ascii_of_nat 10] ++ py "+(5*10/100)".
Proof.
  intro H. split; [| reflexivity]. unfold normalize.
  apply (sub_percent_standalone (List.length (replace_aliases (strip raw)))).
  - lia.
  - intros u rb0 Hu Hne _. exfalso. apply Hne.
    destruct u as [| x u _] using rev_ind; [reflexivity |].
    rewrite rev_unit in Hu. discriminate.
  - apply replace_aliases_closed; [reflexivity |]. now apply strip_closed.
  - reflexivity.
Qed.

Lemma whole_number_percentages_witness :
  normalize (py "200-10%") = py "200-(10/100)".
Proof.
  rewrite (proj1 (whole_number_percentages_are_standalone (py "200-10%")
                    eq_refl)).
  reflexivity.
Defined.

(** ** Integer arithmetic within the precision *)

Lemma ndigits_le_prec (c : Z) : 0 < c < 10 ^ prec -> 1 <= ndigits c <= prec.
Proof.
  intros [Hc Hlt]. destruct (ndigits_spec c Hc) as [[Hlo _] Hone].
  split; [assumption |].
  destruct (Z.le_gt_cases (ndigits c) prec) as [H | H]; [assumption |].
  assert (10 ^ prec <= 10 ^ (ndigits c - 1)) by (apply Z.pow_le_mono_r; lia).
  lia.
Qed.

(** [_fix] leaves an integer of at most 28 digits as it is. *)
Lemma dec_fix_small (s : bool) (c : Z) :
  0 <= c < 10 ^ prec -> dec_fix s c 0 = Ret (DFin s c 0).
Proof.
  intros [Hc Hlt]. unfold dec_fix.
  destruct (Z.eqb_spec c 0) as [-> | Hc0]; [reflexivity |].
  destruct (ndigits_le_prec c ltac:(lia)) as [Hone Hnd].
  unfold Etop, Etiny, Emax, Emin, prec in *. cbv zeta.
  destruct (Z.ltb_spec (999999 - 28 + 1) (ndigits c + 0 - 28)) as [| _]; [lia |].
  destruct (Z.ltb_spec (ndigits c + 0 - 28) (-999999 - 28 + 1)) as [| _]; [lia |].
  destruct (Z.ltb_spec 0 (ndigits c + 0 - 28)) as [| _]; [lia | reflexivity].
Qed.

Lemma normalize_ops_integers (a b : Z) :
  0 < a -> 0 < b -> normalize_ops a 0 b 0 = (a, b, 0).
Proof.
  intros Ha Hb. unfold normalize_ops. cbn [Z.ltb Z.compare negb].
  destruct (ndigits_spec b Hb) as [_ Hone].
  destruct (Z.ltb_spec (ndigits b + 0 - 1) (0 + Z.min (-1) (ndigits a - prec - 2)))
    as [| _]; [lia |].
  cbn. now rewrite Z.mul_1_r.
Qed.

Lemma dec_add_integers (s : bool) (a b : Z) :
  0 <= a -> 0 <= b -> a + b < 10 ^ prec ->
  dec_add (DFin s a 0) (DFin s b 0) = Ret (DFin s (a + b) 0).
Proof.
  intros Ha Hb Hlt. unfold dec_add. cbn [Z.min Z.compare].
  destruct (Z.eqb_spec a 0) as [-> | Ha0], (Z.eqb_spec b 0) as [-> | Hb0];
    cbn [andb].
  - now destruct s.
  - unfold dec_rescale. destruct (Z.eqb_spec b 0) as [| _]; [lia |].
    cbn. rewrite Z.mul_1_r. apply dec_fix_small. lia.
  - unfold dec_rescale. destruct (Z.eqb_spec a 0) as [| _]; [lia |].
    cbn. rewrite Z.mul_1_r, Z.add_0_r. apply dec_fix_small. lia.
  - rewrite normalize_ops_integers by lia. rewrite Bool.eqb_reflx. cbn [negb].
    apply dec_fix_small. lia.
Qed.

Lemma dec_sub_integers (a b : Z) :
  0 <= a -> 0 <= b -> a < 10 ^ prec -> b < 10 ^ prec ->
  dec_sub (DFin false a 0) (DFin false b 0)
  = Ret (DFin (a <? b) (Z.abs (a - b)) 0).
Proof.
  intros Ha Hb Hla Hlb. unfold dec_sub, dec_copy_negate, dec_add.
  cbn [negb Z.min Z.compare].
  destruct (Z.eqb_spec a 0) as [-> | Ha0], (Z.eqb_spec b 0) as [-> | Hb0];
    cbn [andb].
  - reflexivity.
  - unfold dec_rescale. destruct (Z.eqb_spec b 0) as [| _]; [lia |].
    cbn. rewrite Z.mul_1_r.
    destruct (Z.ltb_spec 0 b) as [_ |]; [| lia].
    replace (Z.abs (- b)) with b by lia. apply dec_fix_small. lia.
  - unfold dec_rescale. destruct (Z.eqb_spec a 0) as [| _]; [lia |].
    cbn. rewrite Z.mul_1_r, Z.sub_0_r.
    destruct (Z.ltb_spec a 0) as [| _]; [lia |].
    replace (Z.abs a) with a by lia. apply dec_fix_small. lia.
  - rewrite normalize_ops_integers by lia. cbn [Bool.eqb negb].
    destruct (Z.eqb_spec a b) as [-> | Hab].
    + rewrite Z.ltb_irrefl, Z.sub_diag. reflexivity.
    + destruct (Z.ltb_spec a b) as [Hlt | Hge].
      * replace (Z.abs (a - b)) with (b - a) by lia. apply dec_fix_small. lia.
      * replace (Z.abs (a - b)) with (a - b) by lia. apply dec_fix_small. lia.
Qed.

Lemma format_integer (s : bool) (c : Z) :
  0 <= c -> format_result (VDec (DFin s c 0)) = Ret (VInt (if s then - c else c)).
Proof.
  intro Hc. unfold format_result.
  rewrite (integral_eqb s c 0 Hc eq_refl). cbn. now rewrite Z.mul_1_r.
Qed.

(** X4.  Sums, differences and products of integer literals are exact as
    long as the operands and the result have at most 28 digits (the
    precision that the source sets): the result is returned as the integer
    of the mathematical result.  Beyond the precision the result is rounded:
    9999999999999999999999999999 + 2 gives 10^28. *)
Theorem integer_arithmetic_is_exact (P : platform) (op : operator) (a b : Z) :
  In op [Add; Sub; Mult] ->
  0 <= a < 10 ^ 28 -> 0 <= b < 10 ^ 28 ->
  Z.abs (exact_op op a b) < 10 ^ 28 ->
  eval_and_format P (BinOp (Constant (CInt a)) op (Constant (CInt b)))
  = Ret (VInt (exact_op op a b))
  /\ eval_and_format P (BinOp (Constant (CInt (10 ^ 28 - 1))) Add
                              (Constant (CInt 2)))
     = Ret (VInt (10 ^ 28)).
Proof.
  intros Hop Ha Hb Hres. split; [| vm_compute; reflexivity].
  unfold eval_and_format.
  rewrite eval_BinOp, !eval_int_constant by lia. cbn [bind].
  change (10 ^ 28) with (10 ^ prec) in *.
  destruct Hop as [<- | [<- | [<- | []]]];
    cbn [allowed_operator negb binary_op exact_op] in *; unfold dec_binop.
  - rewrite dec_add_integers by lia. cbn [bind].
    now rewrite format_integer by lia.
  - rewrite dec_sub_integers by lia. cbn [bind].
    rewrite format_integer by lia. f_equal. f_equal.
    destruct (Z.ltb_spec a b); lia.
  - unfold dec_mul. cbn [xorb Z.add].
    rewrite dec_fix_small by (split; [nia | lia]). cbn [bind].
    now rewrite format_integer by nia.
Qed.

Lemma integer_arithmetic_witness :
  eval_and_format reference_platform
    (BinOp (Constant (CInt 123456789)) Mult (Constant (CInt 987654321)))
  = Ret (VInt 121932631112635269).
Proof.
  apply (integer_arithmetic_is_exact reference_platform Mult 123456789 987654321).
  - simpl. tauto.
  - lia.
  - lia.
  - vm_compute. reflexivity.
Defined.

(** ** Evaluation fails closed *)

Lemma lookup_some_listed {A : Type} (k : string) (m : list (string * A)) (v : A) :
  lookup k m = Some v -> mem_string k (map fst m) = true.
Proof.
  unfold mem_string. induction m as [| [k' v'] m IH]; [discriminate |].
  cbn [lookup map fst existsb]. destruct (String.eqb k k'); [reflexivity |].
  exact IH.
Qed.

Lemma eval_list_permitted (P : platform) (args : list expr) (vs : list value) :
  Forall (fun a => forall v, eval_node P a = Ret v -> permitted a = true) args ->
  eval_list P args = Ret vs -> forallb permitted args = true.
Proof.
  intro Hall. revert vs. induction Hall as [| a args Ha _ IH]; [reflexivity |].
  intros vs. cbn [eval_list forallb].
  destruct (eval_node P a) as [v |] eqn:Ea; [| discriminate].
  cbn [bind]. destruct (eval_list P args) as [vs' |]; [| discriminate].
  intros _. now rewrite (Ha v eq_refl), (IH vs' eq_refl).
Qed.

(** X5.  Evaluation fails closed on the whole tree: [eval_node] returns a
    value only for a tree in which every name, also those deep inside the
    arguments of calls, is in the whitelist, every operator is one of
    [ALLOWED_OPERATORS], every call is the call of a whitelisted name
    without keyword arguments, and no other kind of node occurs.  A tree
    with anything else anywhere ends in an error. *)
Theorem evaluation_fails_closed (P : platform) (e : expr) (v : value) :
  eval_node P e = Ret v -> permitted e = true.
Proof.
  revert v. induction e as [c | id | l op r IHl IHr | op e IHe
                            | f args keywords _ IHargs | e _ | elts _]
    using expr_induction; intro v.
  - reflexivity.
  - cbn [eval_node permitted].
    destruct (lookup (show id) ALLOWED_MATH_NAMES) as [x |] eqn:E; [| discriminate].
    intros _. exact (lookup_some_listed _ _ _ E).
  - rewrite eval_BinOp. cbn [permitted].
    destruct (eval_node P l) as [vl |]; [| discriminate].
    destruct (eval_node P r) as [vr |]; [| discriminate].
    cbn [bind]. destruct (allowed_operator op); [| discriminate].
    intros _. now rewrite (IHl vl eq_refl), (IHr vr eq_refl).
  - cbn [eval_node permitted].
    destruct (eval_node P e) as [ve |]; [| discriminate].
    cbn [bind]. destruct (allowed_unaryop op); [| discriminate].
    intros _. exact (IHe ve eq_refl).
  - destruct f as [c | id | l op r | op e | g gargs gkw | e | elts];
      try discriminate.
    rewrite eval_Call. cbn [permitted].
    destruct (lookup (show id) ALLOWED_MATH_NAMES) as [x |] eqn:E; [| discriminate].
    destruct (eval_list P args) as [vs |] eqn:Eargs; [| discriminate].
    cbn [bind]. destruct keywords; [| discriminate].
    intros _. rewrite (eval_list_permitted P args vs IHargs Eargs), andb_true_r.
    exact (lookup_some_listed _ _ _ E).
  - discriminate.
  - discriminate.
Qed.

Lemma evaluation_fails_closed_witness :
  permitted (Call (Name (py "sqrt")) [BinOp (Constant (CInt 1)) Add
                                            (Constant (CInt 3))] []) = true.
Proof.
  apply (evaluation_fails_closed reference_platform _
           (VFloat (float_of_Z 2))).
  vm_compute. reflexivity.
Defined.

(** ** Characters outside the filter of [calculate_api] *)

Lemma lstrip_keeps (c : ascii) (s : pystr) :
  is_space c = false -> In c s -> In c (lstrip s).
Proof.
  intros Hc Hin. destruct (lstrip_spec s) as [ws [E Hws]].
  rewrite E in Hin. apply in_app_or in Hin as [Hin | Hin]; [| exact Hin].
  rewrite forallb_forall in Hws. apply Hws in Hin. congruence.
Qed.

Lemma strip_keeps (c : ascii) (s : pystr) :
  is_space c = false -> In c s -> In c (strip s).
Proof.
  intros Hc Hin. unfold strip, rstrip.
  apply -> in_rev. apply lstrip_keeps; [exact Hc |].
  apply -> in_rev. apply lstrip_keeps; assumption.
Qed.

Lemma rejected_not_space (c : ascii) :
  accepted_char c = false -> is_space c = false.
Proof.
  unfold accepted_char. destruct (is_space c); [| reflexivity].
  now rewrite !orb_true_r.
Qed.

(** X6.  A character outside the class of the filter never reaches the
    evaluator: a POST request whose expression contains such a character
    anywhere (a comma, an equals sign, an underscore, a quote, a bracket)
    and is at most 200 characters long once stripped is answered with
    "Invalid characters detected", whatever the rest of the expression is.
    In particular no call with two arguments can be made through
    [calculate_api]. *)
Theorem rejected_character_stops_the_request
    (P : platform) (e : string) (c : ascii) :
  In c (py e) -> accepted_char c = false ->
  (List.length (strip (py e)) <= 200)%nat ->
  calculate_api P (post e)
  = Some (ErrorResponse "Invalid characters detected" 400).
Proof.
  intros Hin Hc Hlen. unfold calculate_api, post.
  cbn [method POST_expression String.eqb Ascii.eqb Bool.eqb negb].
  pose proof (strip_keeps c (py e) (rejected_not_space c Hc) Hin) as Hs.
  destruct (strip (py e)) as [| a s] eqn:E; [destruct Hs |].
  apply Nat.leb_le in Hlen. rewrite Nat.ltb_antisym, Hlen. cbn [negb].
  assert (forallb accepted_char (a :: s) = false) as ->; [| reflexivity].
  destruct (forallb accepted_char (a :: s)) eqn:F; [| reflexivity].
  rewrite forallb_forall in F. rewrite (F c Hs) in Hc. discriminate.
Qed.

Lemma rejected_character_witness :
  calculate_api reference_platform (post "round(2.567, 2)")
  = Some (ErrorResponse "Invalid characters detected" 400).
Proof.
  apply (rejected_character_stops_the_request reference_platform
           "round(2.567, 2)" ","%char).
  - vm_compute. tauto.
  - reflexivity.
  - vm_compute. lia.
Defined.

(** ** [round] with a number of digits *)

Lemma eval_constant_value (P : platform) (c : constant) (v : value) :
  c <> CNone -> eval_node P (Constant c) = Ret v ->
  match v with
  | VInt _ | VNone => False
  | _ => True
  end.
Proof.
  intros Hc. cbn [eval_node].
  destruct c as [n | x | b | | s | b | im |]; try congruence;
    try (destruct (dec_of_str _) as [d |]; [| discriminate]);
    intros [= <-]; exact I.
Qed.

(** X7.  [round] with the number of digits written as a literal always
    fails: every numeric literal is evaluated to a [Decimal], which
    [round] does not take as its second argument.  So the call raises for
    every first argument, and it raises TypeError when the first argument
    evaluates and the literal is a natural number.  [round] takes a number
    of digits that is an int, as the one-argument [round] returns:
    round(2.567, round(2)) is 2.57. *)
Theorem round_to_literal_digits_fails
    (P : platform) (e : expr) (c : constant) :
  c <> CNone ->
  (exists exc,
      eval_node P (Call (Name (py "round")) [e; Constant c] []) = Raise exc)
  /\ (forall v n, eval_node P e = Ret v -> c = CInt n -> 0 <= n ->
        eval_node P (Call (Name (py "round")) [e; Constant c] [])
        = Raise TypeError)
  /\ eval_and_format P
       (Call (Name (py "round"))
          [Constant (CFloat (float_of_decimal false 2567 (-3)));
           Call (Name (py "round")) [Constant (CInt 2)] []] [])
     = Ret (VFloat (float_of_decimal false 257 (-2))).
Proof.
  intro Hc. split; [| split].
  - rewrite eval_Call.
    change (lookup (show (py "round")) ALLOWED_MATH_NAMES)
      with (Some (VFunc Fround)).
    cbn [eval_list]. destruct (eval_node P e) as [v |]; [| now eexists].
    cbn [bind].
    destruct (eval_node P (Constant c)) as [w |] eqn:Ec; [| now eexists].
    pose proof (eval_constant_value P c w Hc Ec) as Hw.
    cbn [bind call_value call_func py_round].
    destruct w; try contradiction; now eexists.
  - intros v n Ev -> Hn. rewrite eval_Call.
    change (lookup (show (py "round")) ALLOWED_MATH_NAMES)
      with (Some (VFunc Fround)).
    cbn [eval_list]. rewrite Ev, (eval_int_constant P n Hn).
    reflexivity.
  - vm_compute. reflexivity.
Qed.

Lemma round_to_literal_digits_witness :
  eval_node reference_platform
    (Call (Name (py "round"))
       [Constant (CFloat (float_of_decimal false 2567 (-3)));
        Constant (CInt 2)] [])
  = Raise TypeError.
Proof.
  refine (proj1 (proj2 (round_to_literal_digits_fails reference_platform
                          (Constant (CFloat (float_of_decimal false 2567 (-3))))
                          (CInt 2) _))
            (VDec (DFin false 2567 (-3))) 2 _ eq_refl _).
  - discriminate.
  - vm_compute. reflexivity.
  - lia.
Defined.

(** ** The expression typed on the page *)

Lemma rev_cons_head (a b : ascii) (s : pystr) :
  exists x r, rev (b :: s) = x :: r /\ rev (a :: b :: s) = x :: r ++ [a].
Proof.
  destruct (rev (b :: s)) as [| x r] eqn:E.
  - apply (f_equal (@List.length ascii)) in E.
    rewrite length_rev in E. discriminate.
  - exists x, r. split; [reflexivity |].
    change (rev (a :: b :: s)) with (rev (b :: s) ++ [a]). now rewrite E.
Qed.

Lemma no_double_operator_app (s t : pystr) :
  no_double_operator (s ++ t)
  = no_double_operator s && no_double_operator t && joint_ok s t.
Proof.
  induction s as [| a s IH].
  - unfold joint_ok. cbn [app rev no_double_operator].
    now rewrite andb_true_r.
  - destruct s as [| b s].
    + unfold joint_ok. cbn [app rev no_double_operator].
      destruct t as [| c t]; [reflexivity |].
      cbn [no_double_operator]. now rewrite andb_comm.
    + change (no_double_operator ((a :: b :: s) ++ t))
        with (negb (replaced_by_append a && replaces_in_append b)
              && no_double_operator ((b :: s) ++ t)).
      rewrite IH.
      change (no_double_operator (a :: b :: s))
        with (negb (replaced_by_append a && replaces_in_append b)
              && no_double_operator (b :: s)).
      destruct (rev_cons_head a b s) as [x [r [E1 E2]]].
      unfold joint_ok. rewrite E1, E2. cbn [app].
      now rewrite !andb_assoc.
Qed.

Lemma slice_init_last (s : pystr) (a : ascii) (r : pystr) :
  rev s = a :: r -> s = Client.slice_init s ++ [a] /\ rev (Client.slice_init s) = r.
Proof.
  intro E. apply (f_equal (@rev ascii)) in E. rewrite rev_involutive in E.
  cbn [rev] in E. subst s. unfold Client.slice_init.
  rewrite removelast_last. split; [reflexivity | apply rev_involutive].
Qed.

Lemma replaced_is_replacing (c : ascii) :
  replaced_by_append c = true -> replaces_in_append c = true.
Proof.
  unfold replaced_by_append, replaces_in_append, Client.includes, mem_string.
  cbn [existsb]. intro H.
  repeat (apply orb_prop in H as [H | H]; [rewrite H, ?orb_true_r; reflexivity |]).
  discriminate.
Qed.

Lemma no_double_operator_init (s : pystr) :
  no_double_operator s = true ->
  no_double_operator (Client.slice_init s) = true
  /\ (forall a r, rev s = a :: r -> replaced_by_append a = true ->
        forall t, joint_ok (Client.slice_init s) t = true).
Proof.
  intro H. destruct (rev s) as [| a r] eqn:E.
  - apply (f_equal (@rev ascii)) in E. rewrite rev_involutive in E. subst s.
    split; [reflexivity | discriminate].
  - destruct (slice_init_last s a r E) as [Es Er].
    rewrite Es, no_double_operator_app in H.
    apply andb_prop in H as [H Hj]. apply andb_prop in H as [H _].
    split; [exact H |].
    intros a' r' [= <- <-] Ha t. unfold joint_ok in *. rewrite Er in *.
    destruct r as [| x r]; [reflexivity |].
    rewrite (replaced_is_replacing a Ha), andb_true_r in Hj.
    destruct t; [reflexivity |]. now rewrite (proj1 (negb_true_iff _) Hj).
Qed.

Lemma append_keeps_invariant (st : Client.state) (value : pystr) :
  key_ok value = true ->
  no_double_operator (Client.currentExpr st) = true ->
  let st' := Client.append st value in
  Client.currentExpr st' <> []
  /\ Client.display st' = Client.currentExpr st'
  /\ no_double_operator (Client.currentExpr st') = true.
Proof.
  intros Hv Hs. unfold Client.append.
  set (cur := if _ && _ then [] else Client.currentExpr st).
  assert (Hcur : no_double_operator cur = true)
    by (subst cur; destruct (_ && _); [reflexivity | exact Hs]).
  clearbody cur.
  set (cur' := if _ && _ then Client.slice_init cur else cur).
  assert (H : no_double_operator (cur' ++ value) = true /\ cur' ++ value <> []).
  { destruct value as [| c r]; [discriminate |].
    split; [| now destruct cur'].
    unfold key_ok in Hv. apply andb_prop in Hv as [Hnd Hc].
    rewrite no_double_operator_app, Hnd, andb_true_r.
    destruct (no_double_operator_init cur Hcur) as [Hi Hj].
    subst cur'.
    destruct (Client.includes _ (c :: r)
              && Client.includes _ (Client.slice_last cur)) eqn:T.
    - rewrite Hi. cbn [andb]. apply andb_prop in T as [_ T].
      unfold Client.slice_last in T.
      destruct (rev cur) as [| a r0] eqn:E; [discriminate |].
      exact (Hj a r0 eq_refl T _).
    - rewrite Hcur. cbn [andb]. unfold joint_ok.
      destruct (rev cur) as [| a r0] eqn:E; [reflexivity |].
      destruct (replaces_in_append c) eqn:Rc;
        [| now rewrite andb_false_r].
      cbn [negb orb] in Hc. destruct r; [| discriminate].
      change (Client.includes ["+"; "-"; "*"; "/"; "%"; "("]%string [c])
        with (replaces_in_append c) in T.
      rewrite Rc in T. cbn [andb] in T.
      unfold Client.slice_last in T. rewrite E in T.
      change (Client.includes ["+"; "-"; "*"; "/"; "("]%string [a])
        with (replaced_by_append a) in T.
      now rewrite T. }
  destruct H as [Hnd Hne]. cbv zeta. unfold Client.updateDisplay.
  cbn [Client.currentExpr Client.display].
  destruct (cur' ++ value); [congruence | auto].
Qed.

Lemma button_values_ok : forallb key_ok Client.button_values = true.
Proof. vm_compute. reflexivity. Qed.

Lemma typing_from_buttons (a : Client.action) : typing a -> from_buttons a.
Proof. destruct a; intro H; try exact I; exact H. Qed.

Lemma perform_keeps_invariant (numeric : pystr -> bool) (st : Client.state)
    (a : Client.action) :
  typing a ->
  Client.currentExpr st <> [] /\ Client.display st = Client.currentExpr st
  /\ no_double_operator (Client.currentExpr st) = true ->
  let st' := Client.perform numeric st a in
  Client.currentExpr st' <> [] /\ Client.display st' = Client.currentExpr st'
  /\ no_double_operator (Client.currentExpr st') = true.
Proof.
  intros Ha [Hne [Hd Hnd]].
  destruct a as [value | | | | text | text]; try contradiction;
    cbn [Client.perform].
  - apply append_keeps_invariant; [| exact Hnd].
    exact (proj1 (forallb_forall _ _) button_values_ok value Ha).
  - cbv zeta. repeat split. discriminate.
  - cbv zeta. unfold Client.backspace.
    destruct (1 <? List.length (Client.currentExpr st))%nat eqn:L.
    + apply Nat.ltb_lt in L.
      destruct (no_double_operator_init _ Hnd) as [Hi _].
      unfold Client.updateDisplay. cbn [Client.currentExpr Client.display].
      destruct (Client.slice_init (Client.currentExpr st)) as [| c r] eqn:E.
      * exfalso. unfold Client.slice_init in E.
        destruct (Client.currentExpr st) as [| x [| y s]];
          cbn in L, E; [lia | lia | discriminate].
      * repeat split; [discriminate | exact Hi].
    + repeat split. discriminate.
Qed.

(** X8.  What typing gives.  Starting from the page as it is served, after
    any sequence of presses of the buttons that call [append], of AC and
    of backspace, the current expression is not empty, the display shows
    exactly the current expression, and no operator of [+ - * / (] is
    directly followed by one of [+ - * / % (]: the second press replaces
    the first.  This holds for these buttons only: the sign key brings two
    operators together, 2, *, 3 and the sign key give 2*-3. *)
Theorem typed_expression_has_no_double_operator
    (numeric : pystr -> bool) (actions : list Client.action) :
  Forall typing actions ->
  let st := fold_left (Client.perform numeric) actions Client.initial in
  (Client.currentExpr st <> []
   /\ Client.display st = Client.currentExpr st
   /\ no_double_operator (Client.currentExpr st) = true)
  /\ Client.currentExpr
       (fold_left (Client.perform numeric)
          [Client.Append (py "2"); Client.Append (py "*");
           Client.Append (py "3"); Client.ToggleSign] Client.initial)
     = py "2*-3"
  /\ no_double_operator (py "2*-3") = false.
Proof.
  intro Hall. cbv zeta. split; [| split; reflexivity].
  assert (H0 : Client.currentExpr Client.initial <> []
               /\ Client.display Client.initial
                  = Client.currentExpr Client.initial
               /\ no_double_operator (Client.currentExpr Client.initial) = true)
    by (repeat split; discriminate).
  revert H0. generalize Client.initial.
  induction Hall as [| a actions Ha _ IH]; intros st H0; [exact H0 |].
  cbn [fold_left]. apply IH. exact (perform_keeps_invariant numeric st a Ha H0).
Qed.

Lemma typed_expression_witness :
  Client.currentExpr
    (fold_left (Client.perform (fun _ => false))
       [Client.Append (py "2"); Client.Append (py "*"); Client.Append (py "-");
        Client.Append (py "("); Client.Append (py "("); Client.Append (py "3")]
       Client.initial) = py "2(3"
  /\ no_double_operator (py "2(3") = true.
Proof.
  assert (H : Forall typing
                [Client.Append (py "2"); Client.Append (py "*");
                 Client.Append (py "-"); Client.Append (py "(");
                 Client.Append (py "("); Client.Append (py "3")]).
  { repeat (apply Forall_cons; [vm_compute; tauto |]). apply Forall_nil. }
  destruct (typed_expression_has_no_double_operator (fun _ => false) _ H)
    as [[_ [_ H3]] _].
  split; [reflexivity | exact H3].
Defined.

(** ** The history of the page *)

Lemma push_history_step (h : list pystr) (e : pystr) :
  (List.length h <= 20)%nat ->
  (List.length (Client.push_history h e) <= 20)%nat
  /\ forall es,
       Client.push_history h e ++ es
       = skipn (List.length (h ++ e :: es) - 20 - List.length es)
           (h ++ e :: es).
Proof.
  intro Hh. unfold Client.push_history.
  destruct (20 <? List.length (h ++ [e]))%nat eqn:L.
  - apply Nat.ltb_lt in L. rewrite length_app in L. cbn [List.length] in L.
    destruct h as [| x t]; [cbn in L; lia |].
    cbn [List.length] in *. cbn [app tl]. split.
    + rewrite length_app. cbn [List.length]. lia.
    + intro es. rewrite <- app_assoc. cbn [app].
      assert (E : (List.length (x :: t ++ e :: es) - 20 - List.length es
                   = 1)%nat)
        by (cbn [List.length]; rewrite length_app; cbn [List.length]; lia).
      rewrite E. reflexivity.
  - apply Nat.ltb_ge in L. split; [exact L |].
    intro es. rewrite <- app_assoc. cbn [app].
    assert (E : (List.length (h ++ e :: es) - 20 - List.length es = 0)%nat)
      by (rewrite length_app in *; cbn [List.length] in *; lia).
    rewrite E. reflexivity.
Qed.

(** X9.  The history never grows beyond 20 entries: when the stored
    history has at most 20 entries, after any number of successful
    calculations it holds exactly the last 20 of the stored entries
    followed by the new ones, in order, or all of them when there are
    fewer. *)
Theorem history_keeps_the_last_twenty (stored entries : list pystr) :
  (List.length stored <= 20)%nat ->
  let h := fold_left Client.push_history entries stored in
  (List.length h <= 20)%nat
  /\ h = skipn (List.length (stored ++ entries) - 20) (stored ++ entries).
Proof.
  cbv zeta. revert stored.
  induction entries as [| e es IH]; intros stored Hs.
  - cbn [fold_left]. rewrite app_nil_r. split; [exact Hs |].
    replace (List.length stored - 20)%nat with 0%nat by lia. reflexivity.
  - cbn [fold_left].
    destruct (push_history_step stored e Hs) as [Hlen Happ].
    destruct (IH _ Hlen) as [H1 H2]. split; [exact H1 |].
    rewrite H2, (Happ es), skipn_skipn. f_equal.
    rewrite length_skipn.
    assert (List.length es <= List.length (stored ++ e :: es))%nat
      by (rewrite length_app; cbn [List.length]; lia).
    lia.
Qed.

Lemma history_witness :
  fold_left Client.push_history [py "1+1 = 2"; py "2*3 = 6"]
    (repeat (py "0+0 = 0") 19)
  = repeat (py "0+0 = 0") 18 ++ [py "1+1 = 2"; py "2*3 = 6"].
Proof.
  refine (eq_trans (proj2 (history_keeps_the_last_twenty
                             (repeat (py "0+0 = 0") 19)
                             [py "1+1 = 2"; py "2*3 = 6"] _)) _).
  - vm_compute. lia.
  - vm_compute. reflexivity.
Defined.

(** ** The sign key *)

Lemma split_parts_separator (acc s : pystr) (c : ascii) (t : pystr) :
  Client.is_separator c = true ->
  Client.split_parts acc (s ++ c :: t)
  = Client.split_parts acc s ++ [c] :: Client.split_parts [] t.
Proof.
  intro Hc. revert acc. induction s as [| x s IH]; intro acc.
  - cbn [app Client.split_parts]. now rewrite Hc.
  - cbn [app Client.split_parts]. destruct (Client.is_separator x).
    + now rewrite IH, <- app_assoc.
    + apply IH.
Qed.

Lemma split_parts_plain (acc d : pystr) :
  forallb (fun c => negb (Client.is_separator c)) d = true ->
  Client.split_parts acc d = Client.flush (acc ++ d).
Proof.
  revert acc. induction d as [| x d IH]; intros acc H.
  - now rewrite app_nil_r.
  - cbn [forallb] in H. apply andb_prop in H as [Hx Hd].
    cbn [Client.split_parts]. rewrite (proj1 (negb_true_iff _) Hx).
    rewrite (IH _ Hd), <- app_assoc. reflexivity.
Qed.

Lemma concat_split_parts (acc s : pystr) :
  List.concat (Client.split_parts acc s) = acc ++ s.
Proof.
  revert acc. induction s as [| x s IH]; intro acc.
  - cbn [Client.split_parts]. rewrite app_nil_r.
    destruct acc; [reflexivity |]. cbn [Client.flush List.concat].
    now rewrite app_nil_r.
  - cbn [Client.split_parts]. destruct (Client.is_separator x).
    + rewrite concat_app. cbn [List.concat]. rewrite IH.
      destruct acc; [reflexivity |]. cbn [Client.flush List.concat].
      now rewrite app_nil_r.
    + rewrite IH, <- app_assoc. reflexivity.
Qed.

Lemma numchar_is_plain (c : ascii) :
  is_numchar c = true ->
  Client.is_separator c = false
  /\ Ascii.eqb c "-" = false /\ Ascii.eqb c "+" = false.
Proof.
  destruct c as [[] [] [] [] [] [] [] []]; vm_compute; intro H;
    try discriminate; repeat split.
Qed.

Lemma is_number_chars (d : pystr) :
  Client.is_number d = true ->
  d <> [] /\ forallb is_numchar d = true.
Proof.
  unfold Client.is_number. destruct (span is_digit d) as [ds r] eqn:E.
  apply span_spec in E as [-> [Hds _]].
  destruct ds as [| c ds]; [discriminate |]. intro H.
  split; [discriminate |]. rewrite forallb_app. apply andb_true_intro. split.
  - apply (forallb_weaken is_digit); [| exact Hds].
    intros x Hx. unfold is_numchar. now rewrite Hx.
  - destruct r as [| x r]; [reflexivity |].
    apply andb_prop in H as [Hx Hr]. cbn [forallb].
    unfold is_numchar at 1. rewrite Hx, orb_true_r. cbn [andb].
    apply (forallb_weaken is_digit); [| exact Hr].
    intros y Hy. unfold is_numchar. now rewrite Hy.
Qed.

Lemma remove_first_absent (x : ascii) (s : pystr) :
  forallb (fun c => negb (Ascii.eqb c x)) s = true ->
  Client.remove_first x s = s.
Proof.
  induction s as [| c s IH]; [reflexivity |].
  cbn [forallb Client.remove_first]. intro H. apply andb_prop in H as [Hc Hs].
  now rewrite (proj1 (negb_true_iff _) Hc), (IH Hs).
Qed.

Lemma replace_pair_absent (a b : ascii) (new s : pystr) :
  has_pair a b s = false -> Client.replace_pair a b new s = s.
Proof.
  induction s as [| c t IH]; [reflexivity |].
  cbn [has_pair Client.replace_pair]. intro H.
  apply orb_false_elim in H as [Hc Ht].
  destruct t as [| d t']; [reflexivity |].
  now rewrite Hc, (IH Ht).
Qed.

Lemma replace_pair_at (a b : ascii) (new s t : pystr) :
  has_pair a b s = false -> ends_with a s = false ->
  Client.replace_pair a b new (s ++ a :: b :: t)
  = s ++ new ++ Client.replace_pair a b new t.
Proof.
  induction s as [| c s IH]; intros Hp He.
  - cbn [app Client.replace_pair]. now rewrite !Ascii.eqb_refl.
  - cbn [has_pair] in Hp. apply orb_false_elim in Hp as [Hc Hs].
    destruct s as [| x s].
    + cbn [ends_with] in He. cbn [app Client.replace_pair].
      rewrite He. cbn [andb]. now rewrite !Ascii.eqb_refl.
    + change (ends_with a (c :: x :: s)) with (ends_with a (x :: s)) in He.
      change ((c :: x :: s) ++ new ++ Client.replace_pair a b new t)
        with (c :: ((x :: s) ++ new ++ Client.replace_pair a b new t)).
      rewrite <- (IH Hs He).
      change (Client.replace_pair a b new ((c :: x :: s) ++ a :: b :: t))
        with (if Ascii.eqb c a && Ascii.eqb x b
              then new ++ Client.replace_pair a b new (s ++ a :: b :: t)
              else c :: Client.replace_pair a b new ((x :: s) ++ a :: b :: t)).
      now rewrite Hc.
Qed.

Lemma has_pair_app (a b : ascii) (s t : pystr) :
  has_pair a b s = false -> has_pair a b t = false ->
  ends_with a s = false \/ match t with d :: _ => Ascii.eqb d b = false
                                    | [] => True end ->
  has_pair a b (s ++ t) = false.
Proof.
  intros Hs Ht Hj. induction s as [| c s IH]; [exact Ht |].
  cbn [has_pair] in Hs. apply orb_false_elim in Hs as [Hc Hs].
  destruct s as [| x s].
  - cbn [app has_pair]. cbn [app] in Ht. rewrite Ht, orb_false_r.
    destruct t as [| d t]; [reflexivity |].
    destruct Hj as [He | Hd].
    + cbn [ends_with] in He. now rewrite He.
    + now rewrite Hd, andb_false_r.
  - change (has_pair a b ((c :: x :: s) ++ t))
      with (Ascii.eqb c a && Ascii.eqb x b || has_pair a b ((x :: s) ++ t)).
    rewrite Hc. cbn [orb]. apply IH; [exact Hs |].
    destruct Hj as [He | Hd]; [left; exact He | right; exact Hd].
Qed.

Lemma has_pair_without (a b x : ascii) (d : pystr) :
  forallb (fun c => negb (Ascii.eqb c b)) d = true ->
  has_pair a b (x :: d) = false.
Proof.
  revert x. induction d as [| c d IH]; intros x H; [reflexivity |].
  cbn [forallb] in H. apply andb_prop in H as [Hc Hd].
  change (has_pair a b (x :: c :: d))
    with (Ascii.eqb x a && Ascii.eqb c b || has_pair a b (c :: d)).
  now rewrite (proj1 (negb_true_iff _) Hc), andb_false_r, (IH c Hd).
Qed.

Lemma no_double_operator_pair (a b : ascii) (s : pystr) :
  replaced_by_append a = true -> replaces_in_append b = true ->
  no_double_operator s = true -> has_pair a b s = false.
Proof.
  intros Ha Hb. induction s as [| c t IH]; [reflexivity |].
  cbn [no_double_operator has_pair]. intro H.
  apply andb_prop in H as [Hc Ht]. rewrite (IH Ht), orb_false_r.
  destruct t as [| d t']; [reflexivity |].
  destruct (Ascii.eqb c a) eqn:Eca; [| reflexivity].
  destruct (Ascii.eqb d b) eqn:Edb; [| reflexivity].
  apply Ascii.eqb_eq in Eca, Edb. subst c d. now rewrite Ha, Hb in Hc.
Qed.

Lemma no_double_operator_end (a c : ascii) (s t : pystr) :
  replaced_by_append a = true -> replaces_in_append c = true ->
  no_double_operator (s ++ c :: t) = true -> ends_with a s = false.
Proof.
  intros Ha Hc. induction s as [| x s IH]; [reflexivity |].
  destruct s as [| y s].
  - cbn [app no_double_operator ends_with]. intro H.
    apply andb_prop in H as [H _]. rewrite Hc, andb_true_r in H.
    destruct (Ascii.eqb x a) eqn:E; [| reflexivity].
    apply Ascii.eqb_eq in E. subst x. now rewrite Ha in H.
  - change (ends_with a (x :: y :: s)) with (ends_with a (y :: s)).
    change ((x :: y :: s) ++ c :: t) with (x :: (y :: s) ++ c :: t).
    intro H. cbn [no_double_operator] in H.
    apply andb_prop in H as [_ H]. exact (IH H).
Qed.

Lemma toggle_sign_parts (numeric : pystr -> bool) (st : Client.state)
    (parts r : list pystr) :
  Client.split_parts [] (Client.currentExpr st) = parts -> parts <> [] ->
  Client.toggle_last (rev parts) = Some r ->
  Client.toggleSign numeric st
  = Client.updateDisplay (Client.clean_up (List.concat (rev r))).
Proof.
  intros Hp Hne Ht. unfold Client.toggleSign. rewrite Hp.
  destruct parts as [| p l]; [congruence |]. now rewrite Ht.
Qed.

Lemma number_facts (d : pystr) :
  Client.is_number d = true ->
  Client.split_parts [] d = [d]
  /\ Client.is_number (Client.remove_first "-" d) = true
  /\ Client.flip_sign d = "-"%char :: d
  /\ (forall a x, has_pair a "-" (x :: d) = false).
Proof.
  intro Hd. destruct (is_number_chars d Hd) as [Hne Hall].
  assert (Hminus : forallb (fun c => negb (Ascii.eqb c "-")) d = true).
  { apply (forallb_weaken is_numchar); [| exact Hall].
    intros c Hc. now rewrite (proj1 (proj2 (numchar_is_plain c Hc))). }
  repeat split.
  - rewrite split_parts_plain.
    + cbn [app]. destruct d; [congruence | reflexivity].
    + apply (forallb_weaken is_numchar); [| exact Hall].
      intros c Hc. now rewrite (proj1 (numchar_is_plain c Hc)).
  - now rewrite (remove_first_absent _ _ Hminus).
  - destruct d as [| c d]; [congruence |]. cbn [forallb] in Hminus.
    apply andb_prop in Hminus as [Hc _]. unfold Client.flip_sign.
    now rewrite (proj1 (negb_true_iff _) Hc).
  - intros a x. exact (has_pair_without a "-" x d Hminus).
Qed.

Lemma toggle_sign_after_operator (numeric : pystr -> bool) (st : Client.state)
    (pre : pystr) (op : ascii) (d : pystr) :
  Client.is_separator op = true -> Client.is_number d = true ->
  Client.currentExpr st = pre ++ op :: d ->
  Client.currentExpr (Client.toggleSign numeric st)
  = Client.clean_up (pre ++ op :: "-"%char :: d).
Proof.
  intros Hop Hd E. destruct (number_facts d Hd) as [Hs [Hr [Hf _]]].
  rewrite (toggle_sign_parts numeric st
             (Client.split_parts [] pre ++ [[op]; d])
             (("-"%char :: d) :: [op] :: rev (Client.split_parts [] pre))).
  - cbn [Client.updateDisplay Client.currentExpr rev].
    rewrite <- !app_assoc, rev_involutive, concat_app, concat_split_parts.
    cbn [app List.concat]. now rewrite app_nil_r.
  - now rewrite E, (split_parts_separator [] pre op d Hop), Hs.
  - now destruct (Client.split_parts [] pre).
  - rewrite rev_app_distr. cbn [rev app Client.toggle_last].
    now rewrite Hr, Hf.
Qed.

Lemma has_pair_tail (a b x : ascii) (d : pystr) :
  has_pair a b (x :: d) = false -> has_pair a b d = false.
Proof.
  cbn [has_pair]. intro H. now apply orb_false_elim in H as [_ H].
Qed.

Lemma typed_prefix_facts (pre : pystr) (op : ascii) (d : pystr) :
  replaces_in_append op = true ->
  no_double_operator (pre ++ op :: d) = true ->
  has_pair "-" "-" pre = false /\ has_pair "+" "-" pre = false
  /\ ends_with "-" pre = false /\ ends_with "+" pre = false.
Proof.
  intros Hop H. pose proof H as H'.
  rewrite no_double_operator_app in H'.
  apply andb_prop in H' as [H' _]. apply andb_prop in H' as [Hpre _].
  repeat split.
  - now apply no_double_operator_pair.
  - now apply no_double_operator_pair.
  - now apply (no_double_operator_end "-" op pre d).
  - now apply (no_double_operator_end "+" op pre d).
Qed.

(** X10.  The sign key on an expression typed with the buttons.  On a
    bare number it puts a minus sign in front.  When the expression ends
    with [+] or [-] and a number, it exchanges the two operators: a+b
    becomes a-b and a-b becomes a+b.  So pressing the key again and again
    on the number 5 shows -5, +5, -5 and so on, and never 5 again. *)
Theorem toggle_sign_exchanges_plus_and_minus
    (numeric : pystr -> bool) (st : Client.state) (pre d : pystr) :
  Client.is_number d = true ->
  no_double_operator (Client.currentExpr st) = true ->
  (Client.currentExpr st = d ->
   Client.currentExpr (Client.toggleSign numeric st) = "-"%char :: d)
  /\ (Client.currentExpr st = pre ++ "+"%char :: d ->
      Client.currentExpr (Client.toggleSign numeric st) = pre ++ "-"%char :: d)
  /\ (Client.currentExpr st = pre ++ "-"%char :: d ->
      Client.currentExpr (Client.toggleSign numeric st) = pre ++ "+"%char :: d).
Proof.
  intros Hd Hnd. destruct (number_facts d Hd) as [Hs [Hr [Hf Hw]]].
  split; [| split]; intro E.
  - rewrite (toggle_sign_parts numeric st [d] [("-"%char :: d)]).
    + cbn [Client.updateDisplay Client.currentExpr rev app List.concat].
      rewrite app_nil_r. unfold Client.clean_up.
      now rewrite !(replace_pair_absent _ _ _ _ (Hw _ _)).
    + now rewrite E.
    + discriminate.
    + cbn [rev app Client.toggle_last]. now rewrite Hr, Hf.
  - rewrite E in Hnd.
    destruct (typed_prefix_facts pre "+" d eq_refl Hnd) as [Hmm [Hpm [Hem Hep]]].
    rewrite (toggle_sign_after_operator numeric st pre "+" d eq_refl Hd E).
    unfold Client.clean_up.
    rewrite (replace_pair_absent "-" "-" _ (pre ++ "+"%char :: "-"%char :: d)).
    + rewrite (replace_pair_at "+" "-" _ pre d Hpm Hep).
      rewrite (replace_pair_absent "+" "-" _ d (has_pair_tail _ _ "0" _ (Hw _ _))).
      cbn [py list_ascii_of_string app].
      apply replace_pair_absent, has_pair_app; [exact Hmm | apply Hw | now left].
    + apply has_pair_app; [exact Hmm | | now right].
      change (has_pair "-" "-" ("+"%char :: "-"%char :: d))
        with (false || has_pair "-" "-" ("-"%char :: d)).
      apply Hw.
  - rewrite E in Hnd.
    destruct (typed_prefix_facts pre "-" d eq_refl Hnd) as [Hmm [Hpm [Hem Hep]]].
    rewrite (toggle_sign_after_operator numeric st pre "-" d eq_refl Hd E).
    unfold Client.clean_up.
    rewrite (replace_pair_at "-" "-" _ pre d Hmm Hem).
    rewrite (replace_pair_absent "-" "-" _ d (has_pair_tail _ _ "0" _ (Hw _ _))).
    cbn [py list_ascii_of_string app].
    rewrite (replace_pair_absent "+" "-" _ (pre ++ "+"%char :: d)).
    + apply replace_pair_absent, has_pair_app; [exact Hmm | apply Hw | now right].
    + apply has_pair_app; [exact Hpm | apply Hw | now right].
Qed.

Lemma toggle_sign_witness :
  Client.currentExpr
    (Client.toggleSign (fun _ => false) (Client.updateDisplay (py "12+5")))
  = py "12-5".
Proof.
  refine (proj1 (proj2 (toggle_sign_exchanges_plus_and_minus (fun _ => false)
                          (Client.updateDisplay (py "12+5"))
                          (py "12") (py "5") _ _)) _).
  - vm_compute. reflexivity.
  - vm_compute. reflexivity.
  - vm_compute. reflexivity.
Defined.

(** ** Backspace *)

(** X11.  Backspace undoes the last character typed: on a page whose
    display shows a non-empty current expression, typing one character that
    is not an operator of [+ - * / % (] (a digit, the point, a closing
    parenthesis) and pressing backspace gives back the state before, also
    when the expression was the initial 0. *)
Theorem backspace_undoes_a_character (st : Client.state) (c : ascii) :
  Client.currentExpr st <> [] ->
  Client.display st = Client.currentExpr st ->
  replaces_in_append c = false ->
  Client.backspace (Client.append st [c]) = st.
Proof.
  intros Hne Hd Hc. destruct st as [cur disp].
  cbn [Client.currentExpr Client.display] in *. subst disp.
  unfold Client.append. cbn [Client.currentExpr].
  change (Client.includes ["+"; "-"; "*"; "/"; "%"; "("]%string [c])
    with (replaces_in_append c).
  rewrite Hc. cbn [andb].
  destruct (String.eqb (show cur) "0" && negb (String.eqb (show [c]) "."))
    eqn:T.
  - apply andb_prop in T as [T _]. apply String.eqb_eq in T.
    apply (f_equal py) in T. rewrite py_show in T. subst cur.
    reflexivity.
  - unfold Client.backspace, Client.updateDisplay.
    cbn [Client.currentExpr]. rewrite length_app. cbn [List.length].
    destruct cur as [| x cur]; [congruence |].
    cbn [List.length].
    replace (1 <? S (List.length cur) + 1)%nat with true
      by (symmetry; apply Nat.ltb_lt; lia).
    unfold Client.slice_init. now rewrite removelast_last.
Qed.

Lemma backspace_witness :
  Client.backspace (Client.append Client.initial ["7"%char]) = Client.initial.
Proof.
  apply (backspace_undoes_a_character Client.initial "7").
  - discriminate.
  - reflexivity.
  - reflexivity.
Defined.

(** ** The keyboard *)

Lemma long_key_is_no_character (c c2 x : ascii) (r : pystr) :
  String.eqb (show (c :: c2 :: r)) (String x EmptyString) = false.
Proof.
  cbn [show string_of_list_ascii String.eqb].
  destruct (Ascii.eqb c x); reflexivity.
Qed.

Lemma long_key_digit (c c2 : ascii) (r : pystr) :
  Client.str_leb (py "0") (c :: c2 :: r)
  && Client.str_leb (c :: c2 :: r) (py "9") = true ->
  is_digit c = true.
Proof.
  destruct c as [[] [] [] [] [] [] [] []]; vm_compute; intro H;
    first [reflexivity | discriminate].
Qed.

(** X12.  The keyboard edits the expression only as the buttons do: when
    the listener of [keydown] edits the expression for a key, the action is
    one of the buttons' actions, unless the name of the key has several
    characters and begins with a digit, which is then appended as it is.
    And the key is no letter: a key of one letter has no effect on the
    expression, so the functions and the constants are entered with the
    buttons only. *)
Theorem keyboard_edits_as_the_buttons (key : pystr) (a : Client.action) :
  Client.keydown key = Client.Edit a ->
  (from_buttons a
   \/ (a = Client.Append key /\ (1 < List.length key)%nat
       /\ match key with c :: _ => is_digit c = true | [] => False end))
  /\ (forall c, key = [c] -> is_alpha c = false).
Proof.
  intro H. split.
  - revert H. destruct key as [| c r]; [vm_compute; discriminate |].
    destruct r as [| c2 r].
    + destruct c as [[] [] [] [] [] [] [] []]; vm_compute;
        intros [= <-]; left; tauto.
    + unfold Client.keydown, Client.key_is, Client.includes, mem_string.
      cbn [existsb]. rewrite !long_key_is_no_character. cbn [orb].
      destruct (_ && _) eqn:R.
      * intros [= <-]. right. repeat split; [cbn [List.length]; lia |].
        exact (long_key_digit c c2 r R).
      * repeat match goal with
               | |- context [if ?b then _ else _] => destruct b
               end; intros [= <-]; left; exact I.
  - intros c ->. revert H.
    destruct c as [[] [] [] [] [] [] [] []]; vm_compute; intro H;
      first [reflexivity | discriminate].
Qed.

Lemma keyboard_witness :
  from_buttons (Client.Append (py "7"))
  \/ (Client.Append (py "7") = Client.Append (py "7")
      /\ (1 < List.length (py "7"))%nat
      /\ is_digit "7" = true).
Proof.
  apply (keyboard_edits_as_the_buttons (py "7") (Client.Append (py "7"))).
  vm_compute. reflexivity.
Defined.

(** ** Integer division and remainder *)

Lemma fewer_digits_is_smaller (a b : Z) :
  0 < a -> 0 < b -> ndigits a - ndigits b <= -2 -> a < b.
Proof.
  intros Ha Hb H.
  destruct (ndigits_spec a Ha) as [[_ Hhi] _].
  destruct (ndigits_spec b Hb) as [[Hlo _] _].
  assert (10 ^ ndigits a <= 10 ^ (ndigits b - 1))
    by (apply Z.pow_le_mono_r; lia).
  lia.
Qed.

Lemma dec_divide_integers (s : bool) (a b : Z) :
  0 <= a < 10 ^ prec -> 0 < b < 10 ^ prec ->
  dec_divide s a 0 false b 0
  = Ret (DFin s (a / b) 0, DFin s (a mod b) 0).
Proof.
  intros [Ha Hla] [Hb Hlb]. unfold dec_divide, adjusted.
  rewrite xorb_false_r. cbn [Z.min Z.compare].
  destruct (Z.eqb_spec a 0) as [-> | Ha0].
  - cbn [orb]. unfold dec_rescale. cbn [Z.eqb].
    now rewrite Z.div_0_l, Z.mod_0_l by lia.
  - cbn [orb].
    destruct (Z.leb_spec (0 + ndigits a - 1 - (0 + ndigits b - 1)) (-2))
      as [Hd | Hd].
    + assert (a < b) by (apply fewer_digits_is_smaller; lia).
      rewrite Z.div_small, Z.mod_small by lia.
      unfold dec_rescale. destruct (Z.eqb_spec a 0) as [| _]; [lia |].
      cbn [Z.leb Z.compare Z.sub Z.opp Z.add Z.pow Z.pow_pos Pos.iter].
      now rewrite Z.mul_1_r.
    + destruct (ndigits_le_prec a ltac:(lia)) as [_ Hna].
      destruct (ndigits_le_prec b ltac:(lia)) as [Hnb _].
      destruct (Z.leb_spec (0 + ndigits a - 1 - (0 + ndigits b - 1)) prec)
        as [_ | Hp]; [| lia].
      cbn [Z.leb Z.compare Z.sub Z.opp Z.add Z.pow Z.pow_pos Pos.iter].
      rewrite Z.mul_1_r.
      assert (a / b <= a) by (apply Z.div_le_upper_bound; nia).
      destruct (Z.ltb_spec (a / b) (10 ^ prec)) as [_ |]; [reflexivity | lia].
Qed.

Lemma eval_UnaryOp (P : platform) (op : unaryop) (e : expr) :
  eval_node P (UnaryOp op e)
  = (operand <- eval_node P e ;;
     if negb (allowed_unaryop op)
     then Raise (not_allowed "Unary operator not allowed: "
                   (py (unaryop_name op)))
     else unary_op op operand).
Proof. reflexivity. Qed.

Lemma eval_signed_literal (P : platform) (neg : bool) (a : Z) :
  0 <= a < 10 ^ prec ->
  eval_node P (if neg then UnaryOp USub (Constant (CInt a))
               else Constant (CInt a))
  = Ret (VDec (DFin (neg && negb (a =? 0)) a 0)).
Proof.
  intros Ha. destruct neg; [| now rewrite eval_int_constant by lia].
  rewrite eval_UnaryOp, eval_int_constant by lia.
  cbn [bind allowed_unaryop negb unary_op dec_neg andb].
  destruct (a =? 0); now rewrite dec_fix_small by lia.
Qed.

Lemma signed_quotient (P : platform) (neg : bool) (a b : Z) :
  0 <= a < 10 ^ prec -> 0 < b < 10 ^ prec ->
  eval_and_format P
    (BinOp (if neg then UnaryOp USub (Constant (CInt a)) else Constant (CInt a))
       FloorDiv (Constant (CInt b)))
  = Ret (VInt (if neg then - (a / b) else a / b))
  /\ eval_and_format P
       (BinOp (if neg then UnaryOp USub (Constant (CInt a))
               else Constant (CInt a))
          Mod (Constant (CInt b)))
     = Ret (VInt (if neg then - (a mod b) else a mod b)).
Proof.
  intros Ha Hb. unfold eval_and_format.
  rewrite !eval_BinOp, (eval_signed_literal P neg a Ha).
  rewrite eval_int_constant by lia.
  cbn [bind allowed_operator negb binary_op]. unfold dec_binop.
  cbn [dec_floordiv dec_mod].
  destruct (Z.eqb_spec b 0) as [| _]; [lia |].
  rewrite (dec_divide_integers _ a b Ha Hb). cbn [bind fst snd].
  assert (0 <= a / b) by (apply Z.div_pos; lia).
  assert (0 <= a mod b < b) by (apply Z.mod_pos_bound; lia).
  rewrite dec_fix_small by lia. cbn [bind].
  rewrite !format_integer by lia.
  destruct neg; cbn [andb]; [| split; reflexivity].
  destruct (Z.eqb_spec a 0) as [-> | _]; cbn [negb]; [| split; reflexivity].
  rewrite Z.div_0_l, Z.mod_0_l by lia. split; reflexivity.
Qed.

(** X13.  Integer division and remainder on the trees of integer literals
    of at most 28 digits, the divisor not zero.  For a dividend written
    without sign the results are the quotient and the remainder of the
    division of natural numbers.  For a negated dividend the quotient is
    rounded toward zero and the remainder has the sign of the dividend
    (where Python's own integers round down): the texts "-7 // 2" and
    "-7 % 2" give -3 and -1.  The tree of a remainder is that of a text in
    which the percent sign does not directly follow the number: "-7%2" is
    taken by the percentage rewrite and is a syntax error. *)
Theorem integer_division_truncates (P : platform) (a b : Z) :
  0 <= a < 10 ^ 28 -> 0 < b < 10 ^ 28 ->
  (safe_math_eval P "-7 // 2" = Some (Ret (VInt (-3)))
   /\ safe_math_eval P "-7 % 2" = Some (Ret (VInt (-1)))
   /\ safe_math_eval P "-7%2" = Some (Raise SyntaxError))
  /\ eval_and_format P (BinOp (Constant (CInt a)) FloorDiv (Constant (CInt b)))
  = Ret (VInt (a / b))
  /\ eval_and_format P (BinOp (Constant (CInt a)) Mod (Constant (CInt b)))
     = Ret (VInt (a mod b))
  /\ eval_and_format P
       (BinOp (UnaryOp USub (Constant (CInt a))) FloorDiv (Constant (CInt b)))
     = Ret (VInt (Z.quot (- a) b))
  /\ eval_and_format P
       (BinOp (UnaryOp USub (Constant (CInt a))) Mod (Constant (CInt b)))
     = Ret (VInt (Z.rem (- a) b)).
Proof.
  intros Ha Hb.
  destruct (signed_quotient P false a b Ha Hb) as [H1 H2].
  destruct (signed_quotient P true a b Ha Hb) as [H3 H4].
  cbv iota in H1, H2, H3, H4.
  rewrite Z.quot_opp_l, Z.rem_opp_l by lia.
  rewrite Z.quot_div_nonneg, Z.rem_mod_nonneg by lia.
  split; [repeat split; vm_compute; reflexivity |].
  repeat split; assumption.
Qed.

Lemma integer_division_witness :
  eval_and_format reference_platform
    (BinOp (UnaryOp USub (Constant (CInt 7))) FloorDiv (Constant (CInt 2)))
  = Ret (VInt (-3)).
Proof.
  refine (proj1 (proj2 (proj2 (proj2
            (integer_division_truncates reference_platform 7 2 _ _))))); lia.
Defined.

(** ** Exact division *)

Lemma dec_truediv_finite (s1 : bool) (c1 e1 : Z) (s2 : bool) (c2 e2 : Z) :
  c1 <> 0 -> c2 <> 0 ->
  dec_truediv (DFin s1 c1 e1) (DFin s2 c2 e2)
  = let shift := ndigits c2 - ndigits c1 + prec + 1 in
    let exp := e1 - e2 - shift in
    let '(n, d) := if 0 <=? shift then (c1 * 10 ^ shift, c2)
                   else (c1, c2 * 10 ^ (- shift)) in
    if negb (n mod d =? 0) then
      dec_fix (xorb s1 s2) (if (n / d) mod 5 =? 0 then n / d + 1 else n / d) exp
    else
      let '(coeff, exp) :=
        trim_zeros (e1 - e2) (Z.to_nat (ndigits (n / d))) (n / d) exp in
      dec_fix (xorb s1 s2) coeff exp.
Proof.
  intros H1 H2. unfold dec_truediv.
  destruct (Z.eqb_spec c2 0) as [| _]; [contradiction |].
  destruct (Z.eqb_spec c1 0) as [| _]; [contradiction |].
  reflexivity.
Qed.

Lemma trim_zeros_exact (fuel : nat) (k q : Z) :
  0 <= k -> (Z.to_nat k <= fuel)%nat ->
  trim_zeros 0 fuel (q * 10 ^ k) (- k) = (q, 0).
Proof.
  revert k. induction fuel as [| f IH]; intros k Hk Hf.
  - assert (k = 0) as -> by lia. cbn [trim_zeros Z.pow Z.opp].
    now rewrite Z.mul_1_r.
  - destruct (Z.eq_dec k 0) as [-> | Hk0].
    + cbn [trim_zeros Z.pow Z.opp Z.ltb Z.compare andb].
      now rewrite Z.mul_1_r.
    + change (trim_zeros 0 (S f) (q * 10 ^ k) (- k))
        with (if (- k <? 0) && ((q * 10 ^ k) mod 10 =? 0)
              then trim_zeros 0 f (q * 10 ^ k / 10) (- k + 1)
              else (q * 10 ^ k, - k)).
      assert (E : q * 10 ^ k = q * 10 ^ (k - 1) * 10).
      { replace k with (k - 1 + 1) at 1 by lia.
        rewrite Z.pow_add_r by lia. change (10 ^ 1) with 10. lia. }
      rewrite E, Z.mod_mul, Z.div_mul by lia.
      destruct (Z.ltb_spec (- k) 0) as [_ |]; [| lia].
      cbn [andb Z.eqb]. replace (- k + 1) with (- (k - 1)) by lia.
      apply IH; lia.
Qed.

Lemma dec_truediv_exact (s : bool) (a b : Z) :
  0 < a < 10 ^ prec -> 0 < b < 10 ^ prec -> a mod b = 0 ->
  dec_truediv (DFin s a 0) (DFin false b 0) = Ret (DFin s (a / b) 0).
Proof.
  intros Ha Hb Hdiv. rewrite dec_truediv_finite by lia. cbv zeta.
  rewrite xorb_false_r.
  destruct (ndigits_le_prec a Ha) as [_ Hna].
  destruct (ndigits_le_prec b Hb) as [Hnb _].
  set (shift := ndigits b - ndigits a + prec + 1).
  assert (Hshift : 2 <= shift) by (unfold shift; lia).
  destruct (Z.leb_spec 0 shift) as [_ |]; [| lia].
  assert (Eq : a = b * (a / b)) by (apply Z_div_exact_full_2; lia).
  assert (Hq : 0 < a / b <= a).
  { assert (0 <= a / b) by (apply Z.div_pos; lia). nia. }
  set (q := a / b) in *.
  assert (En : a * 10 ^ shift = q * 10 ^ shift * b) by (rewrite Eq at 1; ring).
  rewrite En, Z.mod_mul, Z.div_mul by lia. cbn [Z.eqb negb].
  change (0 - 0) with 0. replace (0 - shift) with (- shift) by lia.
  rewrite trim_zeros_exact.
  - apply dec_fix_small. lia.
  - lia.
  - rewrite ndigits_mul_pow10 by lia.
    destruct (ndigits_spec q ltac:(lia)) as [_ Hone]. lia.
Qed.

(** X14.  A division that comes out even gives an integer: for integer
    literals of at most 28 digits, the divisor not zero and dividing the
    dividend, the result is the exact quotient, returned as an int (8/2
    is 4, not 4.0). *)
Theorem exact_division_gives_an_integer (P : platform) (a b : Z) :
  0 <= a < 10 ^ 28 -> 0 < b < 10 ^ 28 -> a mod b = 0 ->
  eval_and_format P (BinOp (Constant (CInt a)) Div (Constant (CInt b)))
  = Ret (VInt (a / b)).
Proof.
  intros Ha Hb Hdiv. unfold eval_and_format.
  rewrite eval_BinOp, !eval_int_constant by lia.
  cbn [bind allowed_operator negb binary_op]. unfold dec_binop.
  change (10 ^ 28) with (10 ^ prec) in *.
  destruct (Z.eq_dec a 0) as [-> | Ha0].
  - unfold dec_truediv. destruct (Z.eqb_spec b 0) as [| _]; [lia |].
    rewrite Z.div_0_l by lia. vm_compute. reflexivity.
  - rewrite (dec_truediv_exact false a b) by (try assumption; lia).
    cbn [bind]. rewrite format_integer; [reflexivity |].
    apply Z.div_pos; lia.
Qed.

Lemma exact_division_witness :
  eval_and_format reference_platform
    (BinOp (Constant (CInt 1000)) Div (Constant (CInt 8)))
  = Ret (VInt 125).
Proof.
  apply (exact_division_gives_an_integer reference_platform 1000 8).
  - lia.
  - lia.
  - reflexivity.
Defined.

(** ** The page and the filter of the server *)

Lemma forallb_removelast (p : ascii -> bool) (s : pystr) :
  forallb p s = true -> forallb p (removelast s) = true.
Proof.
  induction s as [| c s IH]; [reflexivity |].
  cbn [forallb]. intro H. apply andb_prop in H as [Hc Hs].
  destruct s as [| x s]; [reflexivity |].
  change (removelast (c :: x :: s)) with (c :: removelast (x :: s)).
  cbn [forallb]. now rewrite Hc, (IH Hs).
Qed.

Lemma button_values_typed :
  forallb (forallb typed_char) Client.button_values = true.
Proof. vm_compute. reflexivity. Qed.

Lemma perform_keeps_typed (numeric : pystr -> bool) (st : Client.state)
    (a : Client.action) :
  typing a ->
  forallb typed_char (Client.currentExpr st) = true ->
  forallb typed_char (Client.currentExpr (Client.perform numeric st a)) = true.
Proof.
  intros Ha Hst.
  destruct a as [value | | | | text | text]; try contradiction;
    cbn [Client.perform].
  - pose proof (proj1 (forallb_forall _ _) button_values_typed value Ha) as Hv.
    unfold Client.append, Client.updateDisplay. cbn [Client.currentExpr].
    rewrite forallb_app, Hv, andb_true_r.
    destruct (_ && _); destruct (_ && _);
      try apply forallb_removelast; first [exact Hst | reflexivity].
  - reflexivity.
  - unfold Client.backspace. destruct (_ <? _)%nat; [| reflexivity].
    cbn [Client.updateDisplay Client.currentExpr].
    now apply forallb_removelast.
Qed.

Lemma strip_without_space (s : pystr) :
  forallb (fun c => negb (is_space c)) s = true -> strip s = s.
Proof.
  intro H. unfold strip, rstrip.
  assert (Hl : lstrip s = s).
  { apply lstrip_fixed. destruct s as [| c s]; [exact I |].
    cbn [forallb] in H. apply andb_prop in H as [Hc _].
    now apply negb_true_iff in Hc. }
  rewrite Hl. rewrite lstrip_fixed; [apply rev_involutive |].
  destruct (rev s) as [| c r] eqn:E; [exact I |].
  assert (Hin : In c s) by (apply in_rev; rewrite E; now left).
  rewrite forallb_forall in H. apply H in Hin. now apply negb_true_iff in Hin.
Qed.

(** X15.  The page and the server agree on the characters.  After any
    sequence of presses of the buttons that call [append], of AC and of
    backspace, the current expression, sent to [calculate_api] in a POST
    request, passes the checks for emptiness and for invalid characters:
    when it has at most 200 characters it is evaluated, and the answer is
    the error of [safe_math_eval], or its result, or a server error when
    the result cannot be written as JSON.  The last case is reached by
    typing: the key of the square root and backspace leave "sqrt", whose
    value is a function. *)
Theorem typed_expression_is_evaluated
    (P : platform) (numeric : pystr -> bool) (actions : list Client.action) :
  Forall typing actions ->
  let expr := Client.currentExpr
                (fold_left (Client.perform numeric) actions Client.initial) in
  (List.length expr <= 200)%nat ->
  calculate_api P (post (show expr)) = evaluated P expr
  /\ Client.currentExpr
       (fold_left (Client.perform numeric)
          [Client.Append (py "sqrt("); Client.Backspace] Client.initial)
     = py "sqrt"
  /\ calculate_api P (post "sqrt") = Some ServerError.
Proof.
  intro Hall. cbv zeta. intro Hlen. split; [| split; reflexivity].
  revert Hlen.
  assert (H0 : (Client.currentExpr Client.initial <> []
                /\ Client.display Client.initial
                   = Client.currentExpr Client.initial
                /\ no_double_operator (Client.currentExpr Client.initial) = true)
               /\ forallb typed_char (Client.currentExpr Client.initial) = true)
    by (repeat split; discriminate).
  revert H0. generalize Client.initial.
  induction Hall as [| a actions Ha _ IH]; intros st [H1 H2].
  - cbn [fold_left]. intro Hlen. destruct H1 as [Hne _].
    unfold calculate_api, evaluated, post.
    cbn [method POST_expression String.eqb Ascii.eqb Bool.eqb negb].
    rewrite py_show, strip_without_space.
    + destruct (Client.currentExpr st) as [| c s] eqn:E; [congruence |].
      apply Nat.leb_le in Hlen. rewrite Nat.ltb_antisym, Hlen. cbn [negb].
      rewrite (forallb_weaken typed_char accepted_char _
                 (fun c H => proj1 (andb_prop _ _ H)) H2).
      reflexivity.
    + apply (forallb_weaken typed_char); [| exact H2].
      intros c H. now apply andb_prop in H as [_ H].
  - cbn [fold_left]. apply IH. split.
    + exact (perform_keeps_invariant numeric st a Ha H1).
    + exact (perform_keeps_typed numeric st a Ha H2).
Qed.

Lemma typed_expression_is_evaluated_witness :
  calculate_api reference_platform (post "2+3")
  = Some (ResultResponse (VInt 5)).
Proof.
  refine (eq_trans
            (proj1 (typed_expression_is_evaluated reference_platform
                      (fun _ => false)
                      [Client.Append (py "2"); Client.Append (py "+");
                       Client.Append (py "3")] _ _)) _).
  - repeat (apply Forall_cons; [vm_compute; tauto |]). apply Forall_nil.
  - vm_compute. lia.
  - vm_compute. reflexivity.
Defined.
